(** * mkToDo: the task service, its SQLite store and the schema migrations

    A shallow embedding of [internal/todo] (the domain service) and
    [internal/store] (the SQLite repository with its versioned migrations),
    together with the two library facilities the store leans on: the RFC3339
    text form of [time.Time] and the relational engine behind [database/sql].
    The second half of the file states and proves the properties of the
    storage and service contract. *)

From Stdlib Require Import ZArith List String Ascii Bool Lia.
From Stdlib Require Import Sorting.Sorted Sorting.Permutation.
Import ListNotations.

Local Open Scope string_scope.
Local Open Scope Z_scope.

(* ================================================================== *)
(** * Package [time] *)
(* ================================================================== *)

Module GoTime.

(** A [time.Time]: the instant as seconds since the Unix epoch plus the
    nanoseconds within that second, and the zone offset (seconds east of
    UTC) of the location the value carries.  The monotonic clock reading
    plays no part in formatting and is left out. *)
Record Time : Type := mkTime {
  unix : Z;
  nsec : Z;
  offset : Z
}.

(** [time.Time{}], what a failed [time.Parse] hands back:
    January 1, year 1, 00:00:00 UTC. *)
Definition zeroTime : Time := mkTime (-62135596800) 0 0.

(** [t.Before(u)]: comparison of the instants, whatever the locations. *)
Definition Before (t u : Time) : bool :=
  (unix t <? unix u) || ((unix t =? unix u) && (nsec t <? nsec u)).

(** [t.Truncate(time.Second)] for the instants at hand: the same second,
    no fraction. *)
Definition truncSecond (t : Time) : Time := mkTime (unix t) 0 (offset t).

(** ** The proleptic Gregorian calendar *)

(** Days since 1970-01-01 to (year, month, day).  The count is shifted to an
    era of 400 years starting on March 1 of year 0. *)
Definition civil_of_doe (doe : Z) : Z * Z * Z :=
  let yoe := (doe - doe / 1460 + doe / 36524 - doe / 146096) / 365 in
  let doy := doe - (365 * yoe + yoe / 4 - yoe / 100) in
  let mp := (5 * doy + 2) / 153 in
  let d := doy - (153 * mp + 2) / 5 + 1 in
  let m := if mp <? 10 then mp + 3 else mp - 9 in
  ((if m <=? 2 then yoe + 1 else yoe), m, d).

Definition civil_from_days (z : Z) : Z * Z * Z :=
  let z' := z + 719468 in
  let era := z' / 146097 in
  let '(y, m, d) := civil_of_doe (z' mod 146097) in
  (y + era * 400, m, d).

Definition doe_of_civil (yoe m d : Z) : Z :=
  let doy := (153 * (if 2 <? m then m - 3 else m + 9) + 2) / 5 + d - 1 in
  yoe * 365 + yoe / 4 - yoe / 100 + doy.

Definition days_from_civil (y m d : Z) : Z :=
  let y' := if m <=? 2 then y - 1 else y in
  (y' / 400) * 146097 + doe_of_civil (y' mod 400) m d - 719468.

(** The wall-clock fields of [t] in its own location. *)
Definition localSeconds (t : Time) : Z := unix t + offset t.

Definition Date (t : Time) : Z * Z * Z := civil_from_days (localSeconds t / 86400).

Definition Clock (t : Time) : Z * Z * Z :=
  let s := localSeconds t mod 86400 in
  (s / 3600, (s mod 3600) / 60, s mod 60).

Definition isLeap (y : Z) : bool :=
  (y mod 4 =? 0) && (negb (y mod 100 =? 0) || (y mod 400 =? 0)).

Definition daysIn (m y : Z) : Z :=
  if m =? 2 then (if isLeap y then 29 else 28)
  else if (m =? 4) || (m =? 6) || (m =? 9) || (m =? 11) then 30 else 31.

(** A date as one number, ordered like the dates themselves. *)
Definition dateKey (c : Z * Z * Z) : Z :=
  let '(y, m, d) := c in y * 10000 + m * 100 + d.

(** [p] holds of the [n] integers from [z] on. *)
Fixpoint forall_below (n : nat) (z : Z) (p : Z -> bool) : bool :=
  match n with
  | O => true
  | S n' => p z && forall_below n' (z + 1) p
  end.

(** What is checked of every day of an era: the date is a calendar date,
    it leads back to the day, and the next day has a later date. *)
Definition era_check (doe : Z) : bool :=
  let c := civil_of_doe doe in
  let '(y, m, d) := c in
  let y' := if m <=? 2 then y - 1 else y in
  (1 <=? m) && (m <=? 12) && (1 <=? d) && (d <=? daysIn m y)
  && (0 <=? y') && (y' <? 400)
  && (doe_of_civil y' m d =? doe)
  && ((doe =? 146096) || (dateKey c <? dateKey (civil_of_doe (doe + 1)))).

(** ** Formatting with the layout [time.RFC3339]
       = "2006-01-02T15:04:05Z07:00" *)

Definition digit (n : Z) : ascii := ascii_of_N (Z.to_N (48 + n)).

(** Decimal digits of a natural number, most significant first. *)
Fixpoint digits_fuel (fuel : nat) (n : Z) (acc : string) : string :=
  match fuel with
  | O => acc
  | S fuel' =>
      let acc' := String (digit (n mod 10)) acc in
      if n <? 10 then acc' else digits_fuel fuel' (n / 10) acc'
  end.

Definition digits (n : Z) : string := digits_fuel (S (Z.to_nat (Z.log2 n))) n "".

(** [w] decimal digits of [n], zero padded ([n < 10^w]). *)
Fixpoint fixed_digits (w : nat) (n : Z) : string :=
  match w with
  | O => ""
  | S w' =>
      String (digit (n / 10 ^ Z.of_nat w')) (fixed_digits w' (n mod 10 ^ Z.of_nat w'))
  end.

(** [appendInt(b, x, width)] of package [time]: the decimal form of [x],
    zero padded to [width], with a leading minus sign for negative [x]. *)
Definition appendInt (x : Z) (width : nat) : string :=
  if x <? 0 then "-" ++ (if Z.abs x <? 10 ^ Z.of_nat width
                         then fixed_digits width (Z.abs x) else digits (Z.abs x))
  else if x <? 10 ^ Z.of_nat width then fixed_digits width x
  else digits x.

(** The zone element "Z07:00": [Z] for UTC, else sign, hours and minutes of
    the offset (the seconds of the offset are not printed). *)
Definition formatZone (off : Z) : string :=
  if off =? 0 then "Z"
  else
    let zone := Z.quot off 60 in
    let sign := if zone <? 0 then "-" else "+" in
    let zone := Z.abs zone in
    sign ++ appendInt (zone / 60) 2 ++ ":" ++ appendInt (zone mod 60) 2.

Definition Format (t : Time) : string :=
  let '(y, m, d) := Date t in
  let '(hh, mm, ss) := Clock t in
  appendInt y 4 ++ "-" ++ appendInt m 2 ++ "-" ++ appendInt d 2 ++ "T" ++
  appendInt hh 2 ++ ":" ++ appendInt mm 2 ++ ":" ++ appendInt ss 2 ++
  formatZone (offset t).

(** ** Parsing with the layout [time.RFC3339] *)

Definition bind {A B : Type} (o : option A) (k : A -> option B) : option B :=
  match o with
  | Some a => k a
  | None => None
  end.

Notation "x <-? o ;; k" := (bind o (fun x => k))
  (at level 61, o at next level, right associativity).
Notation "' p <-? o ;; k" := (bind o (fun x => let 'p := x in k))
  (at level 61, p pattern, o at next level, right associativity).

Definition digit_val (c : ascii) : option Z :=
  let n := Z.of_N (N_of_ascii c) in
  if (48 <=? n) && (n <=? 57) then Some (n - 48) else None.

(** [getnum]: exactly [w] decimal digits at the head of [s]. *)
Fixpoint getnum (w : nat) (acc : Z) (s : string) : option (Z * string) :=
  match w, s with
  | O, _ => Some (acc, s)
  | S w', String c s' => d <-? digit_val c ;; getnum w' (acc * 10 + d) s'
  | S _, EmptyString => None
  end.

Definition expect (c : ascii) (s : string) : option string :=
  match s with
  | String c' s' => if Ascii.eqb c c' then Some s' else None
  | EmptyString => None
  end.

(** The zone element: [Z] is UTC, otherwise a sign and [hh:mm]; nothing may
    follow it. *)
Definition parseZone (s : string) : option Z :=
  match s with
  | String "Z" EmptyString => Some 0
  | String sg s1 =>
      sign <-? (if Ascii.eqb sg "+" then Some 1
                else if Ascii.eqb sg "-" then Some (-1) else None) ;;
      '(hr, s2) <-? getnum 2 0 s1 ;;
      s3 <-? expect ":" s2 ;;
      '(mi, s4) <-? getnum 2 0 s3 ;;
      match s4 with
      | EmptyString =>
          if (hr <=? 24) && (mi <=? 60) then Some (sign * ((hr * 60 + mi) * 60))
          else None
      | _ => None
      end
  | EmptyString => None
  end.

(** [time.Parse(time.RFC3339, s)] on the texts [Format] writes: the fields
    are read back, range checked and turned into an instant that carries the
    offset read.  ([time.Parse] also tolerates a fractional second after the
    seconds field; no text written by [Format] with this layout has one.) *)
Definition Parse (s : string) : option Time :=
  '(y, s) <-? getnum 4 0 s ;;
  s <-? expect "-" s ;;
  '(m, s) <-? getnum 2 0 s ;;
  s <-? expect "-" s ;;
  '(d, s) <-? getnum 2 0 s ;;
  s <-? expect "T" s ;;
  '(hh, s) <-? getnum 2 0 s ;;
  s <-? expect ":" s ;;
  '(mm, s) <-? getnum 2 0 s ;;
  s <-? expect ":" s ;;
  '(ss, s) <-? getnum 2 0 s ;;
  off <-? parseZone s ;;
  if (1 <=? m) && (m <=? 12) && (1 <=? d) && (d <=? daysIn m y)
     && (hh <? 24) && (mm <? 60) && (ss <? 60)
  then Some (mkTime (days_from_civil y m d * 86400 + hh * 3600 + mm * 60 + ss - off)
                    0 off)
  else None.

(** The times the store meets in practice: a wall-clock year from 0 to
    9999 (four digits) and a zone offset of whole minutes, less than a day. *)
Definition validTimeb (t : Time) : bool :=
  (-62167219200 <=? localSeconds t) && (localSeconds t <? 253402300800)
  && (offset t mod 60 =? 0) && (-86400 <? offset t) && (offset t <? 86400).

Definition validTime (t : Time) : Prop := validTimeb t = true.

(** [t, _ = time.Parse(...)]: the error is dropped and the zero time kept. *)
Definition Parse_ (s : string) : Time :=
  match Parse s with
  | Some t => t
  | None => zeroTime
  end.

End GoTime.

(* ================================================================== *)
(** * The relational engine behind [database/sql] *)
(* ================================================================== *)

Module SQL.

Inductive result (A : Type) : Type :=
| Ok (a : A)
| Err (msg : string).
Arguments Ok {A} a.
Arguments Err {A} msg.

(** A stored value.  The store binds Go integers, strings and [nil]. *)
Inductive value : Type :=
| Null
| Integer (n : Z)
| Text (s : string).

Definition value_eqb (a b : value) : bool :=
  match a, b with
  | Null, Null => true
  | Integer n, Integer m => n =? m
  | Text s, Text t => String.eqb s t
  | _, _ => false
  end.

(** The order [ORDER BY] sorts with: NULL first, then integers by value,
    then texts byte by byte (the BINARY collation). *)
Definition value_compare (a b : value) : comparison :=
  match a, b with
  | Null, Null => Eq
  | Null, _ => Lt
  | _, Null => Gt
  | Integer n, Integer m => n ?= m
  | Integer _, Text _ => Lt
  | Text _, Integer _ => Gt
  | Text s, Text t => String.compare s t
  end.

(** A column definition of [CREATE TABLE] or [ADD COLUMN]. *)
Record column : Type := mkColumn {
  col_name : string;
  col_type : string;
  col_notnull : bool;
  col_default : value;         (* [Null] when the definition has no DEFAULT *)
  col_autoincrement : bool     (* INTEGER PRIMARY KEY AUTOINCREMENT *)
}.

Definition row : Type := list value.

(** A table: its columns, its rows in rowid order (a row holds one value
    per column, in column order) and the largest rowid handed out so far
    (what [sqlite_sequence] records for an AUTOINCREMENT table). *)
Record table : Type := mkTable {
  tbl_columns : list column;
  tbl_rows : list row;
  tbl_seq : Z
}.

Definition database : Type := list (string * table).

Fixpoint find_table (name : string) (db : database) : option table :=
  match db with
  | [] => None
  | (n, t) :: rest => if String.eqb n name then Some t else find_table name rest
  end.

Fixpoint set_table (name : string) (t : table) (db : database) : database :=
  match db with
  | [] => [(name, t)]
  | (n, t0) :: rest =>
      if String.eqb n name then (n, t) :: rest else (n, t0) :: set_table name t rest
  end.

Fixpoint col_index (name : string) (cols : list column) : option nat :=
  match cols with
  | [] => None
  | c :: rest =>
      if String.eqb (col_name c) name then Some O
      else option_map S (col_index name rest)
  end.

Definition has_column (name : string) (cols : list column) : bool :=
  match col_index name cols with Some _ => true | None => false end.

Definition get_col (cols : list column) (name : string) (r : row) : value :=
  match col_index name cols with
  | Some i => nth i r Null
  | None => Null
  end.

Fixpoint assoc (name : string) (l : list (string * value)) : option value :=
  match l with
  | [] => None
  | (n, v) :: rest => if String.eqb n name then Some v else assoc name rest
  end.

(** The row after [SET name = v, ...]. *)
Fixpoint assign_row (cols : list column) (sets : list (string * value)) (r : row) : row :=
  match cols, r with
  | c :: cols', v :: r' =>
      match assoc (col_name c) sets with
      | Some v' => v'
      | None => v
      end :: assign_row cols' sets r'
  | _, _ => r
  end.

(** NOT NULL constraints of a row. *)
Fixpoint notnull_ok (cols : list column) (r : row) : bool :=
  match cols, r with
  | c :: cols', v :: r' =>
      negb (col_notnull c && value_eqb v Null) && notnull_ok cols' r'
  | _, _ => true
  end.

(** [WHERE col = v]; no clause selects every row. *)
Definition matches (cols : list column) (wh : option (string * value)) (r : row) : bool :=
  match wh with
  | None => true
  | Some (c, v) => value_eqb (get_col cols c r) v
  end.

Definition where_ok (cols : list column) (wh : option (string * value)) : bool :=
  match wh with
  | None => true
  | Some (c, _) => has_column c cols
  end.

(** The statements the store issues, with their parameters bound. *)
Inductive stmt : Type :=
| CreateTableIfNotExists (name : string) (cols : list column)
| AlterTableAddColumn (name : string) (c : column)
| InsertInto (name : string) (cols : list string) (vals : list value)
    (* INSERT INTO name (cols) VALUES (vals) *)
| InsertIfEmpty (name : string) (cols : list string) (vals : list value)
    (* INSERT INTO name (cols) SELECT vals WHERE NOT EXISTS (SELECT 1 FROM name) *)
| UpdateSet (name : string) (sets : list (string * value)) (wh : option (string * value))
| DeleteFrom (name : string) (wh : option (string * value)).

(** [sql.Result] *)
Record execResult : Type := mkExecResult {
  LastInsertId : Z;
  RowsAffected : Z
}.

Definition maxInt64 : Z := 9223372036854775807.

(** The row an INSERT builds: the bound value of a named column, the next
    rowid for the AUTOINCREMENT key, the column default otherwise. *)
Definition new_row (cols : list column) (given : list (string * value)) (id : Z) : row :=
  map (fun c =>
         match assoc (col_name c) given with
         | Some v => v
         | None => if col_autoincrement c then Integer id else col_default c
         end) cols.

Definition insert_row (name : string) (cols : list string) (vals : list value)
    (db : database) : result (execResult * database) :=
  match find_table name db with
  | None => Err ("no such table: " ++ name)
  | Some t =>
      if negb (Nat.eqb (List.length cols) (List.length vals)) then
        Err "values for columns"
      else if negb (forallb (fun c => has_column c (tbl_columns t)) cols) then
        Err ("table " ++ name ++ " has no column named so")
      else if maxInt64 <=? tbl_seq t then Err "database or disk is full"
      else
        let id := tbl_seq t + 1 in
        let r := new_row (tbl_columns t) (combine cols vals) id in
        if notnull_ok (tbl_columns t) r then
          Ok (mkExecResult id 1,
              set_table name (mkTable (tbl_columns t) (tbl_rows t ++ [r])%list id) db)
        else Err "NOT NULL constraint failed"
  end.

Definition exec (s : stmt) (db : database) : result (execResult * database) :=
  match s with
  | CreateTableIfNotExists name cols =>
      match find_table name db with
      | Some _ => Ok (mkExecResult 0 0, db)
      | None => Ok (mkExecResult 0 0, set_table name (mkTable cols [] 0) db)
      end
  | AlterTableAddColumn name c =>
      match find_table name db with
      | None => Err ("no such table: " ++ name)
      | Some t =>
          if has_column (col_name c) (tbl_columns t) then
            Err ("duplicate column name: " ++ col_name c)
          else if col_notnull c && value_eqb (col_default c) Null then
            Err "Cannot add a NOT NULL column with default value NULL"
          else
            Ok (mkExecResult 0 0,
                set_table name
                  (mkTable (tbl_columns t ++ [c])%list
                           (map (fun r => r ++ [col_default c])%list (tbl_rows t))
                           (tbl_seq t)) db)
      end
  | InsertInto name cols vals => insert_row name cols vals db
  | InsertIfEmpty name cols vals =>
      match find_table name db with
      | None => Err ("no such table: " ++ name)
      | Some t =>
          match tbl_rows t with
          | [] => insert_row name cols vals db
          | _ :: _ => Ok (mkExecResult 0 0, db)
          end
      end
  | UpdateSet name sets wh =>
      match find_table name db with
      | None => Err ("no such table: " ++ name)
      | Some t =>
          let cols := tbl_columns t in
          if negb (forallb (fun s => has_column (fst s) cols) sets && where_ok cols wh) then
            Err "no such column"
          else
            let rows' := map (fun r => if matches cols wh r then assign_row cols sets r else r)
                             (tbl_rows t) in
            if forallb (notnull_ok cols) rows' then
              Ok (mkExecResult 0 (Z.of_nat (List.length (filter (matches cols wh) (tbl_rows t)))),
                  set_table name (mkTable cols rows' (tbl_seq t)) db)
            else Err "NOT NULL constraint failed"
      end
  | DeleteFrom name wh =>
      match find_table name db with
      | None => Err ("no such table: " ++ name)
      | Some t =>
          let cols := tbl_columns t in
          if negb (where_ok cols wh) then Err "no such column"
          else
            Ok (mkExecResult 0 (Z.of_nat (List.length (filter (matches cols wh) (tbl_rows t)))),
                set_table name
                  (mkTable cols (filter (fun r => negb (matches cols wh r)) (tbl_rows t))
                           (tbl_seq t)) db)
      end
  end.

(** ** Queries *)

Inductive direction : Type := ASC | DESC.

(** Comparison of two rows under [ORDER BY k1 d1, k2 d2, ...]. *)
Fixpoint order_compare (cols : list column) (keys : list (string * direction))
    (a b : row) : comparison :=
  match keys with
  | [] => Eq
  | (k, d) :: keys' =>
      let c := value_compare (get_col cols k a) (get_col cols k b) in
      match (match d with ASC => c | DESC => CompOpp c end) with
      | Eq => order_compare cols keys' a b
      | r => r
      end
  end.

(** The sorter keeps rows that compare equal in rowid order. *)
Fixpoint insert_by (cmp : row -> row -> comparison) (x : row) (l : list row) : list row :=
  match l with
  | [] => [x]
  | y :: l' =>
      match cmp x y with
      | Gt => y :: insert_by cmp x l'
      | _ => x :: l
      end
  end.

Definition sort_by (cmp : row -> row -> comparison) (l : list row) : list row :=
  fold_right (insert_by cmp) [] l.

(** [SELECT cols FROM name ORDER BY keys] *)
Definition select (cols : list string) (name : string) (keys : list (string * direction))
    (db : database) : result (list row) :=
  match find_table name db with
  | None => Err ("no such table: " ++ name)
  | Some t =>
      let tc := tbl_columns t in
      if forallb (fun c => has_column c tc) cols
         && forallb (fun k => has_column (fst k) tc) keys
      then Ok (map (fun r => map (fun c => get_col tc c r) cols)
                   (sort_by (order_compare tc keys) (tbl_rows t)))
      else Err "no such column"
  end.

(** ** The handle [*sql.DB]

    The database file, and what the driver will meet on its coming calls:
    the head of [faults] tells whether the next call fails (I/O error, disk
    full, file locked); an exhausted list means no further failure. *)
Record DB : Type := mkDB {
  file : database;
  faults : list bool
}.

Definition next_fault (db : DB) : bool * DB :=
  match faults db with
  | [] => (false, db)
  | f :: rest => (f, mkDB (file db) rest)
  end.

Definition driver_error : string := "driver: bad connection".

(** [db.Exec] of one statement: it takes effect entirely or not at all. *)
Definition db_Exec (s : stmt) (db : DB) : result execResult * DB :=
  let '(failed, db) := next_fault db in
  if failed then (Err driver_error, db)
  else match exec s (file db) with
       | Ok (res, f) => (Ok res, mkDB f (faults db))
       | Err e => (Err e, db)
       end.

(** [db.Exec] of a script: the statements run in order, each on its own;
    the first failure stops the script and keeps what ran before. *)
Fixpoint db_ExecScript (script : list stmt) (db : DB) : result execResult * DB :=
  match script with
  | [] => (Ok (mkExecResult 0 0), db)
  | [s] => db_Exec s db
  | s :: rest =>
      match db_Exec s db with
      | (Ok _, db) => db_ExecScript rest db
      | (Err e, db) => (Err e, db)
      end
  end.

(** [db.Query] *)
Definition db_Query (cols : list string) (name : string)
    (keys : list (string * direction)) (db : DB) : result (list row) * DB :=
  let '(failed, db) := next_fault db in
  if failed then (Err driver_error, db)
  else (select cols name keys (file db), db).

(** A transaction [*sql.Tx]: the working copy its statements act on. *)
Definition Tx : Type := database.

Definition db_Begin (db : DB) : result Tx * DB :=
  let '(failed, db) := next_fault db in
  if failed then (Err driver_error, db) else (Ok (file db), db).

Definition tx_Exec (s : stmt) (tx : Tx) (db : DB) : result execResult * Tx * DB :=
  let '(failed, db) := next_fault db in
  if failed then (Err driver_error, tx, db)
  else match exec s tx with
       | Ok (res, tx') => (Ok res, tx', db)
       | Err e => (Err e, tx, db)
       end.

(** [tx.Commit]: the working copy becomes the file, or the file stays. *)
Definition tx_Commit (tx : Tx) (db : DB) : option string * DB :=
  let '(failed, db) := next_fault db in
  if failed then (Some driver_error, db) else (None, mkDB tx (faults db)).

(** [tx.Rollback]: the working copy is dropped. *)
Definition tx_Rollback (tx : Tx) (db : DB) : DB := db.

(** ** [rows.Scan]

    The conversions of [database/sql] into the destinations the store
    uses.  An integer column never holds a text that reads as a number
    (SQLite stores such a text as an integer), so a text scanned into an
    [int] is a conversion error. *)

(** Into an [int] or [int64]. *)
Definition scan_int (v : value) : result Z :=
  match v with
  | Integer n => Ok n
  | Null => Err "converting NULL to int is unsupported"
  | Text _ => Err "converting driver.Value type string to a int: invalid syntax"
  end.

(** Into a [string]; an integer comes as its decimal text. *)
Definition scan_string (v : value) : result string :=
  match v with
  | Text s => Ok s
  | Integer n => Ok (GoTime.appendInt n 0)
  | Null => Err "converting NULL to string is unsupported"
  end.

(** Into a [sql.NullString]: [None] is [Valid = false]. *)
Definition scan_NullString (v : value) : result (option string) :=
  match v with
  | Null => Ok None
  | Text s => Ok (Some s)
  | Integer n => Ok (Some (GoTime.appendInt n 0))
  end.

(** ** Orderings

    The laws of a three-way comparison that orders its arguments. *)
Record ordering {A : Type} (cmp : A -> A -> comparison) : Prop := {
  cmp_antisym : forall a b, cmp a b = CompOpp (cmp b a);
  cmp_eq_l : forall a b c, cmp a b = Eq -> cmp a c = cmp b c;
  cmp_lt_trans : forall a b c, cmp a b = Lt -> cmp b c = Lt -> cmp a c = Lt
}.

End SQL.

(* ================================================================== *)
(** * Package [todo]: the domain model and the service *)
(* ================================================================== *)

Module Todo.
Import GoTime.

(** [type Priority int] *)
Definition PriorityLevel : Type := Z.

Definition PriorityLow : PriorityLevel := 1.
Definition PriorityMedium : PriorityLevel := 2.
Definition PriorityHigh : PriorityLevel := 3.

Definition Priority_String (p : PriorityLevel) : string :=
  if p =? PriorityHigh then "High"
  else if p =? PriorityMedium then "Medium"
  else "Low".

(** Modelled from the spec: the field [ClosedAt] ("closedAt: optional
    timestamp"), which the store reads and writes as a [*time.Time] but
    which the declaration of [Task] at hand does not list; the other fields
    are those of the declaration.  [None] is the nil pointer. *)
Record Task : Type := mkTask {
  ID : Z;
  Title : string;
  Description : string;
  Done : bool;
  Priority : PriorityLevel;
  CreatedAt : Time;
  UpdatedAt : Time;
  ClosedAt : option Time
}.

Definition set_ID (t : Task) (v : Z) : Task :=
  mkTask v (Title t) (Description t) (Done t) (Priority t) (CreatedAt t) (UpdatedAt t) (ClosedAt t).
Definition set_Title (t : Task) (v : string) : Task :=
  mkTask (ID t) v (Description t) (Done t) (Priority t) (CreatedAt t) (UpdatedAt t) (ClosedAt t).
Definition set_Description (t : Task) (v : string) : Task :=
  mkTask (ID t) (Title t) v (Done t) (Priority t) (CreatedAt t) (UpdatedAt t) (ClosedAt t).
Definition set_Done (t : Task) (v : bool) : Task :=
  mkTask (ID t) (Title t) (Description t) v (Priority t) (CreatedAt t) (UpdatedAt t) (ClosedAt t).
Definition set_Priority (t : Task) (v : PriorityLevel) : Task :=
  mkTask (ID t) (Title t) (Description t) (Done t) v (CreatedAt t) (UpdatedAt t) (ClosedAt t).
Definition set_CreatedAt (t : Task) (v : Time) : Task :=
  mkTask (ID t) (Title t) (Description t) (Done t) (Priority t) v (UpdatedAt t) (ClosedAt t).
Definition set_UpdatedAt (t : Task) (v : Time) : Task :=
  mkTask (ID t) (Title t) (Description t) (Done t) (Priority t) (CreatedAt t) v (ClosedAt t).
Definition set_ClosedAt (t : Task) (v : option Time) : Task :=
  mkTask (ID t) (Title t) (Description t) (Done t) (Priority t) (CreatedAt t) (UpdatedAt t) v.

(** A Go [error]; [None] is [nil]. *)
Definition error : Type := option string.
Definition nil : error := None.

(** The process as the service sees it: the state behind the repository,
    and the wall clock, whose [n]-th reading is [clock n]; [ticks] counts
    the readings taken so far. *)
Record World (R : Type) : Type := mkWorld {
  backend : R;
  clock : nat -> Time;
  ticks : nat
}.
Arguments mkWorld {R} _ _ _.
Arguments backend {R} _.
Arguments clock {R} _ _.
Arguments ticks {R} _.

Definition M (R A : Type) : Type := World R -> A * World R.

Definition ret {R A : Type} (a : A) : M R A := fun w => (a, w).

Definition bind {R A B : Type} (m : M R A) (k : A -> M R B) : M R B :=
  fun w => let '(a, w') := m w in k a w'.

Declare Scope go_scope.
Delimit Scope go_scope with go.
Notation "x <- m ;; k" := (bind m (fun x => k))
  (at level 61, m at next level, right associativity) : go_scope.
Notation "' p <- m ;; k" := (bind m (fun x => let 'p := x in k))
  (at level 61, p pattern, m at next level, right associativity) : go_scope.
Local Open Scope go_scope.

(** [time.Now()] *)
Definition time_Now {R : Type} : M R Time :=
  fun w => (clock w (ticks w), mkWorld (backend w) (clock w) (S (ticks w))).

(** [type Repository interface]: a method gets the task object and hands
    it back as the call left it. *)
Class Repository (R : Type) : Type := {
  repo_Create : Task -> M R (Task * error);
  repo_List : M R (list Task * error);
  repo_Update : Task -> M R (Task * error);
  repo_Delete : Z -> M R error;
  repo_Close : M R error
}.

End Todo.

(** [type Service struct { repo Repository }] *)
Module Service.
Import GoTime Todo.
Local Open Scope go_scope.

Section WithRepository.
Context {R : Type} `{Repository R}.

Definition Add (title description : string) (priority : PriorityLevel)
  : M R (option Task * error) :=
  now <- time_Now ;;
  let t := mkTask 0 title description false priority now now None in
  '(t, err) <- repo_Create t ;;
  match err with
  | Some e => ret (None, Some e)
  | None => ret (Some t, nil)
  end.

Definition All : M R (list Task * error) := repo_List.

Definition Toggle (t : Task) : M R (Task * error) :=
  let t := set_Done t (negb (Done t)) in
  now <- time_Now ;;
  let t := set_UpdatedAt t now in
  repo_Update t.

Definition Edit (t : Task) (title description : string) (priority : PriorityLevel)
  : M R (Task * error) :=
  let t := set_Title t title in
  let t := set_Description t description in
  let t := set_Priority t priority in
  now <- time_Now ;;
  let t := set_UpdatedAt t now in
  repo_Update t.

Definition Delete (id : Z) : M R error := repo_Delete id.

Definition Close : M R error := repo_Close.

End WithRepository.
End Service.

(* ================================================================== *)
(** * Package [store]: the SQLite repository *)
(* ================================================================== *)

Module SQLiteStore.
Import GoTime SQL Todo.
Local Open Scope go_scope.

(** [const initialSchema] *)
Definition tasks_columns : list column :=
  [ mkColumn "id" "INTEGER" false Null true;
    mkColumn "title" "TEXT" true Null false;
    mkColumn "description" "TEXT" true (Text "") false;
    mkColumn "done" "INTEGER" true (Integer 0) false;
    mkColumn "priority" "INTEGER" true (Integer 1) false;
    mkColumn "created_at" "TEXT" true Null false;
    mkColumn "updated_at" "TEXT" true Null false ].

Definition initialSchema : list stmt :=
  [ CreateTableIfNotExists "tasks" tasks_columns;
    CreateTableIfNotExists "schema_version" [ mkColumn "version" "INTEGER" true Null false ];
    InsertIfEmpty "schema_version" ["version"] [Integer 0] ].

(** [var migrations] *)
Definition migrations : list stmt :=
  [ AlterTableAddColumn "tasks" (mkColumn "closed_at" "TEXT" false Null false) ].

(** What a call that may panic comes to. *)
Inductive outcome : Type :=
| Success
| Failure (msg : string)
| Panic (msg : string).

Definition itoa (n : Z) : string := appendInt n 0.

(** The loop of [migrate]: [n] iterations are left ([i < len(migrations)]
    holds [n] more times), [i] is the loop variable. *)
Fixpoint migrate_loop (migrations : list stmt) (n : nat) (i : Z) (db : DB)
  : outcome * DB :=
  match n with
  | O => (Success, db)
  | S n' =>
      match db_Begin db with
      | (Err e, db) => (Failure ("begin migration " ++ itoa (i + 1) ++ ": " ++ e), db)
      | (Ok tx, db) =>
          if i <? 0 then (Panic "index out of range", db)
          else
            match nth_error migrations (Z.to_nat i) with
            | None => (Panic "index out of range", db)
            | Some m =>
                match tx_Exec m tx db with
                | (Err e, tx, db) =>
                    let db := tx_Rollback tx db in
                    (Failure ("run migration " ++ itoa (i + 1) ++ ": " ++ e), db)
                | (Ok _, tx, db) =>
                    match tx_Exec (UpdateSet "schema_version" [("version", Integer (i + 1))] None)
                                  tx db with
                    | (Err e, tx, db) =>
                        let db := tx_Rollback tx db in
                        (Failure ("update schema version: " ++ e), db)
                    | (Ok _, tx, db) =>
                        match tx_Commit tx db with
                        | (Some e, db) =>
                            (Failure ("commit migration " ++ itoa (i + 1) ++ ": " ++ e), db)
                        | (None, db) => migrate_loop migrations n' (i + 1) db
                        end
                    end
                end
            end
      end
  end.

(** [db.QueryRow(`SELECT version FROM schema_version LIMIT 1`).Scan(&version)] *)
Definition read_version (db : DB) : result Z * DB :=
  match db_Query ["version"] "schema_version" [] db with
  | (Err e, db) => (Err e, db)
  | (Ok [], db) => (Err "sql: no rows in result set", db)
  | (Ok (r :: _), db) => (scan_int (nth 0 r Null), db)
  end.

(** [migrate], for a list of migrations. *)
Definition migrate_with (migrations : list stmt) (db : DB) : outcome * DB :=
  match read_version db with
  | (Err e, db) => (Failure ("read schema version: " ++ e), db)
  | (Ok version, db) =>
      migrate_loop migrations
        (Z.to_nat (Z.of_nat (List.length migrations) - version)) version db
  end.

Definition migrate (db : DB) : outcome * DB := migrate_with migrations db.

(** [New], for a list of migrations: the handle is opened on the file,
    the initial schema run and the pending migrations applied. *)
Definition New_with (migrations : list stmt) (db : DB) : outcome * DB :=
  match db_ExecScript initialSchema db with
  | (Err e, db) => (Failure ("init schema: " ++ e), db)
  | (Ok _, db) =>
      match migrate_with migrations db with
      | (Failure e, db) => (Failure ("migrate: " ++ e), db)
      | r => r
      end
  end.

Definition New (db : DB) : outcome * DB := New_with migrations db.

Definition boolToInt (b : bool) : Z := if b then 1 else 0.

(** The store works on the handle inside the world. *)
Definition on_db {A : Type} (f : DB -> A * DB) : M DB A :=
  fun w => let '(a, db) := f (backend w) in (a, mkWorld db (clock w) (ticks w)).

Definition Create (t : Task) : M DB (Task * error) :=
  r <- on_db (db_Exec
         (InsertInto "tasks"
            ["title"; "description"; "done"; "priority"; "created_at"; "updated_at"; "closed_at"]
            [Text (Title t); Text (Description t); Integer (boolToInt (Done t));
             Integer (Priority t); Text (Format (CreatedAt t)); Text (Format (UpdatedAt t));
             Null])) ;;
  match r with
  | Err e => ret (t, Some e)
  | Ok res => ret (set_ID t (LastInsertId res), nil)
  end.

(** One turn of the [rows.Next()] loop: [rows.Scan] and the conversions. *)
Definition scan_task (r : row) : result Task :=
  match r with
  | [v_id; v_title; v_description; v_done; v_priority; v_created; v_updated; v_closed] =>
      match scan_int v_id, scan_string v_title, scan_string v_description,
            scan_int v_done, scan_int v_priority,
            scan_string v_created, scan_string v_updated, scan_NullString v_closed with
      | Ok id, Ok title, Ok description, Ok done, Ok priority,
        Ok createdAt, Ok updatedAt, Ok closedAt =>
          Ok (mkTask id title description (negb (done =? 0)) priority
                (Parse_ createdAt) (Parse_ updatedAt)
                (match closedAt with
                 | Some s => Parse s
                 | None => None
                 end))
      | Err e, _, _, _, _, _, _, _ => Err e
      | _, Err e, _, _, _, _, _, _ => Err e
      | _, _, Err e, _, _, _, _, _ => Err e
      | _, _, _, Err e, _, _, _, _ => Err e
      | _, _, _, _, Err e, _, _, _ => Err e
      | _, _, _, _, _, Err e, _, _ => Err e
      | _, _, _, _, _, _, Err e, _ => Err e
      | _, _, _, _, _, _, _, Err e => Err e
      end
  | _ => Err "sql: expected 8 destination arguments in Scan"
  end.

Fixpoint scan_tasks (rows : list row) (tasks : list Task) : list Task * error :=
  match rows with
  | [] => (tasks, nil)
  | r :: rows' =>
      match scan_task r with
      | Err e => ([], Some e)
      | Ok t => scan_tasks rows' (tasks ++ [t])%list
      end
  end.

Definition List : M DB (list Task * error) :=
  r <- on_db (db_Query
         ["id"; "title"; "description"; "done"; "priority"; "created_at"; "updated_at"; "closed_at"]
         "tasks" [("done", ASC); ("priority", DESC); ("created_at", ASC)]) ;;
  match r with
  | Err e => ret ([], Some e)
  | Ok rows => ret (scan_tasks rows [])
  end.

Definition Update (t : Task) : M DB (Task * error) :=
  now <- time_Now ;;
  let '(t, closedAt) :=
    if Done t then
      (* If marking done and not already closed, set timestamp *)
      let t := match ClosedAt t with
               | None => set_ClosedAt t (Some now)
               | Some _ => t
               end in
      (t, match ClosedAt t with
          | Some ts => Text (Format ts)
          | None => Null
          end)
    else
      (* If marking undone, clear closed_at *)
      (set_ClosedAt t None, Null) in
  r <- on_db (db_Exec
         (UpdateSet "tasks"
            [("title", Text (Title t)); ("description", Text (Description t));
             ("done", Integer (boolToInt (Done t))); ("priority", Integer (Priority t));
             ("updated_at", Text (Format (UpdatedAt t))); ("closed_at", closedAt)]
            (Some ("id", Integer (ID t))))) ;;
  match r with
  | Err e => ret (t, Some e)
  | Ok _ => ret (t, nil)
  end.

Definition Delete (id : Z) : M DB error :=
  r <- on_db (db_Exec (DeleteFrom "tasks" (Some ("id", Integer id)))) ;;
  match r with
  | Err e => ret (Some e)
  | Ok _ => ret nil
  end.

(** [db.Close()]: nothing of the file changes.  (That the handle refuses
    later calls is not part of the model.) *)
Definition Close : M DB error := ret nil.

#[export] Instance SQLiteStore_Repository : Repository DB := {
  repo_Create := Create;
  repo_List := List;
  repo_Update := Update;
  repo_Delete := Delete;
  repo_Close := Close
}.

End SQLiteStore.

(* ================================================================== *)
(** * Package [store] of the release before the migrations *)
(* ================================================================== *)

Module LegacyStore.
Import GoTime SQL Todo.
Local Open Scope go_scope.

(** [const schema]: the tasks table, and nothing else. *)
Definition schema : stmt :=
  CreateTableIfNotExists "tasks"
    [ mkColumn "id" "INTEGER" false Null true;
      mkColumn "title" "TEXT" true Null false;
      mkColumn "description" "TEXT" true (Text "") false;
      mkColumn "done" "INTEGER" true (Integer 0) false;
      mkColumn "priority" "INTEGER" true (Integer 1) false;
      mkColumn "created_at" "TEXT" true Null false;
      mkColumn "updated_at" "TEXT" true Null false ].

(** [New]: the handle is opened on the file and the schema run. *)
Definition New (db : DB) : SQLiteStore.outcome * DB :=
  match db_Exec schema db with
  | (Err e, db) => (SQLiteStore.Failure ("migrate: " ++ e), db)
  | (Ok _, db) => (SQLiteStore.Success, db)
  end.

Definition boolToInt (b : bool) : Z := if b then 1 else 0.

Definition Create (t : Task) : M DB (Task * error) :=
  r <- SQLiteStore.on_db (db_Exec
         (InsertInto "tasks"
            ["title"; "description"; "done"; "priority"; "created_at"; "updated_at"]
            [Text (Title t); Text (Description t); Integer (boolToInt (Done t));
             Integer (Priority t); Text (Format (CreatedAt t)); Text (Format (UpdatedAt t))])) ;;
  match r with
  | Err e => ret (t, Some e)
  | Ok res => ret (set_ID t (LastInsertId res), nil)
  end.

(** One turn of the [rows.Next()] loop; the task object starts as
    [&todo.Task{}] and the seven columns are scanned into it. *)
Definition scan_task (r : row) : result Task :=
  match r with
  | [v_id; v_title; v_description; v_done; v_priority; v_created; v_updated] =>
      match scan_int v_id, scan_string v_title, scan_string v_description,
            scan_int v_done, scan_int v_priority,
            scan_string v_created, scan_string v_updated with
      | Ok id, Ok title, Ok description, Ok done, Ok priority, Ok createdAt, Ok updatedAt =>
          Ok (mkTask id title description (negb (done =? 0)) priority
                (Parse_ createdAt) (Parse_ updatedAt) None)
      | Err e, _, _, _, _, _, _ => Err e
      | _, Err e, _, _, _, _, _ => Err e
      | _, _, Err e, _, _, _, _ => Err e
      | _, _, _, Err e, _, _, _ => Err e
      | _, _, _, _, Err e, _, _ => Err e
      | _, _, _, _, _, Err e, _ => Err e
      | _, _, _, _, _, _, Err e => Err e
      end
  | _ => Err "sql: expected 7 destination arguments in Scan"
  end.

Fixpoint scan_tasks (rows : list row) (tasks : list Task) : list Task * error :=
  match rows with
  | [] => (tasks, nil)
  | r :: rows' =>
      match scan_task r with
      | Err e => ([], Some e)
      | Ok t => scan_tasks rows' (tasks ++ [t])%list
      end
  end.

Definition List : M DB (list Task * error) :=
  r <- SQLiteStore.on_db (db_Query
         ["id"; "title"; "description"; "done"; "priority"; "created_at"; "updated_at"]
         "tasks" [("done", ASC); ("priority", DESC); ("created_at", ASC)]) ;;
  match r with
  | Err e => ret ([], Some e)
  | Ok rows => ret (scan_tasks rows [])
  end.

Definition Update (t : Task) : M DB (Task * error) :=
  r <- SQLiteStore.on_db (db_Exec
         (UpdateSet "tasks"
            [("title", Text (Title t)); ("description", Text (Description t));
             ("done", Integer (boolToInt (Done t))); ("priority", Integer (Priority t));
             ("updated_at", Text (Format (UpdatedAt t)))]
            (Some ("id", Integer (ID t))))) ;;
  match r with
  | Err e => ret (t, Some e)
  | Ok _ => ret (t, nil)
  end.

Definition Delete (id : Z) : M DB error :=
  r <- SQLiteStore.on_db (db_Exec (DeleteFrom "tasks" (Some ("id", Integer id)))) ;;
  match r with
  | Err e => ret (Some e)
  | Ok _ => ret nil
  end.

Definition Close : M DB error := ret nil.

(** The second implementation of [todo.Repository], on the same handle
    type; it is named where it is meant. *)
Definition LegacyStore_Repository : Repository DB := {|
  repo_Create := Create;
  repo_List := List;
  repo_Update := Update;
  repo_Delete := Delete;
  repo_Close := Close
|}.

End LegacyStore.

(* ================================================================== *)
(** * [cmd/desktop]: the handler of the task form *)
(* ================================================================== *)

Module Desktop.
Import GoTime Todo.
Local Open Scope go_scope.

Definition parsePriority (sel : string) : PriorityLevel :=
  if String.eqb sel "High" then PriorityHigh
  else if String.eqb sel "Medium" then PriorityMedium
  else PriorityLow.

Section WithRepository.
Context {R : Type} `{Repository R}.

(** The callback of [showTaskForm] once "Save" is pressed: [existing] is
    the task being edited ([None] for a new one), the strings are the
    contents of the three widgets.  The result is the error put in a dialog,
    if any; a successful save ends with [s.refresh()], which lists the
    tasks again. *)
Definition saveTaskForm (existing : option Task) (titleText descText selected : string)
  : M R (option string) :=
  if String.eqb titleText "" then ret (Some "title cannot be empty")
  else
    let pri := parsePriority selected in
    err <- match existing with
           | None => '(_, err) <- Service.Add titleText descText pri ;; ret err
           | Some t => '(_, err) <- Service.Edit t titleText descText pri ;; ret err
           end ;;
    match err with
    | Some e => ret (Some e)
    | None => '(_, err) <- Service.All ;; ret err
    end.

End WithRepository.
End Desktop.

(* ================================================================== *)
(** * [cmd/desktop]: the window and its actions *)
(* ================================================================== *)

Module Window.
Import GoTime Todo.
Local Open Scope go_scope.

(** [fmt.Sprintf("%d", n)] *)
Definition Sprintf_d (n : Z) : string :=
  if n <? 0 then "-" ++ digits (- n) else digits n.

(** [type appState struct]: the task objects of the last listing that the
    list widget shows, the filter in force and the text of the footer. (The
    service sits in the world; the widgets themselves are not modelled.) *)
Record appState : Type := mkAppState {
  tasks : list Task;
  filter : string;
  statsLabel : string
}.

(** The body of the first loop of [refresh]: the [switch] on the filter. *)
Definition keep_step (flt : string) (filtered : list Task) (t : Task) : list Task :=
  if String.eqb flt "active" then
    if negb (Done t) then (filtered ++ [t])%list else filtered
  else if String.eqb flt "done" then
    if Done t then (filtered ++ [t])%list else filtered
  else (filtered ++ [t])%list.

(** The body of the second loop. *)
Definition count_step (done : Z) (t : Task) : Z :=
  if Done t then done + 1 else done.

Section WithRepository.
Context {R : Type} `{Repository R}.

(** [refresh]: the result is the new window state and the error put in a
    dialog, if any. *)
Definition refresh (s : appState) : M R (appState * option string) :=
  '(all, err) <- Service.All ;;
  match err with
  | Some e => ret (s, Some e)
  | None =>
      let filtered := fold_left (keep_step (filter s)) all [] in
      let total := Z.of_nat (List.length all) in
      let done := fold_left count_step all 0 in
      ret (mkAppState filtered (filter s)
             (Sprintf_d done ++ " / " ++ Sprintf_d total ++ " completed"),
           None)
  end.

(** [toggleTask]; the task object comes back as the call left it. *)
Definition toggleTask (s : appState) (t : Task) : M R (appState * Task * option string) :=
  '(t, err) <- Service.Toggle t ;;
  match err with
  | Some e => ret (s, t, Some e)
  | None => '(s, shown) <- refresh s ;; ret (s, t, shown)
  end.

(** The callback of [confirmDelete], called with the answer given. *)
Definition confirmDelete (s : appState) (t : Task) (ok : bool) : M R (appState * option string) :=
  if ok then
    err <- Service.Delete (ID t) ;;
    match err with
    | Some e => ret (s, Some e)
    | None => refresh s
    end
  else ret (s, None).

End WithRepository.
End Window.

(* ================================================================== *)
(** * [cmd/web]: the placeholder page *)
(* ================================================================== *)

Module Web.
Import GoTime Todo.
Local Open Scope go_scope.

Section WithRepository.
Context {R : Type} `{Repository R}.

(** The handler of ["/"]: the body written to the response.  The error of
    [svc.All] is dropped. *)
Definition handler : M R string :=
  '(tasks, _) <- Service.All ;;
  ret ("TodoApp web UI — " ++ Window.Sprintf_d (Z.of_nat (List.length tasks))
       ++ " tasks (implement me!)" ++ String "010" "").

End WithRepository.
End Web.

(* ================================================================== *)
(** * Vocabulary of the properties *)
(* ================================================================== *)

Module Props.
Import GoTime SQL Todo SQLiteStore.

(** The tasks table once the migrations have run. *)
Definition closed_at_column : column := mkColumn "closed_at" "TEXT" false Null false.
Definition migrated_columns : list column := (tasks_columns ++ [closed_at_column])%list.

(** A timestamp text as the store writes it. *)
Definition wf_text (s : string) : bool :=
  match Parse s with
  | Some t => validTimeb t && String.eqb (Format t) s
  | None => false
  end.

(** A row as the store writes it. *)
Definition wf_row (r : row) : bool :=
  match r with
  | [Integer _; Text _; Text _; Integer d; Integer _; Text c; Text u; cl] =>
      ((d =? 0) || (d =? 1)) && wf_text c && wf_text u &&
      match cl with
      | Null => true
      | Text s => wf_text s
      | Integer _ => false
      end
  | _ => false
  end.

(** The state [Ready]: the migrated schema, holding rows the store wrote. *)
Definition ready (f : database) : Prop :=
  exists rows seq,
    find_table "tasks" f = Some (mkTable migrated_columns rows seq) /\
    forallb wf_row rows = true.

(** The rows and the rowid high-water mark of the tasks table. *)
Definition tasks_rows (f : database) : list row :=
  match find_table "tasks" f with
  | Some t => tbl_rows t
  | None => []
  end.

Definition tasks_seq (f : database) : Z :=
  match find_table "tasks" f with
  | Some t => tbl_seq t
  | None => 0
  end.

(** The row [Create] inserts for a task, under the rowid [id]. *)
Definition created_row (t : Task) (id : Z) : row :=
  [Integer id; Text (Title t); Text (Description t); Integer (boolToInt (Done t));
   Integer (Priority t); Text (Format (CreatedAt t)); Text (Format (UpdatedAt t)); Null].

(** The row [Update] leaves where it finds the task's id. *)
Definition updated_row (t : Task) (r : row) : row :=
  match r with
  | [id; _; _; _; _; created; _; _] =>
      [id; Text (Title t); Text (Description t); Integer (boolToInt (Done t));
       Integer (Priority t); created; Text (Format (UpdatedAt t));
       match ClosedAt t with
       | Some ts => Text (Format ts)
       | None => Null
       end]
  | _ => r
  end.

(** The task object as [Update] leaves it when the clock reads [now]. *)
Definition stamped (now : Time) (t : Task) : Task :=
  if Done t then
    match ClosedAt t with
    | None => set_ClosedAt t (Some now)
    | Some _ => t
    end
  else set_ClosedAt t None.

(** [WHERE id = ?] on a row of the tasks table. *)
Definition has_id (id : Z) (r : row) : bool :=
  match r with
  | Integer i :: _ => i =? id
  | _ => false
  end.

(** The order of the listing query, on rows. *)
Definition list_order : row -> row -> comparison :=
  order_compare migrated_columns [("done", ASC); ("priority", DESC); ("created_at", ASC)].

(** What [SELECT version FROM schema_version LIMIT 1] reads. *)
Definition stored_version (f : database) : option Z :=
  match select ["version"] "schema_version" [] f with
  | Ok (r :: _) =>
      match scan_int (nth 0 r Null) with
      | Ok v => Some v
      | Err _ => None
      end
  | _ => None
  end.

(** No call of the driver fails. *)
Definition no_faults (db : DB) : Prop := forallb negb (faults db) = true.

(** One migration step carried out in full: the statement, then the
    advance of the stored version to [i + 1]. *)
Definition step_tx (i : Z) (m : stmt) (f : database) : result database :=
  match exec m f with
  | Err e => Err e
  | Ok (_, f1) =>
      match exec (UpdateSet "schema_version" [("version", Integer (i + 1))] None) f1 with
      | Err e => Err e
      | Ok (_, f2) => Ok f2
      end
  end.

(** Steps carried out in full one after the other, the first one being
    step [i] (0-based). *)
Fixpoint steps_tx (i : Z) (ms : list stmt) (f : database) : result database :=
  match ms with
  | [] => Ok f
  | m :: rest =>
      match step_tx i m f with
      | Err e => Err e
      | Ok f' => steps_tx (i + 1) rest f'
      end
  end.

(** A script run on a file, statement after statement. *)
Fixpoint run_script (script : list stmt) (f : database) : result database :=
  match script with
  | [] => Ok f
  | s :: rest =>
      match exec s f with
      | Err e => Err e
      | Ok (_, f') => run_script rest f'
      end
  end.

(** The state [SchemaBootstrapped] reached from a file. *)
Definition bootstrap (f : database) : result database := run_script initialSchema f.

(** The table a statement works on. *)
Definition stmt_table (s : stmt) : string :=
  match s with
  | CreateTableIfNotExists n _ | AlterTableAddColumn n _ | InsertInto n _ _
  | InsertIfEmpty n _ _ | UpdateSet n _ _ | DeleteFrom n _ => n
  end.

(** The task a row is listed as. *)
Definition task_of_row (r : row) : Task :=
  match scan_task r with
  | Ok t => t
  | Err _ => mkTask 0 "" "" false 0 zeroTime zeroTime None
  end.

(** The value [Update] binds to [closed_at]. *)
Definition closed_value (c : option Time) : value :=
  match c with
  | Some ts => Text (Format ts)
  | None => Null
  end.

(** The values [Update] binds to the columns it sets. *)
Definition update_sets (t : Task) : list (string * value) :=
  [("title", Text (Title t)); ("description", Text (Description t));
   ("done", Integer (boolToInt (Done t))); ("priority", Integer (Priority t));
   ("updated_at", Text (Format (UpdatedAt t))); ("closed_at", closed_value (ClosedAt t))].

(** A task as [List] gives it back: timestamps to the second. *)
Definition listed (t : Task) : Task :=
  mkTask (ID t) (Title t) (Description t) (Done t) (Priority t)
    (truncSecond (CreatedAt t)) (truncSecond (UpdatedAt t))
    (option_map truncSecond (ClosedAt t)).

(** The order of two creation times in a listing: by their texts, which
    for two times of one zone puts the earlier second first. *)
Definition created_before (a b : Time) : Prop :=
  (Format a ?= Format b)%string <> Gt /\
  (offset a = offset b -> unix a <= unix b).

(** The order of a listing, as the query states it: open tasks first,
    then the higher priority, then the earlier creation text. *)
Definition precedes (a b : Task) : Prop :=
  (Done a = false /\ Done b = true) \/
  (Done a = Done b /\
   (Priority b < Priority a \/
    (Priority a = Priority b /\ created_before (CreatedAt a) (CreatedAt b)))).

(** The order with the creation times compared as instants: the later one
    does not come first. *)
Definition precedes_chronological (a b : Task) : Prop :=
  (Done a = false /\ Done b = true) \/
  (Done a = Done b /\
   (Priority b < Priority a \/
    (Priority a = Priority b /\ Before (CreatedAt b) (CreatedAt a) = false))).

(** ** Sessions

    A front end at work: the world, and the task objects it holds, all of
    them handed to it by the service. *)
Definition session : Type := World DB * list Task.

(** The calls of a front end; it toggles and edits task objects it holds. *)
Inductive step : session -> session -> Prop :=
| step_Add (title description : string) (priority : PriorityLevel) w held :
    step (w, held)
         (snd (Service.Add title description priority w),
          match fst (fst (Service.Add title description priority w)) with
          | Some t => t :: held
          | None => held
          end)
| step_All w held :
    step (w, held) (snd (Service.All w), (fst (fst (Service.All w)) ++ held)%list)
| step_Toggle t w held :
    In t held ->
    step (w, held) (snd (Service.Toggle t w), fst (fst (Service.Toggle t w)) :: held)
| step_Edit t (title description : string) (priority : PriorityLevel) w held :
    In t held ->
    step (w, held)
         (snd (Service.Edit t title description priority w),
          fst (fst (Service.Edit t title description priority w)) :: held)
| step_Delete (id : Z) w held :
    step (w, held) (snd (Service.Delete id w), held).

(** The sessions that start by opening a fresh file, whatever the driver
    will meet later on, under the clock [clk]. *)
Inductive reachable (clk : nat -> Time) : session -> Prop :=
| reach_open db0 db :
    file db0 = [] -> New db0 = (Success, db) -> reachable clk (mkWorld db clk 0, [])
| reach_step s s' : reachable clk s -> step s s' -> reachable clk s'.

(** A [closedAt] that is a valid time, if any. *)
Definition closed_valid (t : Task) : Prop :=
  forall c, ClosedAt t = Some c -> validTime c.

(** What holds of a session throughout, under the clock [clk]. *)
Definition session_ok (clk : nat -> Time) (s : session) : Prop :=
  ready (file (backend (fst s))) /\ clock (fst s) = clk /\ Forall closed_valid (snd s).

(** ** Runs used as examples *)

(** A file that does not exist yet, and a driver that works. *)
Definition fresh : DB := mkDB [] [].

(** A database file left by the release before the [closed_at] migration,
    holding one completed task. *)
Definition legacy : DB :=
  mkDB [("tasks",
         mkTable tasks_columns
           [[Integer 1; Text "Pay rent"; Text ""; Integer 1; Integer 2;
             Text "2023-05-01T09:00:00+03:00"; Text "2023-05-02T18:30:00+03:00"]] 1)] [].

(** A clock in Helsinki on October 29, 2023: one reading at 03:30 summer
    time, the following ones forty minutes on, after the clocks went back
    (03:10 winter time and later). *)
Definition autumn_clock (n : nat) : Time :=
  match n with
  | O => mkTime 1698539400 250000000 10800
  | S k => mkTime (1698541800 + Z.of_nat k) 750000000 7200
  end.

(** A clock read several times within one second. *)
Definition quick_clock (n : nat) : Time :=
  mkTime 1700000000 (100000000 * Z.of_nat n + 1) 7200.

(** The handle after [New]. *)
Definition opened (db : DB) : DB := snd (New db).

(** The world after a call. *)
Definition run {A : Type} (m : M DB A) (w : World DB) : World DB := snd (m w).

Definition task_or_zero (r : option Task * error) : Task :=
  match fst r with
  | Some t => t
  | None => mkTask 0 "" "" false 0 zeroTime zeroTime None
  end.

(** The listing of two tasks added across the end of summer time. *)
Definition autumn_world : World DB :=
  let w0 := mkWorld (opened fresh) autumn_clock 0 in
  let w1 := run (Service.Add "Book flights" "" PriorityMedium) w0 in
  run (Service.Add "Call the bank" "" PriorityMedium) w1.

(** A new database under the quick clock, and two task objects. *)
Definition quick_world : World DB := mkWorld (opened fresh) quick_clock 0.

Definition plants : Task :=
  mkTask 0 "Water the plants" "balcony" false PriorityLow (quick_clock 0) (quick_clock 0) None.

Definition plants_done : Task :=
  mkTask 1 "Water the plants" "balcony and kitchen" true PriorityHigh
    (quick_clock 0) (quick_clock 1) None.

(** The driver fails on the next call. *)
Definition failing_world : World DB :=
  mkWorld (mkDB (file (opened fresh)) [true]) quick_clock 0.

(** The world after one task has been added. *)
Definition planted (clk : nat -> Time) : World DB :=
  run (Service.Add "Water the plants" "balcony" PriorityLow) (mkWorld (opened fresh) clk 0).

Definition planted_task (clk : nat -> Time) : Task :=
  task_or_zero (fst (Service.Add "Water the plants" "balcony" PriorityLow
                       (mkWorld (opened fresh) clk 0))).

(** [toggleTask] of the desktop window on the first task listed: the
    task as last listed is toggled. *)
Definition toggle_first (w : World DB) : World DB :=
  let '((tasks, _), w1) := Service.All w in
  match tasks with
  | t :: _ => run (Service.Toggle t) w1
  | [] => w1
  end.

(** A clock that ticks every 1/64 of a second: eight readings in a row
    are the same. *)
Definition coarse_clock (n : nat) : Time :=
  mkTime 1700000000 (15625000 * Z.of_nat (Nat.div n 8)) 7200.

(** A column of a row of the migrated table. *)
Definition column_of (name : string) (r : row) : value := get_col migrated_columns name r.

(** A task object whose [closedAt] is present exactly when it is done. *)
Definition consistent (t : Task) : Prop :=
  (Done t = true -> ClosedAt t <> None) /\ (Done t = false -> ClosedAt t = None).

(** The first task listed, or a blank one. *)
Definition first_listed (w : World DB) : Task :=
  match fst (fst (Service.All w)) with
  | t :: _ => t
  | [] => mkTask 0 "" "" false 0 zeroTime zeroTime None
  end.

(** The [priority] column as [initialSchema] declares it. *)
Definition priority_column : column := mkColumn "priority" "INTEGER" true (Integer 1) false.

(** An insertion that names no priority. *)
Definition untitled_insert : stmt :=
  InsertInto "tasks" ["title"; "created_at"; "updated_at"]
    [Text "Untitled"; Text "2023-11-15T00:13:20+02:00"; Text "2023-11-15T00:13:20+02:00"].

(** The file after the bootstrap of a fresh database. *)
Definition bootstrapped : database :=
  match bootstrap [] with
  | Ok f => f
  | Err _ => []
  end.

(** A first launch on which the driver fails at the version update of the
    first migration. *)
Definition interrupted : DB := mkDB bootstrapped [false; false; false; true].

End Props.

(* ================================================================== *)
(** * Further vocabulary: ids, sessions, the earlier release, the window *)
(* ================================================================== *)

Module MoreProps.
Import GoTime SQL Todo SQLiteStore Props.

(** ** Ids *)

(** The rowid of a row of the tasks table. *)
Definition row_id (r : row) : Z :=
  match r with
  | Integer i :: _ => i
  | _ => 0
  end.

(** The ids of the tasks table: no two rows share one, and none exceeds
    the largest rowid handed out so far. *)
Definition keyed (f : database) : Prop :=
  NoDup (map row_id (tasks_rows f)) /\
  Forall (fun r => row_id r <= tasks_seq f) (tasks_rows f).

(** The next call of the driver goes through. *)
Definition next_ok (db : DB) : Prop := fst (next_fault db) = false.

(** The tables other than the tasks table are those of [f]. *)
Definition same_elsewhere (f f' : database) : Prop :=
  forall name, name <> "tasks" -> find_table name f' = find_table name f.

(** What the driver answers when the rowids are used up. *)
Definition full_error : string := "database or disk is full".

(** The listing of a ready database, with the driver working. *)
Definition listing (f : database) : list Task :=
  map task_of_row (sort_by list_order (tasks_rows f)).

(** ** Sessions, call by call *)

(** What one call of a front end does to the tasks table, under the
    clock [clk]: nothing, or the insertion of [Add], the update of [Toggle]
    and [Edit], the deletion of [Delete]. *)
Inductive change (clk : nat -> Time) (w w' : World DB) : Prop :=
| change_none :
    file (backend w') = file (backend w) -> (ticks w <= ticks w')%nat ->
    change clk w w'
| change_insert (title description : string) (priority : PriorityLevel) :
    tasks_rows (file (backend w')) =
      (tasks_rows (file (backend w)) ++
       [created_row (mkTask 0 title description false priority
                       (clk (ticks w)) (clk (ticks w)) None)
                    (tasks_seq (file (backend w)) + 1)])%list ->
    tasks_seq (file (backend w')) = tasks_seq (file (backend w)) + 1 ->
    ticks w' = S (ticks w) ->
    change clk w w'
| change_update (u : Task) :
    UpdatedAt u = clk (ticks w) ->
    tasks_rows (file (backend w')) =
      map (fun r => if has_id (ID u) r
                    then updated_row (stamped (clk (S (ticks w))) u) r else r)
          (tasks_rows (file (backend w))) ->
    tasks_seq (file (backend w')) = tasks_seq (file (backend w)) ->
    ticks w' = S (S (ticks w)) ->
    change clk w w'
| change_delete (id : Z) :
    tasks_rows (file (backend w')) =
      filter (fun r => negb (has_id id r)) (tasks_rows (file (backend w))) ->
    tasks_seq (file (backend w')) = tasks_seq (file (backend w)) ->
    ticks w' = ticks w ->
    change clk w w'.

(** The ids a session has seen: those of the table are distinct and
    bounded by the high-water mark, and so are those of the task objects the
    front end holds. *)
Definition ids_ok (s : session) : Prop :=
  keyed (file (backend (fst s))) /\
  Forall (fun t => ID t <= tasks_seq (file (backend (fst s)))) (snd s).

(** A row whose [closed_at] is set exactly when [done] is. *)
Definition closed_iff_done (r : row) : bool :=
  match r with
  | [_; _; _; Integer d; _; _; _; cl] => Bool.eqb (d =? 0) (value_eqb cl Null)
  | _ => false
  end.

(** A row whose two timestamps are readings [i <= j] of the clock, both
    among the first [n]. *)
Definition timed (clk : nat -> Time) (n : nat) (r : row) : Prop :=
  exists i j : nat,
    (i <= j < n)%nat /\
    column_of "created_at" r = Text (Format (clk i)) /\
    column_of "updated_at" r = Text (Format (clk j)).

(** A clock that does not go back. *)
Definition steady (clk : nat -> Time) : Prop :=
  forall i j : nat, (i <= j)%nat -> unix (clk i) <= unix (clk j).

(** ** Files of the earlier release *)

(** A row as the store of the earlier release writes it. *)
Definition legacy_row (r : row) : bool :=
  match r with
  | [Integer _; Text _; Text _; Integer d; Integer _; Text c; Text u] =>
      ((d =? 0) || (d =? 1)) && wf_text c && wf_text u
  | _ => false
  end.

(** A database file as the earlier release leaves it: the tasks table
    with its seven columns, and no version table. *)
Definition legacy_file (f : database) : Prop :=
  exists rows seq,
    find_table "tasks" f = Some (mkTable tasks_columns rows seq) /\
    find_table "schema_version" f = None /\
    forallb legacy_row rows = true.

(** The task the earlier release lists a row as. *)
Definition legacy_task_of_row (r : row) : Task :=
  match LegacyStore.scan_task r with
  | Ok t => t
  | Err _ => mkTask 0 "" "" false 0 zeroTime zeroTime None
  end.

(** The order of the listing query of the earlier release, on its rows. *)
Definition legacy_order : row -> row -> comparison :=
  order_compare tasks_columns [("done", ASC); ("priority", DESC); ("created_at", ASC)].

(** The row with the column a migration adds, empty. *)
Definition widen (r : row) : row := (r ++ [Null])%list.

(** The version table after the bootstrap and after the migration. *)
Definition version_table (v : Z) : table :=
  mkTable [mkColumn "version" "INTEGER" true Null false] [[Integer v]] 1.

(** The row the earlier release inserts for a task, under the rowid [id]. *)
Definition legacy_created_row (t : Task) (id : Z) : row :=
  [Integer id; Text (Title t); Text (Description t); Integer (LegacyStore.boolToInt (Done t));
   Integer (Priority t); Text (Format (CreatedAt t)); Text (Format (UpdatedAt t))].

(** The row its [Update] leaves where it finds the task's id. *)
Definition legacy_updated_row (t : Task) (r : row) : row :=
  match r with
  | [id; _; _; _; _; created; _] =>
      [id; Text (Title t); Text (Description t); Integer (LegacyStore.boolToInt (Done t));
       Integer (Priority t); created; Text (Format (UpdatedAt t))]
  | _ => r
  end.

(** ** The window and the page *)

(** Whether the window shows a task under a filter. *)
Definition shown_under (flt : string) (t : Task) : bool :=
  if String.eqb flt "active" then negb (Done t)
  else if String.eqb flt "done" then Done t
  else true.

(** The page of the web placeholder for [n] tasks. *)
Definition page (n : Z) : string :=
  "TodoApp web UI — " ++ Window.Sprintf_d n ++ " tasks (implement me!)" ++ String "010" "".

(** ** Further runs used as examples *)

(** The sessions a front end reaches by one call, as functions. *)
Definition after_Add (title description : string) (priority : PriorityLevel)
    (s : session) : session :=
  (snd (Service.Add title description priority (fst s)),
   match fst (fst (Service.Add title description priority (fst s))) with
   | Some t => t :: snd s
   | None => snd s
   end).

Definition after_Toggle (t : Task) (s : session) : session :=
  (snd (Service.Toggle t (fst s)), fst (fst (Service.Toggle t (fst s))) :: snd s).

Definition after_Delete (id : Z) (s : session) : session :=
  (snd (Service.Delete id (fst s)), snd s).

(** A session: a fresh file is opened, two tasks are added, the second
    is completed and the first deleted. *)
Definition bank_task : Task :=
  mkTask 2 "Call the bank" "" false PriorityMedium (quick_clock 1) (quick_clock 1) None.

Definition garden0 : session := (mkWorld (opened fresh) quick_clock 0, []).
Definition garden1 : session := after_Add "Water the plants" "balcony" PriorityLow garden0.
Definition garden2 : session := after_Add "Call the bank" "" PriorityMedium garden1.
Definition garden3 : session := after_Toggle bank_task garden2.
Definition garden : session := after_Delete 1 garden3.

(** Two tasks, added one after the other under the quick clock. *)
Definition two_tasks : World DB :=
  run (Service.Add "Call the bank" "" PriorityMedium) (planted quick_clock).

(** Two tasks, the first of them completed. *)
Definition one_done : World DB :=
  run (Service.Toggle (planted_task quick_clock)) two_tasks.

(** A window that shows the open tasks. *)
Definition active_view : Window.appState := Window.mkAppState [] "active" "".

(** A database whose stored version has been set back below zero. *)
Definition rewound : DB :=
  mkDB (set_table "schema_version" (version_table (-1)) (file (opened fresh))) [].

(** A first launch on which the driver fails at the second statement of
    the initial schema. *)
Definition cut_short : DB := mkDB [] [false; true].

End MoreProps.

(* ================================================================== *)
(** * Facts about the calendar and the RFC3339 text *)
(* ================================================================== *)

Module TimeFacts.
Import GoTime.

Lemma forall_below_spec n : forall z p,
  forall_below n z p = true ->
  forall x, z <= x < z + Z.of_nat n -> p x = true.
Proof.
  induction n as [|n IH]; intros z p H x Hx.
  - simpl in Hx. lia.
  - simpl in H. apply andb_true_iff in H as [Hz Hr].
    destruct (Z.eq_dec x z) as [->|Hne]; [exact Hz|].
    apply (IH (z + 1) p Hr). lia.
Qed.

Lemma era_check_all : forall_below (Z.to_nat 146097) 0 era_check = true.
Proof. vm_cast_no_check (eq_refl true). Qed.

Lemma era_check_at doe : 0 <= doe < 146097 -> era_check doe = true.
Proof.
  intros H. apply (forall_below_spec _ _ _ era_check_all). lia.
Qed.

(** What the check says about one day of the era. *)
Lemma civil_of_doe_facts doe y m d :
  0 <= doe < 146097 ->
  civil_of_doe doe = (y, m, d) ->
  let y' := if m <=? 2 then y - 1 else y in
  1 <= m <= 12 /\ 1 <= d <= daysIn m y /\ 0 <= y' < 400 /\
  doe_of_civil y' m d = doe.
Proof.
  intros Hr Hc. pose proof (era_check_at doe Hr) as E.
  unfold era_check in E. rewrite Hc in E. cbv zeta in E.
  repeat (apply andb_true_iff in E as [E ?]).
  cbv zeta. lia.
Qed.

Lemma dateKey_step doe :
  0 <= doe < 146096 -> dateKey (civil_of_doe doe) < dateKey (civil_of_doe (doe + 1)).
Proof.
  intros Hr. assert (H : 0 <= doe < 146097) by lia.
  pose proof (era_check_at doe H) as E.
  unfold era_check in E. destruct (civil_of_doe doe) as [[y m] d] eqn:Hc.
  cbv zeta in E.
  repeat (apply andb_true_iff in E as [E ?]).
  match goal with K : (_ || _) = true |- _ => apply orb_true_iff in K as [K|K] end; lia.
Qed.

Lemma dateKey_mono_era a b :
  0 <= a -> a < b -> b < 146097 ->
  dateKey (civil_of_doe a) < dateKey (civil_of_doe b).
Proof.
  intros Ha Hab Hb.
  assert (G : forall n : nat, a + 1 + Z.of_nat n < 146097 ->
              dateKey (civil_of_doe a) < dateKey (civil_of_doe (a + 1 + Z.of_nat n))).
  { induction n as [|n IH]; intros Hn.
    - replace (a + 1 + Z.of_nat 0) with (a + 1) by lia. apply dateKey_step; lia.
    - replace (a + 1 + Z.of_nat (S n)) with ((a + 1 + Z.of_nat n) + 1) by lia.
      eapply Z.lt_trans; [apply IH; lia|]. apply dateKey_step; lia. }
  specialize (G (Z.to_nat (b - a - 1))).
  replace (a + 1 + Z.of_nat (Z.to_nat (b - a - 1))) with b in G by lia.
  apply G; lia.
Qed.

Lemma dateKey_era_bounds doe :
  0 <= doe < 146097 -> 301 <= dateKey (civil_of_doe doe) <= 4000229.
Proof.
  intros H.
  assert (K0 : dateKey (civil_of_doe 0) = 301) by reflexivity.
  assert (K1 : dateKey (civil_of_doe 146096) = 4000229) by reflexivity.
  split.
  - destruct (Z.eq_dec doe 0) as [->|]; [lia|].
    pose proof (dateKey_mono_era 0 doe). lia.
  - destruct (Z.eq_dec doe 146096) as [->|]; [lia|].
    pose proof (dateKey_mono_era doe 146096). lia.
Qed.

Lemma dateKey_civil_from_days z :
  dateKey (civil_from_days z) =
  dateKey (civil_of_doe ((z + 719468) mod 146097)) + 4000000 * ((z + 719468) / 146097).
Proof.
  unfold civil_from_days.
  destruct (civil_of_doe ((z + 719468) mod 146097)) as [[y m] d].
  unfold dateKey. lia.
Qed.

(** Later days have later dates. *)
Lemma dateKey_mono z1 z2 :
  z1 < z2 -> dateKey (civil_from_days z1) < dateKey (civil_from_days z2).
Proof.
  intros H. rewrite !dateKey_civil_from_days.
  pose proof (Z.mod_pos_bound (z1 + 719468) 146097 ltac:(lia)) as B1.
  pose proof (Z.mod_pos_bound (z2 + 719468) 146097 ltac:(lia)) as B2.
  pose proof (Z.div_mod (z1 + 719468) 146097 ltac:(lia)) as D1.
  pose proof (Z.div_mod (z2 + 719468) 146097 ltac:(lia)) as D2.
  pose proof (dateKey_era_bounds _ B1). pose proof (dateKey_era_bounds _ B2).
  destruct (Z.eq_dec ((z1 + 719468) / 146097) ((z2 + 719468) / 146097)) as [E|NE].
  - rewrite E in *.
    pose proof (dateKey_mono_era ((z1 + 719468) mod 146097) ((z2 + 719468) mod 146097)).
    lia.
  - assert ((z1 + 719468) / 146097 < (z2 + 719468) / 146097) by nia.
    lia.
Qed.

Lemma dateKey_compare z1 z2 :
  (dateKey (civil_from_days z1) ?= dateKey (civil_from_days z2)) = (z1 ?= z2).
Proof.
  destruct (Z.compare_spec z1 z2) as [->|H|H].
  - apply Z.compare_refl.
  - apply Z.compare_lt_iff. now apply dateKey_mono.
  - apply Z.compare_gt_iff. now apply dateKey_mono.
Qed.

Lemma isLeap_period y e : isLeap (y + e * 400) = isLeap y.
Proof.
  unfold isLeap.
  replace ((y + e * 400) mod 4) with (y mod 4)
    by (replace (y + e * 400) with (y + (e * 100) * 4) by lia; now rewrite Z.mod_add).
  replace ((y + e * 400) mod 100) with (y mod 100)
    by (replace (y + e * 400) with (y + (e * 4) * 100) by lia; now rewrite Z.mod_add).
  replace ((y + e * 400) mod 400) with (y mod 400) by (now rewrite Z.mod_add).
  reflexivity.
Qed.

Lemma daysIn_period m y e : daysIn m (y + e * 400) = daysIn m y.
Proof. unfold daysIn. now rewrite isLeap_period. Qed.

(** The fields of a date are in range and give the day back. *)
Lemma civil_from_days_facts z y m d :
  civil_from_days z = (y, m, d) ->
  1 <= m <= 12 /\ 1 <= d <= daysIn m y /\ days_from_civil y m d = z.
Proof.
  unfold civil_from_days. intros H.
  pose proof (Z.mod_pos_bound (z + 719468) 146097 ltac:(lia)) as B.
  pose proof (Z.div_mod (z + 719468) 146097 ltac:(lia)) as D.
  destruct (civil_of_doe ((z + 719468) mod 146097)) as [[y0 m0] d0] eqn:Hc.
  injection H as <- <- <-.
  destruct (civil_of_doe_facts _ _ _ _ B Hc) as (Hm & Hd & Hy & Hdoe).
  rewrite daysIn_period. repeat split; try lia.
  unfold days_from_civil.
  set (e := (z + 719468) / 146097) in *.
  assert (Y : (if m0 <=? 2 then y0 + e * 400 - 1 else y0 + e * 400)
              = (if m0 <=? 2 then y0 - 1 else y0) + e * 400)
    by (destruct (m0 <=? 2); lia).
  rewrite Y. set (y' := if m0 <=? 2 then y0 - 1 else y0) in *.
  rewrite Z.div_add by lia. rewrite Z.mod_add by lia.
  rewrite (Z.div_small y' 400) by lia. rewrite (Z.mod_small y' 400) by lia.
  rewrite Hdoe. lia.
Qed.

Lemma daysIn_le_31 m y : daysIn m y <= 31.
Proof.
  unfold daysIn. destruct (m =? 2); [destruct (isLeap y); lia|].
  destruct ((m =? 4) || (m =? 6) || (m =? 9) || (m =? 11)); lia.
Qed.

(** Days of the years 0 to 9999. *)
Lemma civil_from_days_year z y m d :
  -719528 <= z <= 2932896 ->
  civil_from_days z = (y, m, d) -> 0 <= y <= 9999.
Proof.
  intros Hz Hc.
  destruct (civil_from_days_facts _ _ _ _ Hc) as (Hm & Hd & _).
  pose proof (daysIn_le_31 m y).
  assert (L : dateKey (civil_from_days (-719528)) = 101) by reflexivity.
  assert (U : dateKey (civil_from_days 2932896) = 99991231) by reflexivity.
  assert (101 <= dateKey (civil_from_days z)).
  { destruct (Z.eq_dec z (-719528)) as [->|]; [lia|].
    pose proof (dateKey_mono (-719528) z). lia. }
  assert (dateKey (civil_from_days z) <= 99991231).
  { destruct (Z.eq_dec z 2932896) as [->|]; [lia|].
    pose proof (dateKey_mono z 2932896). lia. }
  rewrite Hc in *. unfold dateKey in *. lia.
Qed.

(** ** Fixed-width decimal fields *)

Lemma compare_refl_string (s : string) : (s ?= s)%string = Eq.
Proof.
  induction s as [|c s IH]; simpl; [reflexivity|].
  unfold Ascii.compare. now rewrite N.compare_refl.
Qed.

Lemma compare_app_same_length (a b s s' : string) :
  String.length a = String.length b ->
  ((a ++ s) ?= (b ++ s'))%string =
  match (a ?= b)%string with Eq => (s ?= s')%string | c => c end.
Proof.
  revert b. induction a as [|c a IH]; intros [|c' b] H; simpl in *; try discriminate.
  - reflexivity.
  - destruct (Ascii.compare c c'); auto.
Qed.

Lemma fixed_digits_length w : forall n, String.length (fixed_digits w n) = w.
Proof.
  induction w as [|w IH]; intros n; simpl; [reflexivity|].
  now rewrite IH.
Qed.

Lemma N_of_digit n : 0 <= n < 10 -> N_of_ascii (digit n) = Z.to_N (48 + n).
Proof.
  intros H. unfold digit. apply N_ascii_embedding. lia.
Qed.

Lemma digit_compare a b :
  0 <= a < 10 -> 0 <= b < 10 -> Ascii.compare (digit a) (digit b) = (a ?= b).
Proof.
  intros Ha Hb. unfold Ascii.compare. rewrite !N_of_digit by assumption.
  rewrite Z2N.inj_compare by lia. apply Z.add_compare_mono_l.
Qed.

Lemma digit_val_digit n : 0 <= n < 10 -> digit_val (digit n) = Some n.
Proof.
  intros H. unfold digit_val. rewrite N_of_digit by assumption.
  rewrite Z2N.id by lia.
  replace ((48 <=? 48 + n) && (48 + n <=? 57)) with true
    by (symmetry; apply andb_true_iff; split; apply Z.leb_le; lia).
  f_equal. lia.
Qed.

Lemma pow10_succ w : 10 ^ Z.of_nat (S w) = 10 * 10 ^ Z.of_nat w.
Proof. rewrite Nat2Z.inj_succ, Z.pow_succ_r by lia. reflexivity. Qed.

Lemma pow10_pos w : 0 < 10 ^ Z.of_nat w.
Proof. apply Z.pow_pos_nonneg; lia. Qed.

(** Leading digit and remainder of a number below [10^(w+1)]. *)
Lemma split_leading w n :
  0 <= n < 10 ^ Z.of_nat (S w) ->
  0 <= n / 10 ^ Z.of_nat w < 10 /\ 0 <= n mod 10 ^ Z.of_nat w < 10 ^ Z.of_nat w /\
  n = 10 ^ Z.of_nat w * (n / 10 ^ Z.of_nat w) + n mod 10 ^ Z.of_nat w.
Proof.
  intros H. rewrite pow10_succ in H. pose proof (pow10_pos w) as P.
  repeat split.
  - apply Z.div_pos; lia.
  - apply Z.div_lt_upper_bound; lia.
  - apply Z.mod_pos_bound; lia.
  - apply Z.mod_pos_bound; lia.
  - apply Z.div_mod; lia.
Qed.

Lemma compare_fixed_digits w : forall a b,
  0 <= a < 10 ^ Z.of_nat w -> 0 <= b < 10 ^ Z.of_nat w ->
  (fixed_digits w a ?= fixed_digits w b)%string = (a ?= b).
Proof.
  induction w as [|w IH]; intros a b Ha Hb.
  - simpl in *. assert (a = 0) by lia. assert (b = 0) by lia. subst. reflexivity.
  - destruct (split_leading w a Ha) as (A1 & A2 & A3).
    destruct (split_leading w b Hb) as (B1 & B2 & B3).
    simpl. rewrite digit_compare by assumption. rewrite IH by assumption.
    set (p := 10 ^ Z.of_nat w) in *.
    set (qa := a / p) in *. set (qb := b / p) in *.
    set (ra := a mod p) in *. set (rb := b mod p) in *.
    destruct (Z.compare_spec qa qb) as [E|L|G].
    + destruct (Z.compare_spec ra rb);
        symmetry; [apply Z.compare_eq_iff|apply Z.compare_lt_iff|apply Z.compare_gt_iff]; nia.
    + symmetry. apply Z.compare_lt_iff. nia.
    + symmetry. apply Z.compare_gt_iff. nia.
Qed.

Lemma appendInt_fixed x w :
  0 <= x < 10 ^ Z.of_nat w -> appendInt x w = fixed_digits w x.
Proof.
  intros H. unfold appendInt.
  destruct (Z.ltb_spec x 0); [lia|].
  destruct (Z.ltb_spec x (10 ^ Z.of_nat w)); [reflexivity|lia].
Qed.

(** A field followed by the same separator on both sides. *)
Lemma compare_field w a b (c : ascii) (s s' : string) :
  0 <= a < 10 ^ Z.of_nat w -> 0 <= b < 10 ^ Z.of_nat w ->
  ((fixed_digits w a ++ String c s) ?= (fixed_digits w b ++ String c s'))%string =
  match a ?= b with Eq => (s ?= s')%string | r => r end.
Proof.
  intros Ha Hb.
  rewrite compare_app_same_length by (now rewrite !fixed_digits_length).
  rewrite compare_fixed_digits by assumption.
  simpl. unfold Ascii.compare at 1. rewrite N.compare_refl. reflexivity.
Qed.

Lemma compare_field_end w a b (s : string) :
  0 <= a < 10 ^ Z.of_nat w -> 0 <= b < 10 ^ Z.of_nat w ->
  ((fixed_digits w a ++ s) ?= (fixed_digits w b ++ s))%string = (a ?= b).
Proof.
  intros Ha Hb.
  rewrite compare_app_same_length by (now rewrite !fixed_digits_length).
  rewrite compare_fixed_digits by assumption.
  rewrite compare_refl_string. now destruct (a ?= b).
Qed.

Lemma getnum_fixed w : forall acc n rest,
  0 <= n < 10 ^ Z.of_nat w ->
  getnum w acc (fixed_digits w n ++ rest) = Some (acc * 10 ^ Z.of_nat w + n, rest).
Proof.
  induction w as [|w IH]; intros acc n rest Hn.
  - simpl in *. do 2 f_equal. lia.
  - destruct (split_leading w n Hn) as (A1 & A2 & A3).
    cbn [fixed_digits append getnum]. rewrite digit_val_digit by assumption.
    cbn [bind]. rewrite IH by assumption. do 2 f_equal.
    rewrite pow10_succ. set (p := 10 ^ Z.of_nat w) in *. nia.
Qed.

(** ** [Format] and [Parse] *)

Lemma validTime_spec t :
  validTime t <->
  -62167219200 <= localSeconds t < 253402300800 /\
  offset t mod 60 = 0 /\ -86400 < offset t < 86400.
Proof.
  unfold validTime, validTimeb. rewrite !andb_true_iff.
  rewrite Z.leb_le, !Z.ltb_lt, Z.eqb_eq. intuition lia.
Qed.

(** The text of a valid time, field by field. *)
Lemma Format_fields t :
  validTime t ->
  exists y m d hh mm ss,
    Date t = (y, m, d) /\ Clock t = (hh, mm, ss) /\
    0 <= y < 10 ^ Z.of_nat 4 /\ 0 <= m < 10 ^ Z.of_nat 2 /\ 0 <= d < 10 ^ Z.of_nat 2 /\
    0 <= hh < 10 ^ Z.of_nat 2 /\ 0 <= mm < 10 ^ Z.of_nat 2 /\ 0 <= ss < 10 ^ Z.of_nat 2 /\
    Format t =
      fixed_digits 4 y ++ String "-" (fixed_digits 2 m ++ String "-" (fixed_digits 2 d ++
      String "T" (fixed_digits 2 hh ++ String ":" (fixed_digits 2 mm ++ String ":"
      (fixed_digits 2 ss ++ formatZone (offset t)))))).
Proof.
  intros V. apply validTime_spec in V. destruct V as (Hr & _).
  destruct (Date t) as [[y m] d] eqn:HD. destruct (Clock t) as [[hh mm] ss] eqn:HC.
  exists y, m, d, hh, mm, ss.
  unfold Date in HD.
  destruct (civil_from_days_facts _ _ _ _ HD) as (Hm & Hd & _).
  pose proof (daysIn_le_31 m y).
  assert (Hy : 0 <= y <= 9999).
  { eapply civil_from_days_year; [|exact HD]. Z.div_mod_to_equations. lia. }
  unfold Clock in HC. injection HC as <- <- <-.
  change (10 ^ Z.of_nat 4) with 10000. change (10 ^ Z.of_nat 2) with 100.
  assert (R : 0 <= localSeconds t mod 86400 < 86400) by (apply Z.mod_pos_bound; lia).
  repeat (split; [first [reflexivity | lia | Z.div_mod_to_equations; lia]|]).
  unfold Format. unfold Date. rewrite HD. unfold Clock.
  rewrite !appendInt_fixed
    by (change (10 ^ Z.of_nat 4) with 10000; change (10 ^ Z.of_nat 2) with 100;
        first [lia | Z.div_mod_to_equations; lia]).
  reflexivity.
Qed.

(** On times of one zone, the order of the texts is the order of the
    seconds. *)
Lemma Format_compare t1 t2 :
  validTime t1 -> validTime t2 -> offset t1 = offset t2 ->
  (Format t1 ?= Format t2)%string = (unix t1 ?= unix t2).
Proof.
  intros V1 V2 Hoff.
  destruct (Format_fields t1 V1) as (y1 & m1 & d1 & hh1 & mm1 & ss1 & HD1 & HC1 & ? & ? & ? & ? & ? & ? & ->).
  destruct (Format_fields t2 V2) as (y2 & m2 & d2 & hh2 & mm2 & ss2 & HD2 & HC2 & ? & ? & ? & ? & ? & ? & ->).
  rewrite Hoff.
  rewrite !compare_field by assumption. rewrite compare_field_end by assumption.
  pose proof (dateKey_compare (localSeconds t1 / 86400) (localSeconds t2 / 86400)) as K.
  unfold Date in HD1, HD2. rewrite HD1, HD2 in K. unfold dateKey in K.
  destruct (civil_from_days_facts _ _ _ _ HD1) as (Hm1 & Hd1 & _).
  destruct (civil_from_days_facts _ _ _ _ HD2) as (Hm2 & Hd2 & _).
  pose proof (daysIn_le_31 m1 y1). pose proof (daysIn_le_31 m2 y2).
  unfold Clock in HC1, HC2. injection HC1 as <- <- <-. injection HC2 as <- <- <-.
  unfold localSeconds in *. rewrite Hoff in *.
  set (l1 := unix t1 + offset t2) in *. set (l2 := unix t2 + offset t2) in *.
  assert (E : (unix t1 ?= unix t2) = (l1 ?= l2))
    by (subst l1 l2; rewrite !(Z.add_comm _ (offset t2)); symmetry;
        apply Z.add_compare_mono_l).
  rewrite E.
  assert (KL : y1 * 10000 + m1 * 100 + d1 < y2 * 10000 + m2 * 100 + d2 -> l1 / 86400 < l2 / 86400)
    by (unfold Z.lt; now rewrite K).
  assert (KG : y1 * 10000 + m1 * 100 + d1 > y2 * 10000 + m2 * 100 + d2 -> l1 / 86400 > l2 / 86400)
    by (unfold Z.gt; now rewrite K).
  assert (KE : y1 * 10000 + m1 * 100 + d1 = y2 * 10000 + m2 * 100 + d2 -> l1 / 86400 = l2 / 86400)
    by (intros L; apply Z.compare_eq_iff in L; rewrite K in L; now apply Z.compare_eq_iff).
  clear K E.
  repeat match goal with
  | |- context [ ?a ?= ?b ] =>
      lazymatch a with l1 => fail | _ => idtac end;
      destruct (Z.compare_spec a b)
  end;
  symmetry; first [apply Z.compare_eq_iff|apply Z.compare_lt_iff|apply Z.compare_gt_iff];
  Z.div_mod_to_equations; lia.
Qed.

Lemma parseZone_formatZone off :
  off mod 60 = 0 -> -86400 < off < 86400 ->
  parseZone (formatZone off) = Some off.
Proof.
  intros Hm Hr. unfold formatZone.
  destruct (Z.eqb_spec off 0) as [->|Hne]; [reflexivity|].
  set (zone := Z.quot off 60).
  assert (Hz : off = 60 * zone).
  { subst zone. pose proof (Z.quot_rem off 60 ltac:(lia)) as Q.
    apply Z.rem_mod_eq_0 in Hm; lia. }
  assert (A : 0 <= Z.abs zone / 60 < 10 ^ Z.of_nat 2)
    by (change (10 ^ Z.of_nat 2) with 100; Z.div_mod_to_equations; lia).
  assert (B : 0 <= Z.abs zone mod 60 < 10 ^ Z.of_nat 2)
    by (change (10 ^ Z.of_nat 2) with 100; Z.div_mod_to_equations; lia).
  rewrite !appendInt_fixed by assumption.
  assert (G : forall sg sign, (sg = "+"%char /\ sign = 1) \/ (sg = "-"%char /\ sign = -1) ->
            sign * Z.abs zone = zone ->
            parseZone (String sg (fixed_digits 2 (Z.abs zone / 60) ++
                       String ":" (fixed_digits 2 (Z.abs zone mod 60))))
            = Some off).
  { intros sg sign Hs Hsz.
    replace (fixed_digits 2 (Z.abs zone mod 60))
      with (fixed_digits 2 (Z.abs zone mod 60) ++ "")%string
      by (clear; induction (fixed_digits 2 (Z.abs zone mod 60)); simpl; congruence).
    destruct Hs as [[-> ->]|[-> ->]]; cbn [parseZone Ascii.eqb Bool.eqb bind];
      rewrite getnum_fixed by assumption; cbn [bind expect Ascii.eqb Bool.eqb];
      rewrite getnum_fixed by assumption; cbn [bind];
      change (10 ^ Z.of_nat 2) with 100 in *;
      (replace ((0 * 100 + Z.abs zone / 60 <=? 24) && (0 * 100 + Z.abs zone mod 60 <=? 60))
         with true
         by (symmetry; apply andb_true_iff; split; apply Z.leb_le;
             Z.div_mod_to_equations; lia));
      f_equal; Z.div_mod_to_equations; lia. }
  destruct (Z.ltb_spec zone 0).
  - apply (G "-"%char (-1)); [right; split; reflexivity | lia].
  - apply (G "+"%char 1); [left; split; reflexivity | lia].
Qed.

(** Reading back what [Format] wrote gives the time to the second, in its
    zone. *)
Lemma Parse_Format t :
  validTime t -> Parse (Format t) = Some (truncSecond t).
Proof.
  intros V.
  destruct (Format_fields t V) as (y & m & d & hh & mm & ss & HD & HC & Hy & Hm & Hd & Hhh & Hmm & Hss & ->).
  apply validTime_spec in V. destruct V as (Hr & Ho1 & Ho2).
  unfold Parse.
  repeat (rewrite getnum_fixed by assumption; cbn [bind expect Ascii.eqb Bool.eqb]).
  rewrite parseZone_formatZone by assumption. cbn [bind].
  unfold Date in HD.
  destruct (civil_from_days_facts _ _ _ _ HD) as (Hm' & Hd' & Hdays).
  unfold Clock in HC. injection HC as <- <- <-.
  rewrite !Z.mul_0_l, !Z.add_0_l.
  match goal with |- (if ?c then _ else _) = _ => replace c with true end.
  2:{ symmetry. repeat (apply andb_true_iff; split); first [apply Z.leb_le | apply Z.ltb_lt];
      first [lia | Z.div_mod_to_equations; lia]. }
  rewrite Hdays. unfold truncSecond. f_equal. f_equal.
  unfold localSeconds. Z.div_mod_to_equations. lia.
Qed.

End TimeFacts.

(* ================================================================== *)
(** * Facts about the relational engine *)
(* ================================================================== *)

Module SQLFacts.
Import GoTime SQL.

(** ** Comparisons that order *)

Section Orderings.
Context {A : Type}.

Lemma ordering_le_trans (cmp : A -> A -> comparison) :
  ordering cmp ->
  forall a b c, cmp a b <> Gt -> cmp b c <> Gt -> cmp a c <> Gt.
Proof.
  intros O a b c Hab Hbc.
  destruct (cmp a b) eqn:Eab; [| |congruence].
  - rewrite (cmp_eq_l _ O a b c Eab). exact Hbc.
  - destruct (cmp b c) eqn:Ebc; [| |congruence].
    + assert (Ecb : cmp c b = Eq) by (rewrite (cmp_antisym _ O), Ebc; reflexivity).
      pose proof (cmp_eq_l _ O c b a Ecb) as E.
      rewrite (cmp_antisym _ O c a), (cmp_antisym _ O b a), Eab in E.
      destruct (cmp a c); simpl in E; congruence.
    + rewrite (cmp_lt_trans _ O a b c Eab Ebc). discriminate.
Qed.

Lemma ordering_opp (cmp : A -> A -> comparison) :
  ordering cmp -> ordering (fun a b => CompOpp (cmp a b)).
Proof.
  intros O. split.
  - intros a b. now rewrite (cmp_antisym _ O a b).
  - intros a b c H. f_equal. apply (cmp_eq_l _ O). now destruct (cmp a b).
  - intros a b c Hab Hbc.
    assert (Eba : cmp b a = Lt) by (rewrite (cmp_antisym _ O); destruct (cmp a b); simpl in *; congruence).
    assert (Ecb : cmp c b = Lt) by (rewrite (cmp_antisym _ O); destruct (cmp b c); simpl in *; congruence).
    pose proof (cmp_lt_trans _ O c b a Ecb Eba) as E.
    rewrite (cmp_antisym _ O a c), E. reflexivity.
Qed.

(** The lexicographic combination of two orderings. *)
Lemma ordering_lex (c1 c2 : A -> A -> comparison) :
  ordering c1 -> ordering c2 ->
  ordering (fun a b => match c1 a b with Eq => c2 a b | r => r end).
Proof.
  intros O1 O2. split.
  - intros a b. rewrite (cmp_antisym _ O1 a b), (cmp_antisym _ O2 a b).
    now destruct (c1 b a).
  - intros a b c H. destruct (c1 a b) eqn:E1; try discriminate.
    rewrite (cmp_eq_l _ O1 a b c E1), (cmp_eq_l _ O2 a b c H). reflexivity.
  - intros a b c Hab Hbc.
    destruct (c1 a b) eqn:Eab; try discriminate.
    + rewrite (cmp_eq_l _ O1 a b c Eab).
      destruct (c1 b c) eqn:Ebc; try discriminate; [|reflexivity].
      apply (cmp_lt_trans _ O2 a b c Hab Hbc).
    + destruct (c1 b c) eqn:Ebc; try discriminate.
      * assert (Ecb : c1 c b = Eq) by (rewrite (cmp_antisym _ O1), Ebc; reflexivity).
        pose proof (cmp_eq_l _ O1 c b a Ecb) as E.
        rewrite (cmp_antisym _ O1 c a), (cmp_antisym _ O1 b a), Eab in E.
        destruct (c1 a c); simpl in E; congruence.
      * now rewrite (cmp_lt_trans _ O1 a b c Eab Ebc).
Qed.

Lemma ordering_const : ordering (fun _ _ : A => Eq).
Proof. split; intros; auto; discriminate. Qed.

Lemma ordering_on {B : Type} (f : A -> B) (cmp : B -> B -> comparison) :
  ordering cmp -> ordering (fun a b => cmp (f a) (f b)).
Proof.
  intros O. split; intros.
  - apply (cmp_antisym _ O).
  - now apply (cmp_eq_l _ O).
  - now apply (cmp_lt_trans _ O _ (f b)).
Qed.

End Orderings.

Lemma string_compare_eq (s t : string) : (s ?= t)%string = Eq -> s = t.
Proof. apply String.compare_eq_iff. Qed.

Lemma string_compare_lt_trans : forall s t u : string,
  (s ?= t)%string = Lt -> (t ?= u)%string = Lt -> (s ?= u)%string = Lt.
Proof.
  induction s as [|a s IH]; intros [|b t] [|c u]; simpl; try congruence.
  unfold Ascii.compare.
  destruct (N.compare_spec (N_of_ascii a) (N_of_ascii b)) as [E1|L1|G1];
  destruct (N.compare_spec (N_of_ascii b) (N_of_ascii c)) as [E2|L2|G2];
    try discriminate; intros H1 H2.
  - rewrite E1, E2, N.compare_refl. eauto.
  - rewrite E1. now apply N.compare_lt_iff in L2 as ->.
  - rewrite <- E2. now apply N.compare_lt_iff in L1 as ->.
  - assert (L : (N_of_ascii a < N_of_ascii c)%N) by lia.
    now apply N.compare_lt_iff in L as ->.
Qed.

Lemma ordering_string : ordering String.compare.
Proof.
  split.
  - apply String.compare_antisym.
  - intros a b c H. apply string_compare_eq in H. now subst.
  - apply string_compare_lt_trans.
Qed.

Lemma ordering_Z : ordering Z.compare.
Proof.
  split.
  - intros a b. apply Z.compare_antisym.
  - intros a b c H. apply Z.compare_eq in H. now subst.
  - intros a b c H1 H2. change (a < b) in H1. change (b < c) in H2.
    change (a < c). lia.
Qed.

Lemma ordering_value : ordering value_compare.
Proof.
  split.
  - intros [|n|s] [|m|t]; simpl; try reflexivity.
    + apply (cmp_antisym _ ordering_Z).
    + apply String.compare_antisym.
  - intros [|n|s] [|m|t] c; simpl; try discriminate; try reflexivity; intros H.
    + apply Z.compare_eq in H. now subst.
    + apply string_compare_eq in H. now subst.
  - intros [|n|s] [|m|t] [|k|u]; simpl; try discriminate; try reflexivity.
    + apply (cmp_lt_trans _ ordering_Z).
    + apply string_compare_lt_trans.
Qed.

Lemma ordering_order_compare cols keys : ordering (order_compare cols keys).
Proof.
  induction keys as [|[k d] keys IH]; simpl.
  - apply ordering_const.
  - apply (ordering_lex
             (fun a b => match d with
                         | ASC => value_compare (get_col cols k a) (get_col cols k b)
                         | DESC => CompOpp (value_compare (get_col cols k a) (get_col cols k b))
                         end)
             (order_compare cols keys)); [|exact IH].
    destruct d.
    + apply (ordering_on (get_col cols k)), ordering_value.
    + apply (ordering_opp (fun a b => value_compare (get_col cols k a) (get_col cols k b))).
      apply (ordering_on (get_col cols k)), ordering_value.
Qed.

(** ** The sorter *)

Section Sorter.
Variable cmp : row -> row -> comparison.
Hypothesis cmp_ordering : ordering cmp.

Lemma insert_by_perm x l : Permutation (x :: l) (insert_by cmp x l).
Proof.
  induction l as [|y l IH]; simpl; [apply Permutation_refl|].
  destruct (cmp x y); try apply Permutation_refl.
  eapply Permutation_trans; [apply perm_swap|]. now apply perm_skip.
Qed.

Lemma sort_by_perm l : Permutation l (sort_by cmp l).
Proof.
  induction l as [|x l IH]; simpl; [constructor|].
  eapply Permutation_trans; [apply perm_skip, IH|]. apply insert_by_perm.
Qed.

Lemma insert_by_sorted x l :
  StronglySorted (fun a b => cmp a b <> Gt) l ->
  StronglySorted (fun a b => cmp a b <> Gt) (insert_by cmp x l).
Proof.
  induction 1 as [|y l Hs IH Hall]; simpl.
  - repeat constructor.
  - destruct (cmp x y) eqn:E.
    + constructor; [now constructor|].
      constructor; [congruence|].
      eapply Forall_impl; [|exact Hall]. intros z Hz.
      apply (ordering_le_trans cmp cmp_ordering x y z); congruence.
    + constructor; [now constructor|].
      constructor; [congruence|].
      eapply Forall_impl; [|exact Hall]. intros z Hz.
      apply (ordering_le_trans cmp cmp_ordering x y z); congruence.
    + constructor; [exact IH|].
      assert (Hyx : cmp y x <> Gt)
        by (rewrite (cmp_antisym _ cmp_ordering), E; discriminate).
      eapply Permutation_Forall; [apply insert_by_perm|].
      now constructor.
Qed.

Lemma sort_by_sorted l : StronglySorted (fun a b => cmp a b <> Gt) (sort_by cmp l).
Proof.
  induction l as [|x l IH]; simpl; [constructor|]. now apply insert_by_sorted.
Qed.

End Sorter.

Lemma sort_by_forallb cmp (p : row -> bool) l :
  forallb p l = true -> forallb p (sort_by cmp l) = true.
Proof.
  intros H. apply forallb_forall. intros x Hx.
  rewrite forallb_forall in H. apply H.
  eapply Permutation_in; [apply Permutation_sym, sort_by_perm|exact Hx].
Qed.

(** ** Tables *)

Lemma find_set_same name t : forall db, find_table name (set_table name t db) = Some t.
Proof.
  induction db as [|[n t0] db IH]; simpl.
  - now rewrite String.eqb_refl.
  - destruct (String.eqb n name) eqn:E; simpl; rewrite E; auto.
Qed.

Lemma find_set_other name name' t : forall db,
  name <> name' -> find_table name' (set_table name t db) = find_table name' db.
Proof.
  intros db Hne. induction db as [|[n t0] db IH]; simpl.
  - destruct (String.eqb_spec name name'); congruence.
  - destruct (String.eqb_spec n name) as [->|Hn]; simpl.
    + destruct (String.eqb_spec name name'); congruence.
    + destruct (String.eqb n name'); auto.
Qed.

End SQLFacts.

(* ================================================================== *)
(** * Facts about the store *)
(* ================================================================== *)

Module StoreFacts.
Import GoTime SQL Todo SQLiteStore Props TimeFacts SQLFacts.

(** ** Timestamp texts *)

Lemma Format_truncSecond t : Format (truncSecond t) = Format t.
Proof. reflexivity. Qed.

Lemma validTime_truncSecond t : validTime (truncSecond t) <-> validTime t.
Proof. reflexivity. Qed.

Lemma wf_text_Format t : validTime t -> wf_text (Format t) = true.
Proof.
  intros V. unfold wf_text. rewrite (Parse_Format t V).
  rewrite Format_truncSecond, String.eqb_refl.
  apply validTime_truncSecond in V. unfold validTime in V. now rewrite V.
Qed.

Lemma wf_text_inv s :
  wf_text s = true -> exists t, Parse s = Some t /\ validTime t /\ Format t = s.
Proof.
  unfold wf_text. destruct (Parse s) as [t|]; [|discriminate].
  intros H. apply andb_true_iff in H as [V E]. apply String.eqb_eq in E.
  now exists t.
Qed.

Lemma Parse__Format t : validTime t -> Parse_ (Format t) = truncSecond t.
Proof. intros V. unfold Parse_. now rewrite Parse_Format. Qed.

(** ** The driver *)

Lemma next_fault_ok db :
  no_faults db ->
  exists db', next_fault db = (false, db') /\ file db' = file db /\ no_faults db'.
Proof.
  unfold no_faults, next_fault. destruct db as [f [|b fs]]; simpl.
  - intros _. now exists (mkDB f []).
  - intros H. apply andb_true_iff in H as [Hb Hfs].
    destruct b; [discriminate|]. now exists (mkDB f fs).
Qed.

(** ** Rows of the migrated table *)

Lemma wf_row_shape r :
  wf_row r = true ->
  exists id title desc d p c u cl,
    r = [Integer id; Text title; Text desc; Integer d; Integer p; Text c; Text u; cl] /\
    (d = 0 \/ d = 1) /\ wf_text c = true /\ wf_text u = true /\
    (cl = Null \/ exists s, cl = Text s /\ wf_text s = true).
Proof.
  unfold wf_row.
  destruct r as [|[|id|] [|[| |title] [|[| |desc] [|[|d|] [|[|p|] [|[| |c] [|[| |u] [|cl [|]]]]]]]]];
    try discriminate.
  intros H. repeat (apply andb_true_iff in H as [H ?]).
  exists id, title, desc, d, p, c, u, cl. repeat split; auto.
  - apply orb_true_iff in H as [H|H]; apply Z.eqb_eq in H; auto.
  - destruct cl as [|n|s]; [now left|discriminate|right; now exists s].
Qed.

Lemma project_all_columns r :
  wf_row r = true ->
  map (fun c => get_col migrated_columns c r)
      ["id"; "title"; "description"; "done"; "priority"; "created_at"; "updated_at"; "closed_at"]
  = r.
Proof.
  intros H. destruct (wf_row_shape r H) as (id & title & desc & d & p & c & u & cl & -> & _).
  reflexivity.
Qed.

Lemma scan_task_wf r :
  wf_row r = true -> scan_task r = Ok (task_of_row r).
Proof.
  intros H. destruct (wf_row_shape r H) as (id & title & desc & d & p & c & u & cl & -> & _ & _ & _ & Hcl).
  unfold task_of_row.
  destruct Hcl as [->|(s & -> & _)]; reflexivity.
Qed.

Lemma scan_tasks_wf rows : forall acc,
  forallb wf_row rows = true ->
  scan_tasks rows acc = ((acc ++ map task_of_row rows)%list, nil).
Proof.
  induction rows as [|r rows IH]; intros acc H; simpl.
  - now rewrite app_nil_r.
  - simpl in H. apply andb_true_iff in H as [Hr Hrows].
    rewrite (scan_task_wf r Hr). rewrite IH by assumption.
    now rewrite <- app_assoc.
Qed.

(** ** [List] *)

(** On a ready database, with the driver working, [List] gives the rows of
    the table in the order of the query, each as a task. *)
Lemma List_ready (w : World DB) :
  ready (file (backend w)) -> no_faults (backend w) ->
  exists w',
    List w = ((map task_of_row (sort_by list_order (tasks_rows (file (backend w)))), nil), w') /\
    file (backend w') = file (backend w) /\ no_faults (backend w') /\
    clock w' = clock w /\ ticks w' = ticks w.
Proof.
  intros (rows & seq & Hf & Hwf) Hnf.
  destruct (next_fault_ok _ Hnf) as (db' & Hn & Hfile & Hnf').
  exists (mkWorld db' (clock w) (ticks w)).
  unfold List, bind, on_db, db_Query. rewrite Hn. rewrite Hfile.
  unfold select, tasks_rows. rewrite Hf.
  cbn [tbl_columns tbl_rows].
  change (forallb _ _ && forallb _ _) with true. cbv iota.
  unfold ret.
  rewrite (map_ext_in _ (fun r => r)).
  2:{ intros r Hr. apply project_all_columns.
      pose proof (sort_by_forallb (order_compare migrated_columns
             [("done", ASC); ("priority", DESC); ("created_at", ASC)]) wf_row rows Hwf) as S.
      rewrite forallb_forall in S. now apply S. }
  rewrite map_id.
  rewrite scan_tasks_wf by (now apply sort_by_forallb).
  repeat split; auto.
Qed.

(** ** [Create] *)

Lemma notnull_ok_wf r : wf_row r = true -> notnull_ok migrated_columns r = true.
Proof.
  intros H. destruct (wf_row_shape r H) as (id & title & desc & d & p & c & u & cl & -> & _).
  reflexivity.
Qed.

Lemma ready_tasks f rows seq :
  find_table "tasks" f = Some (mkTable migrated_columns rows seq) ->
  tasks_rows f = rows /\ tasks_seq f = seq.
Proof. intros H. unfold tasks_rows, tasks_seq. now rewrite H. Qed.

Lemma wf_created_row t id :
  validTime (CreatedAt t) -> validTime (UpdatedAt t) -> wf_row (created_row t id) = true.
Proof.
  intros V1 V2. unfold created_row, wf_row.
  rewrite (wf_text_Format _ V1), (wf_text_Format _ V2).
  destruct (Done t); reflexivity.
Qed.

Lemma Create_ready (t : Task) (w : World DB) :
  ready (file (backend w)) -> no_faults (backend w) ->
  tasks_seq (file (backend w)) < maxInt64 ->
  exists w',
    Create t w = ((set_ID t (tasks_seq (file (backend w)) + 1), nil), w') /\
    tasks_rows (file (backend w')) =
      (tasks_rows (file (backend w)) ++ [created_row t (tasks_seq (file (backend w)) + 1)])%list /\
    tasks_seq (file (backend w')) = tasks_seq (file (backend w)) + 1 /\
    no_faults (backend w') /\ clock w' = clock w /\ ticks w' = ticks w /\
    (validTime (CreatedAt t) -> validTime (UpdatedAt t) -> ready (file (backend w'))).
Proof.
  intros (rows & seq & Hf & Hwf) Hnf Hseq.
  destruct (ready_tasks _ _ _ Hf) as [Hrows Hs]. rewrite Hrows, Hs in *.
  destruct (next_fault_ok _ Hnf) as (db' & Hn & Hfile & Hnf').
  set (r := created_row t (seq + 1)).
  set (f' := set_table "tasks" (mkTable migrated_columns (rows ++ [r]) (seq + 1))
                       (file (backend w))).
  exists (mkWorld (mkDB f' (faults db')) (clock w) (ticks w)).
  assert (E : Create t w = ((set_ID t (seq + 1), nil),
                            mkWorld (mkDB f' (faults db')) (clock w) (ticks w))).
  { unfold Create, bind, on_db, db_Exec. rewrite Hn.
    unfold exec, insert_row. rewrite Hfile, Hf.
    cbn [tbl_columns tbl_rows tbl_seq].
    change (negb (Nat.eqb _ _)) with false. cbv iota.
    change (negb (forallb _ _)) with false. cbv iota.
    destruct (Z.leb_spec maxInt64 seq); [lia|].
    change (new_row migrated_columns _ (seq + 1)) with r.
    change (notnull_ok migrated_columns r) with true. cbv iota.
    reflexivity. }
  split; [exact E|].
  assert (Hf' : find_table "tasks" f' = Some (mkTable migrated_columns (rows ++ [r]) (seq + 1)))
    by apply find_set_same.
  destruct (ready_tasks _ _ _ Hf') as [Hrows' Hs'].
  cbn [backend file clock ticks]. rewrite Hrows', Hs'.
  repeat split; auto.
  intros V1 V2. exists (rows ++ [r])%list, (seq + 1). split; [exact Hf'|].
  rewrite forallb_app, Hwf. cbn [forallb andb]. subst r.
  now rewrite (wf_created_row t (seq + 1) V1 V2).
Qed.

(** ** [Update] *)

Lemma Update_task (t : Task) (w : World DB) :
  fst (fst (Update t w)) = stamped (clock w (ticks w)) t.
Proof.
  unfold Update, bind, time_Now, stamped.
  destruct (Done t); [destruct (ClosedAt t)|];
    cbn -[on_db db_Exec];
    match goal with |- context [on_db ?f ?w] => destruct (on_db f w) as [[?|?] ?] end;
    reflexivity.
Qed.

(** [Update] is one statement, bound to the task as stamped. *)
Lemma Update_unfold (t : Task) (w : World DB) :
  Update t w =
  let t' := stamped (clock w (ticks w)) t in
  match on_db (db_Exec (UpdateSet "tasks" (update_sets t') (Some ("id", Integer (ID t')))))
              (mkWorld (backend w) (clock w) (S (ticks w))) with
  | (Err e, w') => ((t', Some e), w')
  | (Ok _, w') => ((t', nil), w')
  end.
Proof.
  unfold Update, bind, time_Now, stamped, update_sets, closed_value.
  destruct (Done t) eqn:D; [destruct (ClosedAt t) eqn:C|];
    cbn -[on_db db_Exec]; rewrite ?D, ?C;
    match goal with |- context [on_db ?f ?w] => destruct (on_db f w) as [[?|?] ?] end;
    reflexivity.
Qed.

Lemma matches_id id r :
  wf_row r = true ->
  matches migrated_columns (Some ("id", Integer id)) r = has_id id r.
Proof.
  intros H. destruct (wf_row_shape r H) as (i & title & desc & d & p & c & u & cl & -> & _).
  reflexivity.
Qed.

Lemma assign_row_update t r :
  wf_row r = true ->
  assign_row migrated_columns (update_sets t) r = updated_row t r.
Proof.
  intros H. destruct (wf_row_shape r H) as (i & title & desc & d & p & c & u & cl & -> & _).
  unfold update_sets, updated_row, closed_value. reflexivity.
Qed.

Lemma wf_updated_row t r :
  wf_row r = true ->
  validTime (UpdatedAt t) ->
  (forall c, ClosedAt t = Some c -> validTime c) ->
  wf_row (updated_row t r) = true.
Proof.
  intros H V Vc.
  destruct (wf_row_shape r H) as (i & title & desc & d & p & c & u & cl & -> & _ & Hc & _).
  unfold updated_row, wf_row. rewrite Hc, (wf_text_Format _ V).
  destruct (ClosedAt t) as [ts|]; [rewrite (wf_text_Format ts (Vc ts eq_refl))|];
    destruct (Done t); reflexivity.
Qed.

Lemma Update_ready (t : Task) (w : World DB) :
  ready (file (backend w)) -> no_faults (backend w) ->
  let t' := stamped (clock w (ticks w)) t in
  exists w',
    Update t w = ((t', nil), w') /\
    tasks_rows (file (backend w')) =
      map (fun r => if has_id (ID t) r then updated_row t' r else r)
          (tasks_rows (file (backend w))) /\
    tasks_seq (file (backend w')) = tasks_seq (file (backend w)) /\
    no_faults (backend w') /\ clock w' = clock w /\ ticks w' = S (ticks w) /\
    (validTime (UpdatedAt t) -> (forall c, ClosedAt t' = Some c -> validTime c) ->
     ready (file (backend w'))).
Proof.
  intros (rows & seq & Hf & Hwf) Hnf t'.
  destruct (ready_tasks _ _ _ Hf) as [Hrows Hs]. rewrite Hrows, Hs.
  destruct (next_fault_ok _ Hnf) as (db' & Hn & Hfile & Hnf').
  set (rows' := map (fun r => if has_id (ID t) r then updated_row t' r else r) rows).
  set (f' := set_table "tasks" (mkTable migrated_columns rows' seq) (file (backend w))).
  assert (IDt : ID t' = ID t).
  { subst t'. unfold stamped. destruct (Done t); [destruct (ClosedAt t)|]; reflexivity. }
  assert (Hmap : map (fun r => if matches migrated_columns (Some ("id", Integer (ID t'))) r
                               then assign_row migrated_columns (update_sets t') r else r) rows
                 = rows').
  { subst rows'. apply map_ext_in. intros r Hr.
    rewrite forallb_forall in Hwf. specialize (Hwf r Hr).
    rewrite matches_id, assign_row_update, IDt by assumption. reflexivity. }
  assert (Hnn : forallb (notnull_ok migrated_columns) rows' = true).
  { subst rows'. rewrite forallb_forall. intros r Hr. apply in_map_iff in Hr as (r0 & <- & Hr0).
    rewrite forallb_forall in Hwf. specialize (Hwf r0 Hr0).
    destruct (has_id (ID t) r0); [|now apply notnull_ok_wf].
    destruct (wf_row_shape r0 Hwf) as (i & title & desc & d & p & c & u & cl & -> & _).
    unfold updated_row. destruct (ClosedAt t'); reflexivity. }
  exists (mkWorld (mkDB f' (faults db')) (clock w) (S (ticks w))).
  assert (E : Update t w = ((t', nil), mkWorld (mkDB f' (faults db')) (clock w) (S (ticks w)))).
  { rewrite Update_unfold. fold t'. cbv zeta.
    unfold on_db, db_Exec. cbn [backend clock ticks]. rewrite Hn.
    unfold exec. rewrite Hfile, Hf. cbn [tbl_columns tbl_rows tbl_seq].
    change (negb (forallb _ (update_sets t') && where_ok _ _)) with false. cbv iota.
    rewrite Hmap, Hnn. reflexivity. }
  split; [exact E|].
  assert (Hf' : find_table "tasks" f' = Some (mkTable migrated_columns rows' seq))
    by apply find_set_same.
  destruct (ready_tasks _ _ _ Hf') as [Hrows' Hs'].
  cbn [backend file clock ticks]. rewrite Hrows', Hs'.
  repeat split; auto.
  intros V Vc. exists rows', seq. split; [exact Hf'|].
  subst rows'. rewrite forallb_forall. intros r Hr. apply in_map_iff in Hr as (r0 & <- & Hr0).
  rewrite forallb_forall in Hwf. specialize (Hwf r0 Hr0).
  destruct (has_id (ID t) r0); [|assumption].
  apply wf_updated_row; auto.
  subst t'. unfold stamped. destruct (Done t); [destruct (ClosedAt t)|]; exact V.
Qed.

(** When the driver fails, the file stays and the error comes back. *)
Lemma Update_fault (t : Task) (w : World DB) fs :
  faults (backend w) = true :: fs ->
  Update t w = ((stamped (clock w (ticks w)) t, Some driver_error),
                mkWorld (mkDB (file (backend w)) fs) (clock w) (S (ticks w))).
Proof.
  intros Hf. rewrite Update_unfold. cbv zeta.
  unfold on_db, db_Exec, next_fault. cbn [backend clock ticks]. rewrite Hf. reflexivity.
Qed.

Lemma db_Exec_world s db e db' :
  db_Exec s db = (Err e, db') -> file db' = file db.
Proof.
  unfold db_Exec, next_fault.
  destruct (faults db) as [|[|] fs]; cbn [file faults].
  - destruct (exec s (file db)) as [[res f]|msg]; intros H; inversion H; subst; reflexivity.
  - intros H; inversion H; subst; reflexivity.
  - destruct (exec s (file db)) as [[res f]|msg]; intros H; inversion H; subst; reflexivity.
Qed.

Lemma Update_world (t : Task) (w : World DB) :
  clock (snd (Update t w)) = clock w /\ ticks (snd (Update t w)) = S (ticks w).
Proof.
  rewrite Update_unfold. cbv zeta. unfold on_db. cbn [backend clock ticks].
  destruct (db_Exec _ (backend w)) as [[res|e] db']; split; reflexivity.
Qed.

Lemma Update_error_file (t : Task) (w : World DB) t' e w' :
  Update t w = ((t', Some e), w') -> file (backend w') = file (backend w).
Proof.
  rewrite Update_unfold. cbv zeta. unfold on_db. cbn [backend clock ticks].
  destruct (db_Exec _ (backend w)) as [[res|msg] db'] eqn:E; intros [= <- <- <-].
  cbn [backend]. eapply db_Exec_world. exact E.
Qed.

Lemma stamped_fields now t :
  ID (stamped now t) = ID t /\ Title (stamped now t) = Title t /\
  Description (stamped now t) = Description t /\ Done (stamped now t) = Done t /\
  Priority (stamped now t) = Priority t /\ CreatedAt (stamped now t) = CreatedAt t /\
  UpdatedAt (stamped now t) = UpdatedAt t.
Proof.
  unfold stamped. destruct (Done t) eqn:D; [destruct (ClosedAt t)|]; cbn; repeat split; auto.
Qed.

(** ** [Delete] *)

Lemma Delete_ready (id : Z) (w : World DB) :
  ready (file (backend w)) -> no_faults (backend w) ->
  exists w',
    Delete id w = (nil, w') /\
    tasks_rows (file (backend w')) =
      filter (fun r => negb (has_id id r)) (tasks_rows (file (backend w))) /\
    ready (file (backend w')) /\ no_faults (backend w') /\
    clock w' = clock w /\ ticks w' = ticks w.
Proof.
  intros (rows & seq & Hf & Hwf) Hnf.
  destruct (ready_tasks _ _ _ Hf) as [Hrows _]. rewrite Hrows.
  destruct (next_fault_ok _ Hnf) as (db' & Hn & Hfile & Hnf').
  set (rows' := filter (fun r => negb (has_id id r)) rows).
  set (f' := set_table "tasks" (mkTable migrated_columns rows' seq) (file (backend w))).
  assert (Hfilter : filter (fun r => negb (matches migrated_columns (Some ("id", Integer id)) r))
                           rows = rows').
  { subst rows'. apply filter_ext_in. intros r Hr.
    rewrite forallb_forall in Hwf. now rewrite matches_id by auto. }
  exists (mkWorld (mkDB f' (faults db')) (clock w) (ticks w)).
  assert (Hf' : find_table "tasks" f' = Some (mkTable migrated_columns rows' seq))
    by apply find_set_same.
  destruct (ready_tasks _ _ _ Hf') as [Hrows' _].
  cbn [backend file clock ticks]. rewrite Hrows'.
  split.
  - unfold Delete, bind, on_db, db_Exec. rewrite Hn.
    unfold exec. rewrite Hfile, Hf. cbn [tbl_columns tbl_rows tbl_seq].
    change (negb (where_ok migrated_columns (Some ("id", Integer id)))) with false. cbv iota.
    rewrite Hfilter. reflexivity.
  - repeat split; auto. exists rows', seq. split; [exact Hf'|].
    subst rows'. rewrite forallb_forall in *. intros r Hr.
    apply filter_In in Hr as [Hr _]. now apply Hwf.
Qed.

(** The service calls in terms of the store's [Update]. *)
Lemma Toggle_unfold (t : Task) (w : World DB) :
  Service.Toggle t w =
  Update (set_UpdatedAt (set_Done t (negb (Done t))) (clock w (ticks w)))
         (mkWorld (backend w) (clock w) (S (ticks w))).
Proof. reflexivity. Qed.

Lemma Edit_unfold (t : Task) title description priority (w : World DB) :
  Service.Edit t title description priority w =
  Update (set_UpdatedAt (set_Priority (set_Description (set_Title t title) description) priority)
                        (clock w (ticks w)))
         (mkWorld (backend w) (clock w) (S (ticks w))).
Proof. reflexivity. Qed.

End StoreFacts.

(* ================================================================== *)
(** * Facts about the migrations *)
(* ================================================================== *)

Module MigrateFacts.
Import GoTime SQL Todo SQLiteStore Props SQLFacts StoreFacts.

(** ** The driver calls of a transaction *)

Lemma next_fault_file db : file (snd (next_fault db)) = file db.
Proof. unfold next_fault. destruct (faults db); reflexivity. Qed.

Lemma db_Begin_spec db r db1 :
  db_Begin db = (r, db1) ->
  file db1 = file db /\ (forall tx, r = Ok tx -> tx = file db).
Proof.
  unfold db_Begin. pose proof (next_fault_file db) as F.
  destruct (next_fault db) as [[|] d]; cbn [snd] in F; intros [= <- <-]; split; auto;
    intros tx [= <-]; congruence.
Qed.

Lemma tx_Exec_spec s tx db r tx1 db1 :
  tx_Exec s tx db = (r, tx1, db1) ->
  file db1 = file db /\
  (forall res, r = Ok res -> exec s tx = Ok (res, tx1)).
Proof.
  unfold tx_Exec. pose proof (next_fault_file db) as F.
  destruct (next_fault db) as [[|] d]; cbn [snd] in F.
  - intros [= <- <- <-]. split; [assumption|discriminate].
  - destruct (exec s tx) as [[res f]|e]; intros [= <- <- <-]; split; auto;
      intros res' [= <-]; try discriminate; reflexivity.
Qed.

Lemma tx_Commit_spec tx db e db1 :
  tx_Commit tx db = (e, db1) ->
  match e with
  | None => file db1 = tx
  | Some _ => file db1 = file db
  end.
Proof.
  unfold tx_Commit. pose proof (next_fault_file db) as F.
  destruct (next_fault db) as [[|] d]; cbn [snd] in F; intros [= <- <-]; auto.
Qed.

Lemma read_version_spec db r db1 :
  read_version db = (r, db1) ->
  file db1 = file db /\ (forall v, r = Ok v -> stored_version (file db) = Some v).
Proof.
  unfold read_version, db_Query, stored_version. pose proof (next_fault_file db) as F.
  destruct (next_fault db) as [[|] d]; cbn [snd] in F.
  - intros [= <- <-]. split; [assumption|discriminate].
  - rewrite F. destruct (select ["version"] "schema_version" [] (file db)) as [[|row rows]|e];
      intros [= <- <-]; split; auto; try discriminate.
    intros v Hv. now rewrite Hv.
Qed.

(** ** The loop *)

Section Loop.
Variable ms : list stmt.

Lemma pending_cons (i : Z) (n : nat) :
  0 <= i -> S n = (List.length ms - Z.to_nat i)%nat ->
  exists m, nth_error ms (Z.to_nat i) = Some m /\
            skipn (Z.to_nat i) ms = m :: skipn (Z.to_nat (i + 1)) ms /\
            n = (List.length ms - Z.to_nat (i + 1))%nat.
Proof.
  intros Hi Hn.
  assert (Hlt : (Z.to_nat i < List.length ms)%nat) by lia.
  destruct (nth_error ms (Z.to_nat i)) as [m|] eqn:E.
  - exists m. split; [reflexivity|]. split; [|lia].
    replace (Z.to_nat (i + 1)) with (S (Z.to_nat i)) by lia.
    clear Hn Hi. revert E Hlt. generalize (Z.to_nat i). clear i.
    induction ms as [|a l IH]; intros k E Hlt; [simpl in Hlt; lia|].
    destruct k as [|k]; simpl in *.
    + now injection E as ->.
    + apply IH; [exact E|lia].
  - apply nth_error_None in E. lia.
Qed.

(** Whatever the driver meets, the file is left with a whole number of
    the pending steps carried out in full. *)
Lemma migrate_loop_atomic (n : nat) : forall (i : Z) (db : DB) out db',
  0 <= i -> n = (List.length ms - Z.to_nat i)%nat ->
  migrate_loop ms n i db = (out, db') ->
  exists k : nat,
    (k <= n)%nat /\
    steps_tx i (firstn k (skipn (Z.to_nat i) ms)) (file db) = Ok (file db') /\
    (out = Success -> k = n) /\
    ((k < n)%nat -> exists msg, out = Failure msg) /\
    (forall msg, out <> Panic msg).
Proof.
  induction n as [|n IH]; intros i db out db' Hi Hn.
  - simpl. intros [= <- <-]. exists O. repeat split; auto; try lia; discriminate.
  - destruct (pending_cons i n Hi Hn) as (m & Hnth & Hskip & Hn').
    cbn [migrate_loop].
    destruct (db_Begin db) as [[tx|e] db1] eqn:EB;
      destruct (db_Begin_spec _ _ _ EB) as [F1 T1].
    2:{ intros [= <- <-]. exists O. rewrite F1. repeat split; auto; try lia; try discriminate.
        intros _. eexists; reflexivity. }
    specialize (T1 tx eq_refl). subst tx.
    destruct (Z.ltb_spec i 0); [lia|]. rewrite Hnth.
    destruct (tx_Exec m (file db) db1) as [[[res|e] tx1] db2] eqn:E1;
      destruct (tx_Exec_spec _ _ _ _ _ _ E1) as [F2 X1].
    2:{ unfold tx_Rollback. intros [= <- <-]. exists O. rewrite F2, F1.
        repeat split; auto; try lia; try discriminate. intros _. eexists; reflexivity. }
    specialize (X1 res eq_refl).
    destruct (tx_Exec (UpdateSet "schema_version" [("version", Integer (i + 1))] None) tx1 db2)
      as [[[res2|e] tx2] db3] eqn:E2;
      destruct (tx_Exec_spec _ _ _ _ _ _ E2) as [F3 X2].
    2:{ unfold tx_Rollback. intros [= <- <-]. exists O. rewrite F3, F2, F1.
        repeat split; auto; try lia; try discriminate. intros _. eexists; reflexivity. }
    specialize (X2 res2 eq_refl).
    destruct (tx_Commit tx2 db3) as [[e|] db4] eqn:EC;
      pose proof (tx_Commit_spec _ _ _ _ EC) as F4; cbv iota in F4.
    { intros [= <- <-]. exists O. rewrite F4, F3, F2, F1.
      repeat split; auto; try lia; try discriminate. intros _. eexists; reflexivity. }
    intros HL.
    destruct (IH (i + 1) db4 out db' ltac:(lia) Hn' HL) as (k & Hk & Hsteps & Hs & Hf & Hp).
    exists (S k). split; [lia|]. split.
    + rewrite Hskip. cbn [firstn steps_tx]. unfold step_tx. rewrite X1, X2.
      rewrite <- F4. exact Hsteps.
    + split; [intros E; rewrite (Hs E); reflexivity|].
      split; [intros Hlt; apply Hf; lia|exact Hp].
Qed.

(** With the driver working, the pending steps that succeed are all
    carried out. *)
Lemma migrate_loop_complete (n : nat) : forall (i : Z) (db : DB) f',
  0 <= i -> n = (List.length ms - Z.to_nat i)%nat ->
  no_faults db ->
  steps_tx i (skipn (Z.to_nat i) ms) (file db) = Ok f' ->
  exists db', migrate_loop ms n i db = (Success, db') /\ file db' = f' /\ no_faults db'.
Proof.
  induction n as [|n IH]; intros i db f' Hi Hn Hnf Hsteps.
  - assert (E : skipn (Z.to_nat i) ms = []) by (apply skipn_all2; lia).
    rewrite E in Hsteps. injection Hsteps as <-. now exists db.
  - destruct (pending_cons i n Hi Hn) as (m & Hnth & Hskip & Hn').
    rewrite Hskip in Hsteps. cbn [steps_tx] in Hsteps. unfold step_tx in Hsteps.
    destruct (exec m (file db)) as [[res f1]|e] eqn:X1; [|discriminate].
    destruct (exec (UpdateSet "schema_version" [("version", Integer (i + 1))] None) f1)
      as [[res2 f2]|e] eqn:X2; [|discriminate].
    cbn [migrate_loop]. unfold db_Begin.
    destruct (next_fault_ok db Hnf) as (db1 & N1 & F1 & Hnf1). rewrite N1.
    destruct (Z.ltb_spec i 0); [lia|]. rewrite Hnth.
    unfold tx_Exec.
    destruct (next_fault_ok db1 Hnf1) as (db2 & N2 & F2 & Hnf2). rewrite N2, F1, X1.
    destruct (next_fault_ok db2 Hnf2) as (db3 & N3 & F3 & Hnf3). rewrite N3, X2.
    unfold tx_Commit.
    destruct (next_fault_ok db3 Hnf3) as (db4 & N4 & F4 & Hnf4). rewrite N4.
    apply (IH (i + 1) (mkDB f2 (faults db4)) f'); auto; try lia.
Qed.

End Loop.

(** ** The stored version *)

Lemma sort_by_no_keys cols l : sort_by (order_compare cols []) l = l.
Proof.
  unfold sort_by. induction l as [|x l IH]; [reflexivity|].
  cbn [fold_right]. rewrite IH. destruct l; reflexivity.
Qed.

(** What [stored_version] reads: the [version] column of the first row. *)
Lemma stored_version_inv f v :
  stored_version f = Some v <->
  exists t r rows,
    find_table "schema_version" f = Some t /\
    has_column "version" (tbl_columns t) = true /\
    tbl_rows t = r :: rows /\
    get_col (tbl_columns t) "version" r = Integer v.
Proof.
  unfold stored_version, select.
  destruct (find_table "schema_version" f) as [t|]; [|split; [discriminate|]].
  2:{ intros (t & r & rows & H & _). discriminate. }
  cbn [forallb fst]. rewrite !andb_true_r. rewrite sort_by_no_keys.
  destruct (has_column "version" (tbl_columns t)) eqn:Hc.
  2:{ split; [discriminate|]. intros (t' & r & rows & [= <-] & H & _). congruence. }
  destruct (tbl_rows t) as [|r rows] eqn:Hr.
  { split; [discriminate|]. intros (t' & r & rows & [= <-] & _ & H & _). congruence. }
  cbn [map nth].
  split.
  - destruct (get_col (tbl_columns t) "version" r) as [|n|s] eqn:G; try discriminate.
    intros [= <-]. exists t, r, rows. auto.
  - intros (t' & r' & rows' & [= <-] & _ & Hr' & G).
    rewrite Hr in Hr'. injection Hr' as <- <-. now rewrite G.
Qed.

Lemma get_col_assign cols name v' sets : forall r i,
  col_index name cols = Some i -> (i < List.length r)%nat ->
  assoc name sets = Some v' ->
  get_col cols name (assign_row cols sets r) = v'.
Proof.
  unfold get_col.
  induction cols as [|c cols IH]; intros r i Hi Hlen Ha; [discriminate|].
  simpl in Hi. destruct r as [|x r]; [simpl in Hlen; lia|].
  cbn [assign_row col_index].
  destruct (String.eqb_spec (col_name c) name) as [->|Hne].
  - rewrite Ha. reflexivity.
  - destruct (col_index name cols) as [j|] eqn:Ej; [|discriminate].
    injection Hi as <-. cbn [option_map nth].
    assert (Hj : (j < List.length r)%nat) by (simpl in Hlen; lia).
    exact (IH r j eq_refl Hj Ha).
Qed.

Lemma get_col_Integer_length cols name r v i :
  col_index name cols = Some i -> get_col cols name r = Integer v ->
  (i < List.length r)%nat.
Proof.
  unfold get_col. intros -> H.
  destruct (Nat.ltb_spec i (List.length r)); [assumption|].
  rewrite nth_overflow in H by assumption. discriminate.
Qed.

(** The version update sets what [stored_version] reads. *)
Lemma stored_version_update f v i res f' :
  stored_version f = Some v ->
  exec (UpdateSet "schema_version" [("version", Integer i)] None) f = Ok (res, f') ->
  stored_version f' = Some i.
Proof.
  intros Hv. apply stored_version_inv in Hv as (t & r & rows & Hf & Hc & Hr & G).
  unfold exec. rewrite Hf. cbn [forallb fst where_ok matches].
  rewrite Hc. cbn [andb negb]. rewrite Hr. cbn [map].
  destruct (forallb _ _); [|discriminate]. intros [= _ <-].
  apply stored_version_inv.
  eexists _, _, _. split; [apply find_set_same|]. cbn [tbl_columns tbl_rows].
  split; [exact Hc|]. split; [reflexivity|].
  unfold has_column in Hc. destruct (col_index "version" (tbl_columns t)) as [j|] eqn:Ej;
    [|discriminate].
  apply (get_col_assign _ _ _ _ r j Ej).
  - eapply get_col_Integer_length; eauto.
  - reflexivity.
Qed.

Lemma exec_other_table s f res f' name :
  exec s f = Ok (res, f') -> stmt_table s <> name ->
  find_table name f' = find_table name f.
Proof.
  intros H Hne. destruct s as [n cols|n c|n cols vals|n cols vals|n sets wh|n wh];
    cbn [stmt_table] in Hne; cbn [exec] in H; unfold insert_row in H;
    destruct (find_table n f) as [t|] eqn:Hf; try discriminate.
  - now injection H as _ <-.
  - injection H as _ <-. now apply find_set_other.
  - destruct (has_column _ _); [discriminate|].
    destruct (col_notnull c && _); [discriminate|].
    injection H as _ <-. now apply find_set_other.
  - destruct (negb (Nat.eqb _ _)); [discriminate|].
    destruct (negb (forallb _ cols)); [discriminate|].
    destruct (maxInt64 <=? tbl_seq t); [discriminate|].
    destruct (notnull_ok _ _); [|discriminate].
    injection H as _ <-. now apply find_set_other.
  - destruct (tbl_rows t); [|now injection H as _ <-].
    destruct (negb (Nat.eqb _ _)); [discriminate|].
    destruct (negb (forallb _ cols)); [discriminate|].
    destruct (maxInt64 <=? tbl_seq t); [discriminate|].
    destruct (notnull_ok _ _); [|discriminate].
    injection H as _ <-. now apply find_set_other.
  - destruct (negb _); [discriminate|].
    destruct (forallb _ _); [|discriminate].
    injection H as _ <-. now apply find_set_other.
  - destruct (negb _); [discriminate|].
    injection H as _ <-. now apply find_set_other.
Qed.

Lemma stored_version_ext f f' :
  find_table "schema_version" f' = find_table "schema_version" f ->
  stored_version f' = stored_version f.
Proof. intros H. unfold stored_version, select. now rewrite H. Qed.

(** A step that leaves the version table alone advances the version. *)
Lemma stored_version_step i m f f' v :
  stmt_table m <> "schema_version" ->
  stored_version f = Some v ->
  step_tx i m f = Ok f' -> stored_version f' = Some (i + 1).
Proof.
  intros Hm Hv. unfold step_tx.
  destruct (exec m f) as [[res f1]|e] eqn:X1; [|discriminate].
  destruct (exec (UpdateSet _ _ _) f1) as [[res2 f2]|e] eqn:X2; [|discriminate].
  intros [= <-].
  eapply stored_version_update; [|exact X2].
  rewrite (stored_version_ext f f1); [exact Hv|].
  eapply exec_other_table; eauto.
Qed.

Lemma stored_version_steps ms : forall i f f' v,
  Forall (fun m => stmt_table m <> "schema_version") ms ->
  stored_version f = Some v -> (ms = [] -> v = i) ->
  steps_tx i ms f = Ok f' ->
  stored_version f' = Some (i + Z.of_nat (List.length ms)).
Proof.
  induction ms as [|m ms IH]; intros i f f' v Hall Hv Hnil Hs.
  - simpl in *. injection Hs as <-. rewrite Hv, (Hnil eq_refl). f_equal. lia.
  - cbn [steps_tx] in Hs. destruct (step_tx i m f) as [f1|e] eqn:S1; [|discriminate].
    inversion Hall as [|? ? Hm Hms]; subst.
    pose proof (stored_version_step i m f f1 v Hm Hv S1) as V1.
    rewrite (IH (i + 1) f1 f' (i + 1) Hms V1 (fun _ => eq_refl) Hs).
    f_equal. cbn [List.length]. lia.
Qed.

(** ** Opening *)

Lemma db_Exec_ok s db res f' :
  no_faults db -> exec s (file db) = Ok (res, f') ->
  exists db1, db_Exec s db = (Ok res, db1) /\ file db1 = f' /\ no_faults db1.
Proof.
  intros Hnf X. destruct (next_fault_ok db Hnf) as (d & N & F & Hnf').
  unfold db_Exec. rewrite N, F, X. now eexists.
Qed.

Lemma db_ExecScript_ok script : forall db f0,
  no_faults db -> run_script script (file db) = Ok f0 ->
  exists res db1, db_ExecScript script db = (Ok res, db1) /\ file db1 = f0 /\ no_faults db1.
Proof.
  induction script as [|s rest IH]; intros db f0 Hnf Hrun.
  - cbn [run_script] in Hrun. injection Hrun as <-.
    exists (mkExecResult 0 0), db. repeat split. exact Hnf.
  - cbn [run_script] in Hrun. destruct (exec s (file db)) as [[res f1]|e] eqn:X; [|discriminate].
    destruct (db_Exec_ok s db res f1 Hnf X) as (db1 & HE & F1 & Hnf1).
    destruct rest as [|s' rest'].
    + cbn [run_script] in Hrun. injection Hrun as <-. cbn [db_ExecScript].
      exists res, db1. repeat split; assumption.
    + change (db_ExecScript (s :: s' :: rest') db)
        with (match db_Exec s db with
              | (Ok _, db) => db_ExecScript (s' :: rest') db
              | (Err e, db) => (Err e, db)
              end).
      rewrite HE. apply IH; [assumption|]. now rewrite F1.
Qed.

Lemma read_version_ok db v :
  no_faults db -> stored_version (file db) = Some v ->
  exists db1, read_version db = (Ok v, db1) /\ file db1 = file db /\ no_faults db1.
Proof.
  intros Hnf Hv. destruct (next_fault_ok db Hnf) as (d & N & F & Hnf').
  exists d. unfold read_version, db_Query. rewrite N, F.
  unfold stored_version in Hv.
  destruct (select ["version"] "schema_version" [] (file db)) as [[|r rows]|e];
    try discriminate.
  destruct (scan_int (nth 0 r Null)); [|discriminate]. injection Hv as ->. auto.
Qed.

Lemma bootstrap_existing f t v :
  find_table "tasks" f = Some t -> stored_version f = Some v -> bootstrap f = Ok f.
Proof.
  intros Ht Hv. apply stored_version_inv in Hv as (tv & r & rows & Hf & _ & Hr & _).
  unfold bootstrap, initialSchema. cbn [run_script exec].
  rewrite Ht. cbv iota. rewrite Hf. cbv iota. rewrite Hf, Hr. reflexivity.
Qed.

Lemma bootstrap_fresh f0 : bootstrap [] = Ok f0 -> stored_version f0 = Some 0.
Proof. intros H. vm_compute in H. injection H as <-. reflexivity. Qed.

Lemma migrate_with_complete ms db v f' :
  no_faults db -> stored_version (file db) = Some v -> 0 <= v ->
  steps_tx v (skipn (Z.to_nat v) ms) (file db) = Ok f' ->
  exists db', migrate_with ms db = (Success, db') /\ file db' = f' /\ no_faults db'.
Proof.
  intros Hnf Hv H0 Hs.
  destruct (read_version_ok db v Hnf Hv) as (db1 & HR & F1 & Hnf1).
  unfold migrate_with. rewrite HR.
  apply migrate_loop_complete; auto; [lia|now rewrite F1].
Qed.

(** Opening a fresh file, with the driver working, gives a ready database. *)
Lemma New_fresh_ready (db : DB) :
  file db = [] -> no_faults db ->
  exists db', New db = (Success, db') /\ file db' = file (opened fresh) /\
              ready (file db') /\ no_faults db'.
Proof.
  intros Hf Hnf.
  assert (Hb : run_script initialSchema (file db) = Ok bootstrapped)
    by (rewrite Hf; vm_compute; reflexivity).
  destruct (db_ExecScript_ok initialSchema db bootstrapped Hnf Hb) as (res & db1 & HE & F1 & Hnf1).
  assert (Hv : stored_version (file db1) = Some 0) by (rewrite F1; vm_compute; reflexivity).
  assert (Hs : steps_tx 0 (skipn (Z.to_nat 0) migrations) (file db1) = Ok (file (opened fresh)))
    by (rewrite F1; vm_compute; reflexivity).
  destruct (migrate_with_complete migrations db1 0 _ Hnf1 Hv ltac:(lia) Hs)
    as (db' & HM & F' & Hnf').
  exists db'. unfold New, New_with. rewrite HE, HM.
  split; [reflexivity|]. split; [exact F'|]. split; [|exact Hnf'].
  rewrite F'. eexists _, _. split; [vm_compute; reflexivity|]. vm_compute. reflexivity.
Qed.

End MigrateFacts.

(* ================================================================== *)
(** * Facts about sessions *)
(* ================================================================== *)

Module SessionFacts.
Import GoTime SQL Todo SQLiteStore Props TimeFacts SQLFacts StoreFacts MigrateFacts.

(** ** What one statement does to a ready database *)

Lemma db_Exec_cases s db r db' :
  db_Exec s db = (r, db') ->
  (file db' = file db /\ exists e, r = Err e) \/
  (exists res, r = Ok res /\ exec s (file db) = Ok (res, file db')).
Proof.
  unfold db_Exec. pose proof (next_fault_file db) as F.
  destruct (next_fault db) as [[|] d]; cbn [snd] in F.
  - intros [= <- <-]. left. split; [assumption|]. now eexists.
  - rewrite F. destruct (exec s (file db)) as [[res f]|e]; intros [= <- <-].
    + right. exists res. split; reflexivity.
    + left. split; [assumption|]. now eexists.
Qed.

Lemma exec_insert_ready f t res f' :
  ready f -> validTime (CreatedAt t) -> validTime (UpdatedAt t) ->
  exec (InsertInto "tasks"
          ["title"; "description"; "done"; "priority"; "created_at"; "updated_at"; "closed_at"]
          [Text (Title t); Text (Description t); Integer (boolToInt (Done t));
           Integer (Priority t); Text (Format (CreatedAt t)); Text (Format (UpdatedAt t)); Null]) f
    = Ok (res, f') ->
  ready f'.
Proof.
  intros (rows & seq & Hf & Hwf) V1 V2. unfold exec, insert_row. rewrite Hf.
  cbn [tbl_columns tbl_rows tbl_seq].
  change (negb (Nat.eqb _ _)) with false. cbv iota.
  change (negb (forallb _ _)) with false. cbv iota.
  destruct (maxInt64 <=? seq); [discriminate|].
  change (new_row migrated_columns _ (seq + 1)) with (created_row t (seq + 1)).
  change (notnull_ok migrated_columns (created_row t (seq + 1))) with true. cbv iota.
  intros [= _ <-].
  exists (rows ++ [created_row t (seq + 1)])%list, (seq + 1).
  split; [apply find_set_same|].
  rewrite forallb_app, Hwf. cbn [forallb andb].
  now rewrite (wf_created_row t (seq + 1) V1 V2).
Qed.

Lemma exec_update_ready f t res f' :
  ready f -> validTime (UpdatedAt t) -> (forall c, ClosedAt t = Some c -> validTime c) ->
  exec (UpdateSet "tasks" (update_sets t) (Some ("id", Integer (ID t)))) f = Ok (res, f') ->
  ready f'.
Proof.
  intros (rows & seq & Hf & Hwf) V Vc.
  set (rows' := map (fun r => if has_id (ID t) r then updated_row t r else r) rows).
  assert (Hmap : map (fun r => if matches migrated_columns (Some ("id", Integer (ID t))) r
                               then assign_row migrated_columns (update_sets t) r else r) rows
                 = rows').
  { subst rows'. apply map_ext_in. intros r Hr.
    rewrite forallb_forall in Hwf. specialize (Hwf r Hr).
    rewrite matches_id, assign_row_update by assumption. reflexivity. }
  unfold exec. rewrite Hf. cbn [tbl_columns tbl_rows tbl_seq].
  change (negb (forallb _ (update_sets t) && where_ok _ _)) with false. cbv iota.
  rewrite Hmap.
  destruct (forallb (notnull_ok migrated_columns) rows'); [|discriminate].
  intros [= _ <-].
  exists rows', seq. split; [apply find_set_same|].
  subst rows'. rewrite forallb_forall. intros r Hr. apply in_map_iff in Hr as (r0 & <- & Hr0).
  rewrite forallb_forall in Hwf. specialize (Hwf r0 Hr0).
  destruct (has_id (ID t) r0); [|assumption].
  now apply wf_updated_row.
Qed.

Lemma exec_delete_ready f id res f' :
  ready f -> exec (DeleteFrom "tasks" (Some ("id", Integer id))) f = Ok (res, f') -> ready f'.
Proof.
  intros (rows & seq & Hf & Hwf). unfold exec. rewrite Hf.
  cbn [tbl_columns tbl_rows tbl_seq].
  change (negb (where_ok migrated_columns (Some ("id", Integer id)))) with false. cbv iota.
  intros [= _ <-].
  eexists _, seq. split; [apply find_set_same|].
  rewrite forallb_forall in *. intros r Hr. apply filter_In in Hr as [Hr _]. now apply Hwf.
Qed.

(** ** What one call does to a ready world, whatever the driver meets *)

Lemma on_db_Exec_world s (w : World DB) :
  clock (snd (on_db (db_Exec s) w)) = clock w /\
  ticks (snd (on_db (db_Exec s) w)) = ticks w.
Proof. unfold on_db. destruct (db_Exec s (backend w)); split; reflexivity. Qed.

Lemma Create_keeps_ready (t : Task) (w : World DB) :
  ready (file (backend w)) -> validTime (CreatedAt t) -> validTime (UpdatedAt t) ->
  ready (file (backend (snd (Create t w)))) /\
  clock (snd (Create t w)) = clock w /\ ticks (snd (Create t w)) = ticks w /\
  ClosedAt (fst (fst (Create t w))) = ClosedAt t.
Proof.
  intros Hr V1 V2. unfold Create, bind, on_db.
  destruct (db_Exec _ (backend w)) as [r db'] eqn:E.
  destruct (db_Exec_cases _ _ _ _ E) as [[F (e & ->)]|(res & -> & X)]; cbn.
  - rewrite F. auto.
  - split; [|auto]. eapply exec_insert_ready; eauto.
Qed.

Lemma stamped_closed_valid now t :
  validTime now -> closed_valid t -> closed_valid (stamped now t).
Proof.
  intros Vn Vc c. unfold stamped.
  destruct (Done t); [destruct (ClosedAt t) eqn:C|]; cbn.
  - apply Vc.
  - intros [= <-]. exact Vn.
  - discriminate.
Qed.

Lemma Update_keeps_ready (t : Task) (w : World DB) :
  ready (file (backend w)) -> validTime (UpdatedAt t) -> closed_valid t ->
  validTime (clock w (ticks w)) ->
  ready (file (backend (snd (Update t w)))) /\
  clock (snd (Update t w)) = clock w /\
  closed_valid (fst (fst (Update t w))).
Proof.
  intros Hr V Vc Vn.
  pose proof (stamped_closed_valid _ _ Vn Vc) as Vc'.
  destruct (stamped_fields (clock w (ticks w)) t) as (Hid & _ & _ & _ & _ & _ & HU).
  rewrite Update_unfold. cbv zeta. unfold on_db. cbn [backend clock ticks].
  destruct (db_Exec _ (backend w)) as [r db'] eqn:E.
  destruct (db_Exec_cases _ _ _ _ E) as [[F (e & ->)]|(res & -> & X)]; cbn [fst snd backend clock].
  - rewrite F. auto.
  - split; [|auto]. eapply exec_update_ready; [exact Hr| | |exact X].
    + now rewrite HU.
    + exact Vc'.
Qed.

Lemma Delete_keeps_ready (id : Z) (w : World DB) :
  ready (file (backend w)) ->
  ready (file (backend (snd (Delete id w)))) /\ clock (snd (Delete id w)) = clock w.
Proof.
  intros Hr. unfold Delete, bind, on_db.
  destruct (db_Exec _ (backend w)) as [r db'] eqn:E.
  destruct (db_Exec_cases _ _ _ _ E) as [[F (e & ->)]|(res & -> & X)]; cbn.
  - rewrite F. auto.
  - split; [|auto]. eapply exec_delete_ready; eauto.
Qed.

Lemma task_of_row_closed_valid r : wf_row r = true -> closed_valid (task_of_row r).
Proof.
  intros H c.
  destruct (wf_row_shape r H) as (id & title & desc & d & p & cr & u & cl & -> & _ & _ & _ & Hcl).
  unfold task_of_row. destruct Hcl as [->|(s & -> & Hs)]; cbn [scan_task scan_int scan_string
    scan_NullString ClosedAt]; [discriminate|].
  destruct (wf_text_inv s Hs) as (ts & Ps & Vs & _). rewrite Ps. now intros [= <-].
Qed.

Lemma List_keeps_ready (w : World DB) :
  ready (file (backend w)) ->
  file (backend (snd (List w))) = file (backend w) /\
  clock (snd (List w)) = clock w /\
  Forall closed_valid (fst (fst (List w))).
Proof.
  intros (rows & seq & Hf & Hwf). unfold List, bind, on_db, db_Query.
  pose proof (next_fault_file (backend w)) as F.
  destruct (next_fault (backend w)) as [[|] d]; cbn [snd] in F.
  - cbn. auto.
  - rewrite F. unfold select. rewrite Hf. cbn [tbl_columns tbl_rows].
    change (forallb _ _ && forallb _ _) with true. cbv iota.
    pose proof (sort_by_forallb list_order wf_row rows Hwf) as S.
    fold list_order.
    rewrite (map_ext_in _ (fun r => r)), map_id.
    2:{ intros r Hr. apply project_all_columns. rewrite forallb_forall in S. now apply S. }
    unfold ret. rewrite scan_tasks_wf by assumption. cbn [fst snd app backend clock].
    split; [assumption|]. split; [reflexivity|].
    apply Forall_forall. intros t Ht. apply in_map_iff in Ht as (r & <- & Hr).
    apply task_of_row_closed_valid. rewrite forallb_forall in S. now apply S.
Qed.

(** ** Opening, whatever the driver meets *)

Lemma db_Exec_ok_inv s db res db1 :
  db_Exec s db = (Ok res, db1) -> exec s (file db) = Ok (res, file db1).
Proof.
  intros E. destruct (db_Exec_cases _ _ _ _ E) as [[_ (e & He)]|(res' & He & X)].
  - discriminate.
  - injection He as <-. exact X.
Qed.

Lemma db_ExecScript_inv script : forall db res db1,
  db_ExecScript script db = (Ok res, db1) -> run_script script (file db) = Ok (file db1).
Proof.
  induction script as [|s rest IH]; intros db res db1.
  - simpl. now intros [= _ <-].
  - destruct rest as [|s' rest'].
    + cbn [db_ExecScript run_script]. intros E.
      now rewrite (db_Exec_ok_inv _ _ _ _ E).
    + change (db_ExecScript (s :: s' :: rest') db)
        with (match db_Exec s db with
              | (Ok _, db) => db_ExecScript (s' :: rest') db
              | (Err e, db) => (Err e, db)
              end).
      destruct (db_Exec s db) as [[res0|e] db0] eqn:E; [|discriminate].
      intros H. cbn [run_script]. rewrite (db_Exec_ok_inv _ _ _ _ E).
      exact (IH db0 res db1 H).
Qed.

(** A fresh file that [New] has opened with success is the ready, empty
    database, whatever calls the driver was going to fail. *)
Lemma New_fresh_success (db0 db : DB) :
  file db0 = [] -> New db0 = (Success, db) ->
  file db = file (opened fresh) /\ ready (file db).
Proof.
  intros Hf. unfold New, New_with.
  destruct (db_ExecScript initialSchema db0) as [[res|e] db1] eqn:ES; [|discriminate].
  pose proof (db_ExecScript_inv _ _ _ _ ES) as B. rewrite Hf in B.
  assert (F1 : file db1 = bootstrapped).
  { assert (E : Ok (file db1) = Ok bootstrapped) by (rewrite <- B; vm_compute; reflexivity).
    now injection E. }
  unfold migrate_with.
  destruct (read_version db1) as [[v|e] db2] eqn:HR; [|discriminate].
  destruct (read_version_spec _ _ _ HR) as [F2 V].
  specialize (V v eq_refl). rewrite F1 in V.
  assert (v = 0).
  { assert (E : Some v = Some 0) by (rewrite <- V; vm_compute; reflexivity). now injection E. }
  subst v.
  destruct (migrate_loop migrations _ 0 db2) as [out db3] eqn:HL.
  intros HS.
  assert (out = Success /\ db3 = db) as [-> ->]
    by (destruct out; inversion HS; auto).
  destruct (migrate_loop_atomic migrations _ 0 db2 Success db ltac:(lia) eq_refl HL)
    as (k & _ & Hsteps & Hk & _).
  rewrite (Hk eq_refl), F2, F1 in Hsteps.
  assert (E : file db = file (opened fresh)).
  { assert (E : Ok (file db) = Ok (file (opened fresh)))
      by (rewrite <- Hsteps; vm_compute; reflexivity).
    now injection E. }
  split; [exact E|]. rewrite E.
  eexists _, _. split; [vm_compute; reflexivity|]. vm_compute. reflexivity.
Qed.

(** ** The invariant of a session *)

Section Session.
Variable clk : nat -> Time.
Hypothesis clk_valid : forall n, validTime (clk n).

Lemma step_session_ok s s' : session_ok clk s -> step s s' -> session_ok clk s'.
Proof.
  intros (Hr & Hc & Hh) Hstep. destruct Hstep; cbn [fst snd] in *; unfold session_ok; cbn [fst snd].
  - (* Add *)
    unfold Service.Add, bind, time_Now.
    change (@repo_Create DB SQLiteStore_Repository) with Create.
    set (t := mkTask 0 title description false priority (clock w (ticks w)) (clock w (ticks w)) None).
    set (w1 := mkWorld (backend w) (clock w) (S (ticks w))).
    assert (V : validTime (clock w (ticks w))) by (rewrite Hc; apply clk_valid).
    destruct (Create_keeps_ready t w1 Hr V V) as (Hr' & Hc' & _ & Hcl).
    destruct (Create t w1) as [[t' [e|]] w'] eqn:E; cbn [fst snd ret] in *.
    + repeat split; auto. now rewrite Hc'.
    + repeat split; auto; [now rewrite Hc'|].
      constructor; [|assumption]. intros c. rewrite Hcl. discriminate.
  - (* All *)
    change (@Service.All DB SQLiteStore_Repository) with List.
    destruct (List_keeps_ready w Hr) as (F & Hc' & Hl).
    rewrite F. repeat split; auto; [now rewrite Hc'|].
    apply Forall_app. now split.
  - (* Toggle *)
    rewrite Toggle_unfold.
    rewrite Forall_forall in Hh. pose proof (Hh t H) as Vt.
    assert (V0 : validTime (clock w (ticks w))) by (rewrite Hc; apply clk_valid).
    assert (V1 : validTime (clock w (S (ticks w)))) by (rewrite Hc; apply clk_valid).
    destruct (Update_keeps_ready
                (set_UpdatedAt (set_Done t (negb (Done t))) (clock w (ticks w)))
                (mkWorld (backend w) (clock w) (S (ticks w))) Hr V0 Vt V1) as (Hr' & Hc' & Hv).
    repeat split; auto; [now rewrite Hc'|].
    constructor; [assumption|]. now apply Forall_forall.
  - (* Edit *)
    rewrite Edit_unfold.
    rewrite Forall_forall in Hh. pose proof (Hh t H) as Vt.
    assert (V0 : validTime (clock w (ticks w))) by (rewrite Hc; apply clk_valid).
    assert (V1 : validTime (clock w (S (ticks w)))) by (rewrite Hc; apply clk_valid).
    destruct (Update_keeps_ready
                (set_UpdatedAt (set_Priority (set_Description (set_Title t title) description)
                                             priority) (clock w (ticks w)))
                (mkWorld (backend w) (clock w) (S (ticks w))) Hr V0 Vt V1) as (Hr' & Hc' & Hv).
    repeat split; auto; [now rewrite Hc'|].
    constructor; [assumption|]. now apply Forall_forall.
  - (* Delete *)
    change (@Service.Delete DB SQLiteStore_Repository id) with (Delete id).
    destruct (Delete_keeps_ready id w Hr) as (Hr' & Hc').
    repeat split; auto. now rewrite Hc'.
Qed.

(** Every state a session reaches is ready. *)
Lemma reachable_ready s : reachable clk s -> session_ok clk s.
Proof.
  induction 1 as [db0 db Hf HN|s s' _ IH Hstep].
  - destruct (New_fresh_success db0 db Hf HN) as [_ Hr].
    repeat split; [exact Hr|constructor].
  - exact (step_session_ok s s' IH Hstep).
Qed.

End Session.

End SessionFacts.

(* ================================================================== *)
(** * The properties of the storage and service contract *)
(* ================================================================== *)

Module Claims.
Import GoTime SQL Todo SQLiteStore Props TimeFacts SQLFacts StoreFacts MigrateFacts
  SessionFacts.

(** The conjuncts of a goal, each on its own. *)
Ltac split_conj := repeat match goal with |- _ /\ _ => split end.

(** ** Listing order *)

Lemma StronglySorted_map {A B : Type} (f : A -> B) (R : B -> B -> Prop) l :
  StronglySorted (fun a b => R (f a) (f b)) l -> StronglySorted R (map f l).
Proof.
  induction 1 as [|a l Hs IH Hall]; simpl; constructor; auto.
  apply Forall_map. exact Hall.
Qed.

Lemma StronglySorted_weaken {A : Type} (P : A -> Prop) (R R' : A -> A -> Prop) l :
  (forall a b, P a -> P b -> R a b -> R' a b) ->
  Forall P l -> StronglySorted R l -> StronglySorted R' l.
Proof.
  intros HR HP Hs. induction Hs as [|a l Hs IH Hall]; constructor.
  - apply IH. now inversion HP.
  - inversion HP as [|? ? Pa Pl]; subst.
    rewrite Forall_forall in *. intros b Hb. apply HR; auto.
Qed.

(** The creation time of a listed row formats back to the stored text. *)
Lemma task_of_row_fields r :
  wf_row r = true ->
  exists id title desc d p c u cl,
    r = [Integer id; Text title; Text desc; Integer d; Integer p; Text c; Text u; cl] /\
    (d = 0 \/ d = 1) /\
    Done (task_of_row r) = negb (d =? 0) /\ Priority (task_of_row r) = p /\
    Format (CreatedAt (task_of_row r)) = c /\ validTime (CreatedAt (task_of_row r)).
Proof.
  intros H.
  destruct (wf_row_shape r H) as (id & title & desc & d & p & c & u & cl & -> & Hd & Hc & Hu & Hcl).
  exists id, title, desc, d, p, c, u, cl.
  destruct (wf_text_inv c Hc) as (tc & Pc & Vc & Fc).
  assert (E : CreatedAt (task_of_row [Integer id; Text title; Text desc; Integer d; Integer p;
                                      Text c; Text u; cl]) = tc).
  { unfold task_of_row.
    destruct Hcl as [->|(s & -> & _)]; cbn; unfold Parse_; now rewrite Pc. }
  rewrite E. repeat split; auto;
    unfold task_of_row; destruct Hcl as [->|(s & -> & _)]; reflexivity.
Qed.

Lemma list_order_precedes r1 r2 :
  wf_row r1 = true -> wf_row r2 = true ->
  list_order r1 r2 <> Gt -> precedes (task_of_row r1) (task_of_row r2).
Proof.
  intros H1 H2.
  destruct (task_of_row_fields r1 H1) as (i1 & ti1 & de1 & d1 & p1 & c1 & u1 & cl1 & E1 & Hd1 & D1 & P1 & F1 & V1).
  destruct (task_of_row_fields r2 H2) as (i2 & ti2 & de2 & d2 & p2 & c2 & u2 & cl2 & E2 & Hd2 & D2 & P2 & F2 & V2).
  unfold precedes, created_before. rewrite D1, D2, P1, P2, F1.
  rewrite F2.
  intros Hle.
  assert (Hcmp : list_order r1 r2 =
                 match d1 ?= d2 with
                 | Eq => match CompOpp (p1 ?= p2) with
                         | Eq => match (c1 ?= c2)%string with Eq => Eq | x => x end
                         | x => x
                         end
                 | x => x
                 end) by (subst r1 r2; reflexivity).
  rewrite Hcmp in Hle. clear Hcmp.
  destruct (Z.compare_spec d1 d2) as [Ed|Ld|Gd].
  - right. split; [now subst|].
    destruct (Z.compare_spec p1 p2) as [Ep|Lp|Gp]; simpl in Hle.
    + right. split; [assumption|]. split.
      * destruct (c1 ?= c2)%string; congruence.
      * intros Hoff.
        pose proof (Format_compare _ _ V1 V2 Hoff) as FC. rewrite F1, F2 in FC.
        destruct (Z.compare_spec (unix (CreatedAt (task_of_row r1)))
                                 (unix (CreatedAt (task_of_row r2)))); try lia.
        rewrite FC in Hle. congruence.
    + congruence.
    + left. lia.
  - left. destruct Hd1, Hd2; subst; first [lia | split; reflexivity].
  - congruence.
Qed.

(** C1, as amended.  On a ready database, with the driver working,
    [Service.All] returns the tasks sorted: open tasks before completed
    ones; among those, the higher priority first; among tasks of equal
    priority, in ascending order of the RFC3339 text of the creation time,
    which for creation times carrying one zone offset is the order of their
    seconds.  (Ready is every state a session reaches from a fresh file:
    [reachable_ready].) *)
Theorem All_sorted (w : World DB) :
  ready (file (backend w)) -> no_faults (backend w) ->
  exists tasks w',
    Service.All w = ((tasks, nil), w') /\ StronglySorted precedes tasks.
Proof.
  intros Hr Hnf.
  destruct (List_ready w Hr Hnf) as (w' & HL & _).
  eexists _, w'. split; [exact HL|].
  destruct Hr as (rows & seq & Hf & Hwf).
  destruct (ready_tasks _ _ _ Hf) as [-> _].
  apply StronglySorted_map.
  apply (StronglySorted_weaken (fun r => wf_row r = true) (fun a b => list_order a b <> Gt)).
  - intros a b Ha Hb. now apply list_order_precedes.
  - apply Forall_forall. intros r Hr.
    pose proof (sort_by_forallb list_order wf_row rows Hwf) as S.
    rewrite forallb_forall in S. now apply S.
  - apply sort_by_sorted. apply ordering_order_compare.
Qed.

Lemma All_sorted_witness :
  exists tasks w',
    Service.All autumn_world = ((tasks, nil), w') /\ StronglySorted precedes tasks.
Proof.
  apply (All_sorted autumn_world).
  - eexists _, _. split; [vm_compute; reflexivity|]. vm_compute. reflexivity.
  - vm_compute. reflexivity.
Defined.

(** The two creation times as they are stored. *)
Example autumn_texts :
  Format (autumn_clock 0) = "2023-10-29T03:30:00+03:00" /\
  Format (autumn_clock 1) = "2023-10-29T03:10:00+02:00" /\
  Before (autumn_clock 0) (autumn_clock 1) = true.
Proof. split_conj; vm_compute; reflexivity. Qed.

(** C1 fails as stated: of two open tasks of equal priority, the one
    created forty minutes after the other is listed first, because the
    clocks went back in between. *)
Lemma All_order_counterexample :
  exists a b,
    fst (Service.All autumn_world) = ([a; b], nil) /\
    Done a = Done b /\ Priority a = Priority b /\
    Before (CreatedAt b) (CreatedAt a) = true /\
    ~ precedes_chronological a b.
Proof.
  eexists _, _. split; [vm_compute; reflexivity|].
  repeat split; try reflexivity.
  intros [[_ D]|[_ [P|[_ B]]]]; [vm_compute in D|vm_compute in P|vm_compute in B]; discriminate.
Qed.

(** ** The timestamp text *)

(** C7, as amended.  For two timestamps that carry the same zone offset
    (whole minutes, less than a day) and fall in the years 0 to 9999, the
    RFC3339 text of the first is lexicographically less than the text of
    the second exactly when the first lies in an earlier second. *)
Theorem Format_order_same_zone (t1 t2 : Time) :
  validTime t1 -> validTime t2 -> offset t1 = offset t2 ->
  ((Format t1 ?= Format t2)%string = Lt <-> unix t1 < unix t2).
Proof.
  intros V1 V2 Hoff. rewrite (Format_compare t1 t2 V1 V2 Hoff). reflexivity.
Qed.

Lemma Format_order_same_zone_witness :
  (Format (autumn_clock 1) ?= Format (autumn_clock 2))%string = Lt <->
  unix (autumn_clock 1) < unix (autumn_clock 2).
Proof.
  apply (Format_order_same_zone (autumn_clock 1) (autumn_clock 2)); reflexivity.
Defined.

(** C7 fails as stated, in two ways: two instants of one second have the
    same text, and an instant written in summer time can have a greater
    text than a later instant written in winter time. *)
Lemma Format_order_counterexample :
  (validTime (quick_clock 0) /\ validTime (quick_clock 1) /\
   Before (quick_clock 0) (quick_clock 1) = true /\
   (Format (quick_clock 0) ?= Format (quick_clock 1))%string = Eq) /\
  (validTime (autumn_clock 0) /\ validTime (autumn_clock 1) /\
   Before (autumn_clock 0) (autumn_clock 1) = true /\
   (Format (autumn_clock 0) ?= Format (autumn_clock 1))%string = Gt).
Proof. split_conj; vm_compute; reflexivity. Qed.

(** ** Round trip *)

Lemma boolToInt_round b : negb (boolToInt b =? 0) = b.
Proof. now destruct b. Qed.

Lemma task_of_created_row t id :
  validTime (CreatedAt t) -> validTime (UpdatedAt t) ->
  task_of_row (created_row t id) = set_ClosedAt (listed (set_ID t id)) None.
Proof.
  intros V1 V2. unfold task_of_row, created_row, scan_task, scan_int, scan_string,
    scan_NullString, listed, set_ClosedAt, set_ID. cbn [ID Title Description Done Priority
    CreatedAt UpdatedAt ClosedAt].
  rewrite boolToInt_round, !Parse__Format by assumption. reflexivity.
Qed.

Lemma task_of_updated_row t r :
  wf_row r = true -> has_id (ID t) r = true ->
  validTime (UpdatedAt t) -> (forall c, ClosedAt t = Some c -> validTime c) ->
  task_of_row (updated_row t r) = set_CreatedAt (listed t) (CreatedAt (task_of_row r)).
Proof.
  intros H Hid V Vc.
  destruct (wf_row_shape r H) as (i & title & desc & d & p & c & u & cl & -> & _ & _ & _ & Hcl).
  simpl in Hid. apply Z.eqb_eq in Hid. subst i.
  assert (E : CreatedAt (task_of_row [Integer (ID t); Text title; Text desc; Integer d;
                                      Integer p; Text c; Text u; cl]) = Parse_ c)
    by (unfold task_of_row; destruct Hcl as [->|(s & -> & _)]; reflexivity).
  rewrite E.
  unfold task_of_row, updated_row, scan_task, scan_int, scan_string, listed, set_CreatedAt.
  cbn [ID Title Description Done Priority CreatedAt UpdatedAt ClosedAt].
  destruct (ClosedAt t) as [ts|] eqn:C; unfold scan_NullString;
    rewrite boolToInt_round, ?Parse__Format, ?Parse_Format by auto; reflexivity.
Qed.

Lemma In_listed (w : World DB) r :
  ready (file (backend w)) -> no_faults (backend w) ->
  In r (tasks_rows (file (backend w))) ->
  exists tasks w', List w = ((tasks, nil), w') /\ In (task_of_row r) tasks.
Proof.
  intros Hr Hnf Hin. destruct (List_ready w Hr Hnf) as (w' & HL & _).
  eexists _, w'. split; [exact HL|].
  apply in_map. eapply Permutation_in; [apply sort_by_perm|exact Hin].
Qed.

(** C5, as amended.  A task written by [Create] and listed again has the
    id it was given and its title, description, done flag and priority; its
    two timestamps come back cut to the whole second (in their zone), and
    [closedAt] comes back absent, whatever the object held.  Once the same
    row is written by [Update], the listing has the fields of the updated
    object, [updatedAt] and [closedAt] cut to the whole second and
    [closedAt] absent or present as on the object, and the creation time
    the row already had. *)
Theorem roundtrip (t u : Task) (w : World DB) :
  ready (file (backend w)) -> no_faults (backend w) ->
  tasks_seq (file (backend w)) < maxInt64 ->
  validTime (CreatedAt t) -> validTime (UpdatedAt t) ->
  validTime (UpdatedAt u) ->
  (forall c, ClosedAt u = Some c -> validTime c) ->
  validTime (clock w (ticks w)) ->
  ID u = tasks_seq (file (backend w)) + 1 ->
  exists t' w1,
    Create t w = ((t', nil), w1) /\ ID t' = ID u /\
    (exists tasks w2,
       List w1 = ((tasks, nil), w2) /\ In (set_ClosedAt (listed t') None) tasks) /\
    (exists u' w3 tasks w4,
       Update u w1 = ((u', nil), w3) /\ List w3 = ((tasks, nil), w4) /\
       In (set_CreatedAt (listed u') (truncSecond (CreatedAt t))) tasks).
Proof.
  intros Hr Hnf Hseq Vc Vu Vuu Vcu Vnow Hid.
  destruct (Create_ready t w Hr Hnf Hseq)
    as (w1 & HC & Hrows1 & Hseq1 & Hnf1 & Hclock1 & Hticks1 & Hr1).
  specialize (Hr1 Vc Vu).
  set (id := tasks_seq (file (backend w)) + 1) in *.
  assert (Hin1 : In (created_row t id) (tasks_rows (file (backend w1))))
    by (rewrite Hrows1; apply in_or_app; right; now left).
  exists (set_ID t id), w1. split; [exact HC|]. split; [now rewrite Hid|]. split.
  - destruct (In_listed w1 _ Hr1 Hnf1 Hin1) as (tasks & w2 & HL & Hin).
    exists tasks, w2. split; [exact HL|].
    now rewrite task_of_created_row in Hin.
  - destruct (Update_ready u w1 Hr1 Hnf1)
      as (w3 & HU & Hrows3 & _ & Hnf3 & _ & _ & Hr3).
    rewrite Hclock1, Hticks1 in *.
    set (u' := stamped (clock w (ticks w)) u) in *.
    assert (Vcu' : forall c, ClosedAt u' = Some c -> validTime c).
    { subst u'. unfold stamped. intros c.
      destruct (Done u); [destruct (ClosedAt u) eqn:C|]; cbn.
      - rewrite C. apply Vcu.
      - intros [= <-]. exact Vnow.
      - discriminate. }
    assert (Vuu' : validTime (UpdatedAt u')).
    { subst u'. unfold stamped. destruct (Done u); [destruct (ClosedAt u)|]; exact Vuu. }
    assert (IDu' : ID u' = ID u).
    { subst u'. unfold stamped. destruct (Done u); [destruct (ClosedAt u)|]; reflexivity. }
    specialize (Hr3 Vuu Vcu').
    assert (Hin3 : In (updated_row u' (created_row t id)) (tasks_rows (file (backend w3)))).
    { rewrite Hrows3. apply in_map_iff. exists (created_row t id). split; [|exact Hin1].
      replace (has_id (ID u) (created_row t id)) with true; [reflexivity|].
      simpl. symmetry. apply Z.eqb_eq. now rewrite Hid. }
    destruct (In_listed w3 _ Hr3 Hnf3 Hin3) as (tasks & w4 & HL & Hin).
    exists u', w3, tasks, w4. split; [exact HU|]. split; [exact HL|].
    rewrite task_of_updated_row in Hin; auto.
    + rewrite task_of_created_row in Hin by assumption. exact Hin.
    + now apply wf_created_row.
    + rewrite IDu', Hid. simpl. apply Z.eqb_refl.
Qed.

Lemma roundtrip_witness :
  exists t' w1,
    Create plants quick_world = ((t', nil), w1) /\ ID t' = ID plants_done /\
    (exists tasks w2,
       List w1 = ((tasks, nil), w2) /\ In (set_ClosedAt (listed t') None) tasks) /\
    (exists u' w3 tasks w4,
       Update plants_done w1 = ((u', nil), w3) /\ List w3 = ((tasks, nil), w4) /\
       In (set_CreatedAt (listed u') (truncSecond (CreatedAt plants))) tasks).
Proof.
  apply (roundtrip plants plants_done quick_world); try reflexivity.
  - eexists _, _. split; [vm_compute; reflexivity|]. vm_compute. reflexivity.
  - intros c H. discriminate H.
Defined.

(** C5 fails as stated: the task [Add] hands back after [Create] is not
    among the tasks listed next, the listed one having lost the fraction of
    the second of its timestamps. *)
Lemma roundtrip_counterexample :
  exists t l,
    fst (Service.Add "Water the plants" "balcony" PriorityLow quick_world) = (Some t, nil) /\
    fst (Service.All (run (Service.Add "Water the plants" "balcony" PriorityLow) quick_world))
      = ([l], nil) /\
    ID l = ID t /\ CreatedAt l <> CreatedAt t /\ ~ In t [l].
Proof.
  eexists _, _. split; [vm_compute; reflexivity|]. split; [vm_compute; reflexivity|].
  split; [reflexivity|]. split; [discriminate|].
  intros [H|[]]. discriminate H.
Qed.

(** ** The task object when the repository fails *)

(** C10.  For every repository, [Service.Toggle] flips [Done] and
    overwrites [UpdatedAt] on the task object, and [Service.Edit] overwrites
    the title, the description, the priority and [UpdatedAt], before the
    repository's [Update] is called with that object, whose answer is
    returned as it is.  With the SQLite store, when [Update] returns an
    error the task object therefore keeps the new values, while the
    database file is as it was. *)
Theorem object_kept_on_error {R : Type} `{Repository R} (wr : World R)
    (t : Task) (title description : string) (priority : PriorityLevel)
    (w : World DB) t1 e1 w1 t2 e2 w2 :
  Service.Toggle t w = ((t1, Some e1), w1) ->
  Service.Edit t title description priority w = ((t2, Some e2), w2) ->
  (Service.Toggle t wr =
     repo_Update (set_UpdatedAt (set_Done t (negb (Done t))) (clock wr (ticks wr)))
                 (mkWorld (backend wr) (clock wr) (S (ticks wr))) /\
   Service.Edit t title description priority wr =
     repo_Update (set_UpdatedAt (set_Priority (set_Description (set_Title t title) description)
                                              priority) (clock wr (ticks wr)))
                 (mkWorld (backend wr) (clock wr) (S (ticks wr)))) /\
  (Done t1 = negb (Done t) /\ UpdatedAt t1 = clock w (ticks w) /\
   file (backend w1) = file (backend w)) /\
  (Title t2 = title /\ Description t2 = description /\ Priority t2 = priority /\
   UpdatedAt t2 = clock w (ticks w) /\ file (backend w2) = file (backend w)).
Proof.
  rewrite Toggle_unfold, Edit_unfold. intros HT HE.
  split; [split; reflexivity|].
  pose proof (Update_task (set_UpdatedAt (set_Done t (negb (Done t))) (clock w (ticks w)))
                (mkWorld (backend w) (clock w) (S (ticks w)))) as T1.
  pose proof (Update_task
                (set_UpdatedAt (set_Priority (set_Description (set_Title t title) description)
                                             priority) (clock w (ticks w)))
                (mkWorld (backend w) (clock w) (S (ticks w)))) as T2.
  rewrite HT in T1. rewrite HE in T2. cbn [fst] in T1, T2. subst t1 t2.
  pose proof (Update_error_file _ _ _ _ _ HT) as F1.
  pose proof (Update_error_file _ _ _ _ _ HE) as F2.
  cbn [backend] in F1, F2.
  match goal with |- context [stamped ?n ?x] =>
    destruct (stamped_fields n x) as (_ & _ & _ & D & _ & _ & U) end.
  split; [repeat split; assumption|].
  match goal with |- context [Title (stamped ?n ?x)] =>
    destruct (stamped_fields n x) as (_ & Ti & De & _ & Pr & _ & Up) end.
  repeat split; assumption.
Qed.

Lemma object_kept_on_error_witness :
  let toggled := Service.Toggle plants failing_world in
  let edited := Service.Edit plants "Water the ferns" "" PriorityHigh failing_world in
  (Service.Toggle plants failing_world =
     repo_Update (set_UpdatedAt (set_Done plants (negb (Done plants)))
                                (clock failing_world (ticks failing_world)))
                 (mkWorld (backend failing_world) (clock failing_world)
                          (S (ticks failing_world))) /\
   Service.Edit plants "Water the ferns" "" PriorityHigh failing_world =
     repo_Update (set_UpdatedAt (set_Priority (set_Description
                                   (set_Title plants "Water the ferns") "") PriorityHigh)
                                (clock failing_world (ticks failing_world)))
                 (mkWorld (backend failing_world) (clock failing_world)
                          (S (ticks failing_world)))) /\
  (Done (fst (fst toggled)) = negb (Done plants) /\
   UpdatedAt (fst (fst toggled)) = clock failing_world (ticks failing_world) /\
   file (backend (snd toggled)) = file (backend failing_world)) /\
  (Title (fst (fst edited)) = "Water the ferns" /\ Description (fst (fst edited)) = "" /\
   Priority (fst (fst edited)) = PriorityHigh /\
   UpdatedAt (fst (fst edited)) = clock failing_world (ticks failing_world) /\
   file (backend (snd edited)) = file (backend failing_world)).
Proof.
  intros toggled edited.
  apply (object_kept_on_error failing_world plants "Water the ferns" "" PriorityHigh
           failing_world
           (fst (fst toggled)) driver_error (snd toggled)
           (fst (fst edited)) driver_error (snd edited)); reflexivity.
Defined.

(** ** Toggling *)

Lemma Toggle_spec (t : Task) (w : World DB) :
  fst (fst (Service.Toggle t w)) =
    stamped (clock w (S (ticks w)))
            (set_UpdatedAt (set_Done t (negb (Done t))) (clock w (ticks w))) /\
  clock (snd (Service.Toggle t w)) = clock w /\
  ticks (snd (Service.Toggle t w)) = S (S (ticks w)).
Proof.
  rewrite Toggle_unfold. split; [exact (Update_task _ _)|exact (Update_world _ _)].
Qed.

(** C2, as amended.  Toggling twice restores [done].  A toggle that
    completes a task without [closedAt] stamps it with the clock reading
    taken by the store, on the object and in the row; a toggle that reopens
    a task clears [closedAt]; a toggle that completes a task already
    carrying a [closedAt] keeps it.  A second completion after a reopening
    is stamped with the clock reading of that completion, which differs
    from the first stamp exactly when the two readings differ. *)
Theorem Toggle_closedAt (t : Task) (w : World DB) :
  let '(t1, e1, w1) := Service.Toggle t w in
  let '(t2, e2, w2) := Service.Toggle t1 w1 in
  let '(t3, e3, w3) := Service.Toggle t2 w2 in
  let now1 := clock w (1 + ticks w)%nat in
  let now3 := clock w (5 + ticks w)%nat in
  Done t2 = Done t /\
  (Done t = false -> ClosedAt t = None -> ClosedAt t1 = Some now1) /\
  (Done t = true -> ClosedAt t1 = None) /\
  (Done t = false -> ClosedAt t <> None -> ClosedAt t1 = ClosedAt t) /\
  (Done t = false -> ClosedAt t3 = Some now3) /\
  (Done t = false -> ClosedAt t = None -> (ClosedAt t3 <> ClosedAt t1 <-> now3 <> now1)) /\
  (ready (file (backend w)) -> no_faults (backend w) ->
   e1 = nil /\
   tasks_rows (file (backend w1)) =
     map (fun r => if has_id (ID t) r then updated_row t1 r else r)
         (tasks_rows (file (backend w)))).
Proof.
  pose proof (Toggle_spec t w) as (T1 & C1 & K1).
  destruct (Service.Toggle t w) as [[t1 e1] w1] eqn:E1. cbn [fst snd] in T1, C1, K1.
  pose proof (Toggle_spec t1 w1) as (T2 & C2 & K2).
  destruct (Service.Toggle t1 w1) as [[t2 e2] w2] eqn:E2. cbn [fst snd] in T2, C2, K2.
  pose proof (Toggle_spec t2 w2) as (T3 & C3 & K3).
  destruct (Service.Toggle t2 w2) as [[t3 e3] w3] eqn:E3. cbn [fst snd] in T3, C3, K3.
  cbv zeta.
  rewrite C2, K2, C1, K1 in T3. rewrite C1, K1 in T2.
  change (1 + ticks w)%nat with (S (ticks w)).
  change (5 + ticks w)%nat with (S (S (S (S (S (ticks w)))))).
  assert (D1 : Done t1 = negb (Done t) /\
               ClosedAt t1 = if negb (Done t)
                             then match ClosedAt t with
                                  | None => Some (clock w (S (ticks w)))
                                  | Some c => Some c
                                  end
                             else None).
  { subst t1. unfold stamped. cbn. destruct (Done t); cbn; [split; reflexivity|].
    destruct (ClosedAt t) eqn:C; cbn; rewrite ?C; split; reflexivity. }
  destruct D1 as [D1 L1].
  assert (D2 : Done t2 = Done t /\ (Done t = false -> ClosedAt t2 = None)).
  { subst t2. unfold stamped. cbn. rewrite D1, negb_involutive.
    destruct (Done t); cbn; [|auto].
    destruct (ClosedAt t1) eqn:C; cbn; rewrite ?C; split; auto; intros; discriminate. }
  destruct D2 as [D2 L2].
  assert (L3 : Done t = false -> ClosedAt t3 = Some (clock w (S (S (S (S (S (ticks w)))))))).
  { intros Hd. subst t3. unfold stamped. cbn. rewrite D2, Hd. cbn.
    now rewrite (L2 Hd). }
  split; [exact D2|].
  split; [intros Hd Hc; rewrite L1, Hd, Hc; reflexivity|].
  split; [intros Hd; rewrite L1, Hd; reflexivity|].
  split; [intros Hd Hc; rewrite L1, Hd; cbn; destruct (ClosedAt t); congruence|].
  split; [exact L3|].
  split.
  - intros Hd Hc. rewrite (L3 Hd), L1, Hd, Hc. cbn. split; congruence.
  - intros Hr Hnf.
    rewrite Toggle_unfold in E1.
    destruct (Update_ready (set_UpdatedAt (set_Done t (negb (Done t))) (clock w (ticks w)))
                (mkWorld (backend w) (clock w) (S (ticks w))) Hr Hnf)
      as (w' & HU & Hrows & _).
    cbv zeta in HU. cbn [backend clock ticks ID set_UpdatedAt set_Done] in HU, Hrows.
    rewrite HU in E1. injection E1 as <- <- <-.
    split; [reflexivity|exact Hrows].
Qed.

Lemma Toggle_closedAt_witness :
  let t := planted_task quick_clock in
  let w := planted quick_clock in
  snd (fst (Service.Toggle t w)) = nil /\
  tasks_rows (file (backend (snd (Service.Toggle t w)))) =
    map (fun r => if has_id (ID t) r then updated_row (fst (fst (Service.Toggle t w))) r else r)
        (tasks_rows (file (backend w))).
Proof.
  intros t w. pose proof (Toggle_closedAt t w) as H.
  destruct (Service.Toggle t w) as [[t1 e1] w1].
  destruct (Service.Toggle t1 w1) as [[t2 e2] w2].
  destruct (Service.Toggle t2 w2) as [[t3 e3] w3].
  cbv zeta in H. destruct H as (_ & _ & _ & _ & _ & _ & P).
  apply P.
  - eexists _, _. split; [vm_compute; reflexivity|]. vm_compute. reflexivity.
  - vm_compute. reflexivity.
Defined.

(** C2 fails as stated in its last part.  On a clock that has not ticked
    between the two completions, the second completion leaves the very
    [closedAt] of the first on the task object; and on any clock, two
    completions within one second are listed with the same [closedAt]. *)
Lemma Toggle_closedAt_counterexample :
  (let t := planted_task coarse_clock in
   let '(t1, _, w1) := Service.Toggle t (planted coarse_clock) in
   let '(t2, _, w2) := Service.Toggle t1 w1 in
   let '(t3, _, _) := Service.Toggle t2 w2 in
   Done t1 = true /\ Done t2 = false /\ Done t3 = true /\
   ClosedAt t1 <> None /\ ClosedAt t3 = ClosedAt t1) /\
  (let w1 := toggle_first (planted quick_clock) in
   let w3 := toggle_first (toggle_first w1) in
   exists a1 a3,
     fst (Service.All w1) = ([a1], nil) /\ fst (Service.All w3) = ([a3], nil) /\
     Done a1 = true /\ Done a3 = true /\
     ClosedAt a1 <> None /\ ClosedAt a3 = ClosedAt a1 /\
     quick_clock 6 <> quick_clock 2).
Proof.
  split.
  - cbv zeta.
    destruct (Service.Toggle (planted_task coarse_clock) (planted coarse_clock))
      as [[t1 e1] w1] eqn:E1.
    destruct (Service.Toggle t1 w1) as [[t2 e2] w2] eqn:E2.
    destruct (Service.Toggle t2 w2) as [[t3 e3] w3] eqn:E3.
    pose proof (Toggle_spec (planted_task coarse_clock) (planted coarse_clock)) as (T1 & C1 & K1).
    rewrite E1 in T1, C1, K1. cbn [fst snd] in T1, C1, K1.
    pose proof (Toggle_spec t1 w1) as (T2 & C2 & K2).
    rewrite E2 in T2, C2, K2. cbn [fst snd] in T2, C2, K2.
    pose proof (Toggle_spec t2 w2) as (T3 & _).
    rewrite E3 in T3. cbn [fst] in T3.
    rewrite C2, K2, C1, K1 in T3. rewrite C1, K1 in T2.
    subst t3 t2 t1. vm_compute. repeat split; discriminate.
  - cbv zeta. eexists _, _.
    split; [vm_compute; reflexivity|]. split; [vm_compute; reflexivity|].
    repeat split; discriminate.
Qed.

(** ** Editing *)

Lemma Edit_spec (t : Task) title description priority (w : World DB) :
  fst (fst (Service.Edit t title description priority w)) =
    stamped (clock w (S (ticks w)))
      (set_UpdatedAt (set_Priority (set_Description (set_Title t title) description) priority)
                     (clock w (ticks w))).
Proof. rewrite Edit_unfold. exact (Update_task _ _). Qed.

Lemma column_of_row v1 v2 v3 v4 v5 v6 v7 v8 :
  column_of "id" [v1; v2; v3; v4; v5; v6; v7; v8] = v1 /\
  column_of "created_at" [v1; v2; v3; v4; v5; v6; v7; v8] = v6 /\
  column_of "done" [v1; v2; v3; v4; v5; v6; v7; v8] = v4 /\
  column_of "closed_at" [v1; v2; v3; v4; v5; v6; v7; v8] = v8.
Proof. repeat split; reflexivity. Qed.

Lemma updated_row_listed (t t' : Task) r :
  wf_row r = true -> task_of_row r = t -> consistent t ->
  Done t' = Done t -> ClosedAt t' = ClosedAt t ->
  column_of "id" (updated_row t' r) = column_of "id" r /\
  column_of "created_at" (updated_row t' r) = column_of "created_at" r /\
  column_of "done" (updated_row t' r) = column_of "done" r /\
  column_of "closed_at" (updated_row t' r) = column_of "closed_at" r.
Proof.
  intros H Ht [Cd Cn] HD HC.
  destruct (wf_row_shape r H) as (i & title & desc & d & p & c & u & cl & -> & Hd & _ & _ & Hcl).
  unfold updated_row.
  match goal with |- context [column_of "id" ?l] =>
    match l with
    | [?a1; ?a2; ?a3; ?a4; ?a5; ?a6; ?a7; ?a8] =>
        destruct (column_of_row a1 a2 a3 a4 a5 a6 a7 a8) as (-> & -> & -> & ->)
    end end.
  destruct (column_of_row (Integer i) (Text title) (Text desc) (Integer d) (Integer p)
              (Text c) (Text u) cl) as (-> & -> & -> & ->).
  rewrite HD, HC. subst t.
  assert (ED : Done (task_of_row [Integer i; Text title; Text desc; Integer d; Integer p;
                                  Text c; Text u; cl]) = negb (d =? 0))
    by (unfold task_of_row; destruct Hcl as [->|(s & -> & _)]; reflexivity).
  assert (EC : ClosedAt (task_of_row [Integer i; Text title; Text desc; Integer d; Integer p;
                                      Text c; Text u; cl]) =
               match cl with Text s => Parse s | _ => None end).
  { unfold task_of_row; destruct Hcl as [->|(s & -> & _)]; reflexivity. }
  rewrite ED, EC in *.
  repeat split.
  - destruct Hd; subst d; reflexivity.
  - destruct Hcl as [->|(s & -> & Hs)]; [reflexivity|].
    destruct (wf_text_inv s Hs) as (ts & Ps & _ & Fs).
    rewrite Ps, Fs. reflexivity.
Qed.

Lemma Edit_ready (t : Task) title description priority (w : World DB) :
  ready (file (backend w)) -> no_faults (backend w) ->
  exists t' w',
    Service.Edit t title description priority w = ((t', nil), w') /\
    tasks_rows (file (backend w')) =
      map (fun r => if has_id (ID t) r then updated_row t' r else r)
          (tasks_rows (file (backend w))).
Proof.
  intros Hr Hnf. rewrite Edit_unfold.
  destruct (Update_ready
              (set_UpdatedAt (set_Priority (set_Description (set_Title t title) description)
                                           priority) (clock w (ticks w)))
              (mkWorld (backend w) (clock w) (S (ticks w))) Hr Hnf)
    as (w1 & HU & Hrows & _).
  cbv zeta in HU. eexists _, w1. split; [exact HU|exact Hrows].
Qed.

(** C8, as amended.  [Service.Edit] leaves [id], [createdAt] and [done] of
    the task object as they were, and [closedAt] too when the object is
    consistent ([closedAt] present exactly when done).  A done task without
    [closedAt] (one completed before the [closed_at] migration) is stamped
    with the current time by the store.  In the database, on success, only
    the rows with the task's id change; such a row from which the object was
    listed keeps its [id], [created_at], [done] and [closed_at] when the
    object is consistent. *)
Theorem Edit_frame (t : Task) (title description : string) (priority : PriorityLevel)
    (w : World DB) :
  let '(t', e, w') := Service.Edit t title description priority w in
  ID t' = ID t /\ CreatedAt t' = CreatedAt t /\ Done t' = Done t /\
  (consistent t -> ClosedAt t' = ClosedAt t) /\
  (Done t = true -> ClosedAt t = None -> ClosedAt t' = Some (clock w (1 + ticks w)%nat)) /\
  (ready (file (backend w)) -> no_faults (backend w) ->
   e = nil /\
   tasks_rows (file (backend w')) =
     map (fun r => if has_id (ID t) r then updated_row t' r else r)
         (tasks_rows (file (backend w))) /\
   forall r, In r (tasks_rows (file (backend w))) -> task_of_row r = t -> consistent t ->
     column_of "id" (updated_row t' r) = column_of "id" r /\
     column_of "created_at" (updated_row t' r) = column_of "created_at" r /\
     column_of "done" (updated_row t' r) = column_of "done" r /\
     column_of "closed_at" (updated_row t' r) = column_of "closed_at" r).
Proof.
  pose proof (Edit_spec t title description priority w) as T.
  destruct (Service.Edit t title description priority w) as [[t' e] w'] eqn:E.
  cbn [fst] in T.
  set (t0 := set_UpdatedAt (set_Priority (set_Description (set_Title t title) description)
                                         priority) (clock w (ticks w))) in *.
  destruct (stamped_fields (clock w (S (ticks w))) t0) as (Hid & _ & _ & HD & _ & HC & _).
  rewrite <- T in Hid, HD, HC. cbn in Hid, HD, HC.
  assert (HCl : consistent t -> ClosedAt t' = ClosedAt t).
  { intros [Cd Cn]. subst t'. unfold stamped. cbn.
    destruct (Done t) eqn:D; cbn.
    - destruct (ClosedAt t) eqn:C; cbn; [now rewrite C|]. exfalso. now apply Cd.
    - now rewrite Cn. }
  repeat (split; [assumption|]).
  split.
  { intros D C. subst t'. unfold stamped. cbn. now rewrite D, C. }
  intros Hr Hnf.
  rewrite Edit_unfold in E. fold t0 in E.
  destruct (Update_ready t0 (mkWorld (backend w) (clock w) (S (ticks w))) Hr Hnf)
    as (w1 & HU & Hrows & _).
  cbv zeta in HU. cbn [backend clock ticks] in HU, Hrows.
  rewrite <- T in HU, Hrows. rewrite HU in E. injection E as <- <-.
  split; [reflexivity|]. split; [exact Hrows|].
  intros r Hin Ht Hc.
  destruct Hr as (rows & seq & Hf & Hwf). destruct (ready_tasks _ _ _ Hf) as [Er _].
  rewrite Er in Hin. rewrite forallb_forall in Hwf.
  apply (updated_row_listed t t' r (Hwf r Hin) Ht Hc HD (HCl Hc)).
Qed.

Lemma Edit_frame_witness :
  let w := planted quick_clock in
  let t := first_listed w in
  let r := Service.Edit t "Water the ferns" "" PriorityHigh w in
  snd (fst r) = nil /\
  tasks_rows (file (backend (snd r))) =
    map (fun r0 => if has_id (ID t) r0 then updated_row (fst (fst r)) r0 else r0)
        (tasks_rows (file (backend w))) /\
  forall r0, In r0 (tasks_rows (file (backend w))) -> task_of_row r0 = t -> consistent t ->
    column_of "id" (updated_row (fst (fst r)) r0) = column_of "id" r0 /\
    column_of "created_at" (updated_row (fst (fst r)) r0) = column_of "created_at" r0 /\
    column_of "done" (updated_row (fst (fst r)) r0) = column_of "done" r0 /\
    column_of "closed_at" (updated_row (fst (fst r)) r0) = column_of "closed_at" r0.
Proof.
  intros w t r. subst r.
  pose proof (Edit_frame t "Water the ferns" "" PriorityHigh w) as H.
  destruct (Service.Edit t "Water the ferns" "" PriorityHigh w) as [[t' e] w'].
  destruct H as (_ & _ & _ & _ & _ & P).
  apply P.
  - eexists _, _. split; [vm_compute; reflexivity|]. vm_compute. reflexivity.
  - vm_compute. reflexivity.
Defined.

(** C8 fails as stated: a task completed under the schema without
    [closed_at] is listed done and without [closedAt]; editing its title
    gives it a [closedAt], on the object and in the row. *)
Lemma Edit_frame_counterexample :
  let w := mkWorld (opened legacy) quick_clock 0 in
  let t := first_listed w in
  let r := Service.Edit t "Pay the rent" "" PriorityMedium (run Service.All w) in
  Done t = true /\ ClosedAt t = None /\
  snd (fst r) = nil /\ ClosedAt (fst (fst r)) = Some (quick_clock 1) /\
  tasks_rows (file (opened legacy)) =
    [[Integer 1; Text "Pay rent"; Text ""; Integer 1; Integer 2;
      Text "2023-05-01T09:00:00+03:00"; Text "2023-05-02T18:30:00+03:00"; Null]] /\
  tasks_rows (file (backend (snd r))) =
    [[Integer 1; Text "Pay the rent"; Text ""; Integer 1; Integer 2;
      Text "2023-05-01T09:00:00+03:00"; Text "2023-11-15T00:13:20+02:00";
      Text "2023-11-15T00:13:20+02:00"]].
Proof. cbv zeta. split_conj; vm_compute; reflexivity. Qed.

(** ** The empty title *)

Lemma Add_ready title description priority (w : World DB) :
  ready (file (backend w)) -> no_faults (backend w) ->
  tasks_seq (file (backend w)) < maxInt64 ->
  let now := clock w (ticks w) in
  let id := tasks_seq (file (backend w)) + 1 in
  let t := mkTask id title description false priority now now None in
  exists w',
    Service.Add title description priority w = ((Some t, nil), w') /\
    tasks_rows (file (backend w')) = (tasks_rows (file (backend w)) ++ [created_row t id])%list.
Proof.
  intros Hr Hnf Hseq now id t.
  destruct (Create_ready (mkTask 0 title description false priority now now None)
              (mkWorld (backend w) (clock w) (S (ticks w))) Hr Hnf Hseq)
    as (w' & HC & Hrows & _).
  exists w'. split; [|exact Hrows].
  unfold Service.Add, bind, time_Now.
  change (@repo_Create DB SQLiteStore_Repository) with Create.
  fold now. rewrite HC. reflexivity.
Qed.

(** C6, as amended.  The empty title is refused by the handler of the task
    form, which then calls no service operation and leaves the database
    alone.  The service does not look at the title: [Service.Add] with an
    empty title stores a task with an empty title, and [Service.Edit] with
    an empty title empties the title of the object and of its row. *)
Theorem empty_title (t : Task) (description selected : string) (priority : PriorityLevel)
    (existing : option Task) (w : World DB) :
  Desktop.saveTaskForm existing "" description selected w =
    (Some "title cannot be empty", w) /\
  (ready (file (backend w)) -> no_faults (backend w) ->
   tasks_seq (file (backend w)) < maxInt64 ->
   exists t' w',
     Service.Add "" description priority w = ((Some t', nil), w') /\ Title t' = "" /\
     tasks_rows (file (backend w')) =
       (tasks_rows (file (backend w)) ++ [created_row t' (ID t')])%list) /\
  (let '(t', e, w') := Service.Edit t "" description priority w in
   Title t' = "" /\
   (ready (file (backend w)) -> no_faults (backend w) ->
    e = nil /\
    tasks_rows (file (backend w')) =
      map (fun r => if has_id (ID t) r then updated_row t' r else r)
          (tasks_rows (file (backend w))))).
Proof.
  split; [reflexivity|]. split.
  - intros Hr Hnf Hseq.
    destruct (Add_ready "" description priority w Hr Hnf Hseq) as (w' & HA & Hrows).
    eexists _, w'. split; [exact HA|]. split; [reflexivity|exact Hrows].
  - pose proof (Edit_spec t "" description priority w) as T.
    destruct (Service.Edit t "" description priority w) as [[t' e] w'] eqn:E.
    cbn [fst] in T. split.
    + rewrite T.
      match goal with |- context [stamped ?n ?x] =>
        destruct (stamped_fields n x) as (_ & -> & _) end.
      reflexivity.
    + intros Hr Hnf.
      destruct (Edit_ready t "" description priority w Hr Hnf) as (t1 & w1 & HE & Hrows).
      rewrite HE in E. injection E as <- <- <-. now split.
Qed.

Lemma empty_title_witness :
  let w := planted quick_clock in
  let t := first_listed w in
  (exists t' w',
     Service.Add "" "no title" PriorityMedium w = ((Some t', nil), w') /\ Title t' = "" /\
     tasks_rows (file (backend w')) =
       (tasks_rows (file (backend w)) ++ [created_row t' (ID t')])%list) /\
  (let r := Service.Edit t "" "no title" PriorityMedium w in
   snd (fst r) = nil /\
   tasks_rows (file (backend (snd r))) =
     map (fun r0 => if has_id (ID t) r0 then updated_row (fst (fst r)) r0 else r0)
         (tasks_rows (file (backend w)))).
Proof.
  intros w t.
  assert (Hr : ready (file (backend w)))
    by (eexists _, _; split; [vm_compute; reflexivity|]; vm_compute; reflexivity).
  assert (Hnf : no_faults (backend w)) by (vm_compute; reflexivity).
  pose proof (empty_title t "no title" "Medium" PriorityMedium None w) as (_ & A & E).
  split.
  - apply A; [exact Hr|exact Hnf|vm_compute; reflexivity].
  - cbv zeta. destruct (Service.Edit t "" "no title" PriorityMedium w) as [[t' e] w'].
    destruct E as (_ & P). apply P; assumption.
Defined.

(** C6 fails as stated: [Service.Add] with an empty title returns no
    error, and the task with the empty title is listed afterwards. *)
Lemma empty_title_counterexample :
  let r := Service.Add "" "no title" PriorityMedium quick_world in
  exists t l,
    fst r = (Some t, nil) /\ Title t = "" /\
    fst (Service.All (snd r)) = ([l], nil) /\ Title l = "" /\ ID l = ID t.
Proof.
  cbv zeta. eexists _, _. split; [vm_compute; reflexivity|]. split; [reflexivity|].
  split; [vm_compute; reflexivity|]. split; reflexivity.
Qed.

(** ** The default priority *)

Lemma assoc_combine_notin name : forall cols vals,
  ~ In name cols -> assoc name (combine cols vals) = None.
Proof.
  induction cols as [|c cols IH]; intros vals Hn; [reflexivity|].
  destruct vals as [|v vals]; [reflexivity|]. simpl.
  destruct (String.eqb_spec c name) as [->|Hne].
  - exfalso. apply Hn. now left.
  - apply IH. intros Hin. apply Hn. now right.
Qed.

(** C9, as amended.  In the schema created on bootstrap the column
    [tasks.priority] is NOT NULL with default value 1 (Low): a row inserted
    without an explicit priority has priority Low. *)
Theorem priority_default :
  (exists db t,
     New fresh = (Success, db) /\ find_table "tasks" (file db) = Some t /\
     In priority_column (tbl_columns t) /\
     In priority_column tasks_columns /\
     col_notnull priority_column = true /\
     col_default priority_column = Integer PriorityLow) /\
  (forall f rows seq cols vals res f',
     find_table "tasks" f = Some (mkTable migrated_columns rows seq) ->
     ~ In "priority" cols ->
     exec (InsertInto "tasks" cols vals) f = Ok (res, f') ->
     exists r, tasks_rows f' = (rows ++ [r])%list /\
               column_of "priority" r = Integer PriorityLow).
Proof.
  split.
  - eexists _, _. split; [vm_compute; reflexivity|]. split; [vm_compute; reflexivity|].
    split; [vm_compute; tauto|]. split; [vm_compute; tauto|]. split; reflexivity.
  - intros f rows seq cols vals res f' Hf Hn.
    unfold exec, insert_row. rewrite Hf. cbn [tbl_columns tbl_rows tbl_seq].
    destruct (negb (Nat.eqb (List.length cols) (List.length vals))); [discriminate|].
    destruct (negb (forallb _ cols)); [discriminate|].
    destruct (maxInt64 <=? seq); [discriminate|].
    destruct (notnull_ok _ _); [|discriminate].
    intros [= <- <-].
    eexists. split.
    + unfold tasks_rows. rewrite find_set_same. reflexivity.
    + unfold column_of, get_col, new_row. cbn [col_index migrated_columns].
      change (col_index "priority" migrated_columns) with (Some 4%nat).
      cbn [nth map migrated_columns tasks_columns app col_name col_autoincrement col_default].
      rewrite (assoc_combine_notin "priority" cols vals Hn). reflexivity.
Qed.

Lemma priority_default_witness :
  exists r,
    tasks_rows (match exec untitled_insert (file (opened fresh)) with
                | Ok (_, f') => f'
                | Err _ => []
                end) = ([] ++ [r])%list /\
    column_of "priority" r = Integer PriorityLow.
Proof.
  destruct priority_default as (_ & P).
  destruct (exec untitled_insert (file (opened fresh))) as [[res f']|e] eqn:E;
    [|vm_compute in E; discriminate E].
  apply (P (file (opened fresh)) [] 0 ["title"; "created_at"; "updated_at"]
           [Text "Untitled"; Text "2023-11-15T00:13:20+02:00"; Text "2023-11-15T00:13:20+02:00"]
           res f').
  - vm_compute. reflexivity.
  - intros [H|[H|[H|[]]]]; discriminate H.
  - exact E.
Defined.

(** C9 fails as stated: the default of the column is not 2, and a row
    inserted without a priority has priority 1 (Low), not Medium. *)
Lemma priority_default_counterexample :
  col_default priority_column <> Integer PriorityMedium /\
  In priority_column tasks_columns /\
  exists res f' r,
    exec untitled_insert (file (opened fresh)) = Ok (res, f') /\
    tasks_rows f' = [r] /\
    column_of "priority" r = Integer 1 /\
    column_of "priority" r <> Integer PriorityMedium.
Proof.
  split; [discriminate|]. split; [vm_compute; tauto|].
  eexists _, _, _. split; [vm_compute; reflexivity|]. split; [vm_compute; reflexivity|].
  split; [reflexivity|discriminate].
Qed.

(** ** Migrations *)

(** C3.  Opening a database with the driver working: the initial schema
    is run, which on a fresh file leaves version 0 and on a database this
    program made changes nothing; then the steps whose 1-based index exceeds
    the stored version [v] are carried out, each once and in the order of
    the list, and nothing else; if there is none the file stays as it is;
    and the stored version ends equal to the number of steps. *)
Theorem migrations_applied_once (ms : list stmt) (db : DB) (v : Z) (f0 f' : database) :
  no_faults db ->
  bootstrap (file db) = Ok f0 ->
  stored_version f0 = Some v -> 0 <= v ->
  steps_tx v (skipn (Z.to_nat v) ms) f0 = Ok f' ->
  (exists db', New_with ms db = (Success, db') /\ file db' = f' /\ no_faults db') /\
  (file db = [] -> v = 0) /\
  ((exists t, find_table "tasks" (file db) = Some t) ->
   (exists v0, stored_version (file db) = Some v0) -> f0 = file db) /\
  (Z.of_nat (List.length ms) <= v -> f' = f0) /\
  (Forall (fun m => stmt_table m <> "schema_version") ms ->
   v <= Z.of_nat (List.length ms) ->
   stored_version f' = Some (Z.of_nat (List.length ms))).
Proof.
  intros Hnf Hb Hv H0 Hs. split; [|split; [|split; [|split]]].
  - destruct (db_ExecScript_ok initialSchema db f0 Hnf Hb) as (res & db1 & HE & F1 & Hnf1).
    rewrite <- F1 in Hv, Hs.
    destruct (migrate_with_complete ms db1 v f' Hnf1 Hv H0 Hs) as (db' & HM & F' & Hnf').
    exists db'. unfold New_with. rewrite HE, HM. auto.
  - intros Hf. rewrite Hf in Hb. pose proof (bootstrap_fresh f0 Hb) as V0. congruence.
  - intros (t & Ht) (v0 & Hv0).
    pose proof (bootstrap_existing _ _ _ Ht Hv0) as B. congruence.
  - intros Hle. rewrite skipn_all2 in Hs by lia. now injection Hs as <-.
  - intros Hall Hle.
    rewrite (stored_version_steps (skipn (Z.to_nat v) ms) v f0 f' v); auto.
    + f_equal. rewrite length_skipn. lia.
    + rewrite <- (firstn_skipn (Z.to_nat v) ms) in Hall.
      apply Forall_app in Hall. tauto.
Qed.

Lemma migrations_applied_once_witness :
  (exists db', New_with migrations fresh = (Success, db') /\
               file db' = file (opened fresh) /\ no_faults db') /\
  (file fresh = [] -> 0 = 0) /\
  ((exists t, find_table "tasks" (file fresh) = Some t) ->
   (exists v0, stored_version (file fresh) = Some v0) ->
   match bootstrap [] with Ok f0 => f0 | Err _ => [] end = file fresh) /\
  (Z.of_nat (List.length migrations) <= 0 ->
   file (opened fresh) = match bootstrap [] with Ok f0 => f0 | Err _ => [] end) /\
  (Forall (fun m => stmt_table m <> "schema_version") migrations ->
   0 <= Z.of_nat (List.length migrations) ->
   stored_version (file (opened fresh)) = Some (Z.of_nat (List.length migrations))).
Proof.
  apply (migrations_applied_once migrations fresh 0
           (match bootstrap [] with Ok f0 => f0 | Err _ => [] end) (file (opened fresh))).
  - reflexivity.
  - vm_compute. reflexivity.
  - vm_compute. reflexivity.
  - lia.
  - vm_compute. reflexivity.
Defined.

(** C4.  Whatever calls of the driver fail, [migrate] leaves the file with
    a whole number [k] of the pending steps carried out, each with its
    statement and its version advance together: a step whose statement,
    version update or commit fails leaves no trace.  If [migrate] stops
    before the last pending step it returns an error, which [New] hands on;
    and the stored version is then that of the last completed step. *)
Theorem migrate_atomic (ms : list stmt) (db : DB) (v : Z) (out : outcome) (db' : DB) :
  stored_version (file db) = Some v -> 0 <= v ->
  migrate_with ms db = (out, db') ->
  exists k : nat,
    (k <= List.length ms - Z.to_nat v)%nat /\
    steps_tx v (firstn k (skipn (Z.to_nat v) ms)) (file db) = Ok (file db') /\
    (out = Success -> k = (List.length ms - Z.to_nat v)%nat) /\
    ((k < List.length ms - Z.to_nat v)%nat -> exists msg, out = Failure msg) /\
    (forall msg, out <> Panic msg) /\
    (forall msg db0 res, out = Failure msg ->
       db_ExecScript initialSchema db0 = (Ok res, db) ->
       New_with ms db0 = (Failure ("migrate: " ++ msg), db')) /\
    (Forall (fun m => stmt_table m <> "schema_version") ms ->
     stored_version (file db') = Some (v + Z.of_nat k)).
Proof.
  intros Hv H0. unfold migrate_with.
  destruct (read_version db) as [[v'|e] db1] eqn:HR;
    destruct (read_version_spec _ _ _ HR) as [F1 V1].
  - pose proof (V1 v' eq_refl) as Hv'. rewrite Hv in Hv'. injection Hv' as <-.
    assert (En : Z.to_nat (Z.of_nat (List.length ms) - v) = (List.length ms - Z.to_nat v)%nat)
      by lia.
    rewrite En. intros HL.
    destruct (migrate_loop_atomic ms _ v db1 out db' H0 eq_refl HL)
      as (k & Hk & Hsteps & Hsucc & Hfail & Hpanic).
    rewrite F1 in Hsteps.
    exists k. repeat (split; [assumption|]). split.
    + intros msg db0 res -> HE. unfold New_with, migrate_with. now rewrite HE, HR, En, HL.
    + intros Hall.
      rewrite (stored_version_steps (firstn k (skipn (Z.to_nat v) ms)) v (file db) (file db') v);
        auto.
      * f_equal. f_equal. rewrite length_firstn, length_skipn. lia.
      * rewrite <- (firstn_skipn (Z.to_nat v) ms) in Hall. apply Forall_app in Hall.
        destruct Hall as [_ Hall].
        rewrite <- (firstn_skipn k (skipn (Z.to_nat v) ms)) in Hall.
        apply Forall_app in Hall. tauto.
  - intros [= <- <-]. exists O. rewrite F1.
    split; [lia|]. split; [reflexivity|]. split; [discriminate|].
    split; [intros _; eexists; reflexivity|]. split; [discriminate|]. split.
    + intros msg db0 res [= <-] HE. unfold New_with, migrate_with. now rewrite HE, HR.
    + intros _. rewrite Hv. f_equal. lia.
Qed.

Lemma migrate_atomic_witness :
  exists k : nat,
    (k <= List.length migrations - Z.to_nat 0)%nat /\
    steps_tx 0 (firstn k (skipn (Z.to_nat 0) migrations)) (file interrupted)
      = Ok (file (snd (migrate interrupted))) /\
    (fst (migrate interrupted) = Success -> k = (List.length migrations - Z.to_nat 0)%nat) /\
    ((k < List.length migrations - Z.to_nat 0)%nat ->
     exists msg, fst (migrate interrupted) = Failure msg) /\
    (forall msg, fst (migrate interrupted) <> Panic msg) /\
    (forall msg db0 res, fst (migrate interrupted) = Failure msg ->
       db_ExecScript initialSchema db0 = (Ok res, interrupted) ->
       New_with migrations db0 = (Failure ("migrate: " ++ msg), snd (migrate interrupted))) /\
    (Forall (fun m => stmt_table m <> "schema_version") migrations ->
     stored_version (file (snd (migrate interrupted))) = Some (0 + Z.of_nat k)).
Proof.
  apply (migrate_atomic migrations interrupted 0
           (fst (migrate interrupted)) (snd (migrate interrupted))).
  - vm_compute. reflexivity.
  - lia.
  - unfold migrate. destruct (migrate_with migrations interrupted). reflexivity.
Defined.

(** The interrupted launch reports the failure and leaves the bootstrapped
    file, columns and version, as it was; the next launch completes. *)
Example interrupted_launch :
  fst (migrate interrupted) = Failure "update schema version: driver: bad connection" /\
  file (snd (migrate interrupted)) = bootstrapped /\
  stored_version (file (snd (migrate interrupted))) = Some 0 /\
  fst (New (snd (migrate interrupted))) = Success /\
  stored_version (file (snd (New (snd (migrate interrupted))))) = Some 1.
Proof. split_conj; vm_compute; reflexivity. Qed.

(** Opening again a database that is up to date changes nothing; opening
    the database of the release before the [closed_at] migration adds the
    column, empty in the rows there are, and records version 1. *)
Example reopen_and_upgrade :
  New (opened fresh) = (Success, opened fresh) /\
  fst (New legacy) = Success /\
  stored_version (file (opened legacy)) = Some 1 /\
  tasks_rows (file (opened legacy)) =
    [[Integer 1; Text "Pay rent"; Text ""; Integer 1; Integer 2;
      Text "2023-05-01T09:00:00+03:00"; Text "2023-05-02T18:30:00+03:00"; Null]] /\
  New (opened legacy) = (Success, opened legacy).
Proof. split_conj; vm_compute; reflexivity. Qed.

(** ** A session *)

(** Add, list, toggle, edit, delete, on a clock read once a minute. *)
Example session :
  let clk := fun n : nat => mkTime (1700000000 + 60 * Z.of_nat n) 0 7200 in
  let w0 := mkWorld (opened fresh) clk 0 in
  let milk := task_or_zero (fst (Service.Add "Buy milk" "" PriorityMedium w0)) in
  let w1 := run (Service.Add "Buy milk" "" PriorityMedium) w0 in
  let done := fst (fst (Service.Toggle milk w1)) in
  let w2 := run (Service.Toggle milk) w1 in
  let oat := fst (fst (Service.Edit done "Buy oat milk" "2%" PriorityHigh w2)) in
  let w3 := run (Service.Edit done "Buy oat milk" "2%" PriorityHigh) w2 in
  let w4 := run (Service.Delete (ID oat)) w3 in
  fst (Service.All w1) = ([milk], nil) /\
  (ID milk = 1 /\ Done milk = false /\ Priority milk = PriorityMedium /\
   ClosedAt milk = None /\ CreatedAt milk = UpdatedAt milk) /\
  (Done done = true /\ ClosedAt done = Some (clk 2%nat)) /\
  fst (Service.All w2) = ([done], nil) /\
  (Title oat = "Buy oat milk" /\ Priority oat = PriorityHigh /\ Done oat = true /\
   ClosedAt oat = ClosedAt done) /\
  fst (Service.All w3) = ([oat], nil) /\
  fst (Service.All w4) = ([], nil).
Proof. cbv zeta. split_conj; vm_compute; reflexivity. Qed.

End Claims.

(* ================================================================== *)
(** * Further facts about the relational engine *)
(* ================================================================== *)

Module MoreSQLFacts.
Import GoTime SQL Todo SQLiteStore Props MoreProps TimeFacts SQLFacts StoreFacts MigrateFacts
  SessionFacts.

Lemma set_table_same name t : forall db,
  find_table name db = Some t -> set_table name t db = db.
Proof.
  induction db as [|[n t0] db IH]; simpl; [discriminate|].
  destruct (String.eqb n name); intros H.
  - now injection H as ->.
  - now rewrite IH.
Qed.

Section Sorter.
Variable cmp : row -> row -> comparison.
Hypothesis cmp_ordering : ordering cmp.

Lemma insert_by_head x l :
  Forall (fun y => cmp x y <> Gt) l -> insert_by cmp x l = x :: l.
Proof.
  destruct l as [|y l]; [reflexivity|]. intros H. inversion H as [|? ? Hy _]; subst.
  simpl. destruct (cmp x y); congruence.
Qed.

Lemma insert_by_filter (p : row -> bool) x l :
  StronglySorted (fun a b => cmp a b <> Gt) l ->
  filter p (insert_by cmp x l) =
  if p x then insert_by cmp x (filter p l) else filter p l.
Proof.
  induction 1 as [|y l Hs IH Hall].
  - simpl. destruct (p x); reflexivity.
  - assert (Hhead : cmp x y <> Gt ->
                    filter p (x :: y :: l) =
                    if p x then insert_by cmp x (filter p (y :: l)) else filter p (y :: l)).
    { intros Hxy.
      change (filter p (x :: y :: l))
        with (if p x then x :: filter p (y :: l) else filter p (y :: l)).
      destruct (p x); [|reflexivity].
      symmetry. apply insert_by_head.
      rewrite Forall_forall in *. intros z Hz. apply filter_In in Hz as [Hz _].
      destruct Hz as [<-|Hz]; [assumption|].
      apply (ordering_le_trans cmp cmp_ordering x y z); [assumption|now apply Hall]. }
    cbn [insert_by]. destruct (cmp x y) eqn:C.
    + apply Hhead. congruence.
    + apply Hhead. congruence.
    + cbn [filter]. rewrite IH.
      destruct (p y) eqn:Py, (p x) eqn:Px; try reflexivity.
      cbn [insert_by]. now rewrite C.
Qed.

(** Sorting and then dropping rows is dropping them and then sorting. *)
Lemma sort_by_filter (p : row -> bool) l :
  filter p (sort_by cmp l) = sort_by cmp (filter p l).
Proof.
  induction l as [|x l IH]; [reflexivity|].
  change (sort_by cmp (x :: l)) with (insert_by cmp x (sort_by cmp l)).
  rewrite insert_by_filter by (now apply sort_by_sorted).
  cbn [filter]. destruct (p x); [|exact IH].
  change (sort_by cmp (x :: filter p l)) with (insert_by cmp x (sort_by cmp (filter p l))).
  now rewrite IH.
Qed.

End Sorter.

Lemma filter_map_comm {A B : Type} (f : A -> B) (q : B -> bool) l :
  filter q (map f l) = map f (filter (fun a => q (f a)) l).
Proof.
  induction l as [|a l IH]; [reflexivity|]. simpl.
  destruct (q (f a)); simpl; now rewrite IH.
Qed.
End MoreSQLFacts.

(* ================================================================== *)
(** * What a call of the store comes to *)
(* ================================================================== *)

Module MoreStoreFacts.
Import GoTime SQL Todo SQLiteStore Props MoreProps TimeFacts SQLFacts StoreFacts MigrateFacts
  SessionFacts MoreSQLFacts.

(** ** What a call of the store comes to on a ready database *)

Lemma next_fault_eta db :
  next_fault db = (fst (next_fault db), mkDB (file db) (faults (snd (next_fault db)))).
Proof. unfold next_fault. destruct db as [f [|b fs]]; reflexivity. Qed.

Lemma Delete_cases (id : Z) (w : World DB) rows seq :
  find_table "tasks" (file (backend w)) = Some (mkTable migrated_columns rows seq) ->
  forallb wf_row rows = true ->
  Delete id w =
    if fst (next_fault (backend w)) then
      (Some driver_error, mkWorld (snd (next_fault (backend w))) (clock w) (ticks w))
    else
      (nil,
       mkWorld (mkDB (set_table "tasks"
                        (mkTable migrated_columns
                           (filter (fun r => negb (has_id id r)) rows) seq)
                        (file (backend w)))
                     (faults (snd (next_fault (backend w)))))
               (clock w) (ticks w)).
Proof.
  intros Hf Hwf.
  assert (Hfilter : filter (fun r => negb (matches migrated_columns (Some ("id", Integer id)) r))
                           rows = filter (fun r => negb (has_id id r)) rows).
  { apply filter_ext_in. intros r Hr.
    rewrite forallb_forall in Hwf. now rewrite matches_id by auto. }
  unfold Delete, bind, on_db, db_Exec.
  pose proof (next_fault_file (backend w)) as F.
  destruct (next_fault (backend w)) as [[|] d]; cbn [fst snd] in *; [reflexivity|].
  unfold exec. rewrite F, Hf. cbn [tbl_columns tbl_rows tbl_seq].
  change (negb (where_ok migrated_columns (Some ("id", Integer id)))) with false. cbv iota.
  rewrite Hfilter. reflexivity.
Qed.

Lemma Update_cases (t : Task) (w : World DB) rows seq :
  find_table "tasks" (file (backend w)) = Some (mkTable migrated_columns rows seq) ->
  forallb wf_row rows = true ->
  Update t w =
    let t' := stamped (clock w (ticks w)) t in
    if fst (next_fault (backend w)) then
      ((t', Some driver_error),
       mkWorld (snd (next_fault (backend w))) (clock w) (S (ticks w)))
    else
      ((t', nil),
       mkWorld (mkDB (set_table "tasks"
                        (mkTable migrated_columns
                           (map (fun r => if has_id (ID t) r then updated_row t' r else r) rows)
                           seq)
                        (file (backend w)))
                     (faults (snd (next_fault (backend w)))))
               (clock w) (S (ticks w))).
Proof.
  intros Hf Hwf. cbv zeta.
  set (t' := stamped (clock w (ticks w)) t).
  set (rows' := map (fun r => if has_id (ID t) r then updated_row t' r else r) rows).
  assert (IDt : ID t' = ID t).
  { subst t'. unfold stamped. destruct (Done t); [destruct (ClosedAt t)|]; reflexivity. }
  assert (Hmap : map (fun r => if matches migrated_columns (Some ("id", Integer (ID t'))) r
                               then assign_row migrated_columns (update_sets t') r else r) rows
                 = rows').
  { subst rows'. apply map_ext_in. intros r Hr.
    rewrite forallb_forall in Hwf. specialize (Hwf r Hr).
    rewrite matches_id, assign_row_update, IDt by assumption. reflexivity. }
  assert (Hnn : forallb (notnull_ok migrated_columns) rows' = true).
  { subst rows'. rewrite forallb_forall. intros r Hr. apply in_map_iff in Hr as (r0 & <- & Hr0).
    rewrite forallb_forall in Hwf. specialize (Hwf r0 Hr0).
    destruct (has_id (ID t) r0); [|now apply notnull_ok_wf].
    destruct (wf_row_shape r0 Hwf) as (i & title & desc & d & p & c & u & cl & -> & _).
    unfold updated_row. destruct (ClosedAt t'); reflexivity. }
  rewrite Update_unfold. fold t'. cbv zeta.
  unfold on_db, db_Exec. cbn [backend clock ticks].
  pose proof (next_fault_file (backend w)) as F.
  destruct (next_fault (backend w)) as [[|] d]; cbn [fst snd] in *; [reflexivity|].
  unfold exec. rewrite F, Hf. cbn [tbl_columns tbl_rows tbl_seq].
  change (negb (forallb _ (update_sets t') && where_ok _ _)) with false. cbv iota.
  rewrite Hmap, Hnn. reflexivity.
Qed.

Lemma Create_cases (t : Task) (w : World DB) rows seq :
  find_table "tasks" (file (backend w)) = Some (mkTable migrated_columns rows seq) ->
  Create t w =
    if fst (next_fault (backend w)) then
      ((t, Some driver_error), mkWorld (snd (next_fault (backend w))) (clock w) (ticks w))
    else if maxInt64 <=? seq then
      ((t, Some full_error), mkWorld (snd (next_fault (backend w))) (clock w) (ticks w))
    else
      ((set_ID t (seq + 1), nil),
       mkWorld (mkDB (set_table "tasks"
                        (mkTable migrated_columns
                           (rows ++ [created_row t (seq + 1)]) (seq + 1))
                        (file (backend w)))
                     (faults (snd (next_fault (backend w)))))
               (clock w) (ticks w)).
Proof.
  intros Hf.
  unfold Create, bind, on_db, db_Exec.
  pose proof (next_fault_file (backend w)) as F.
  destruct (next_fault (backend w)) as [[|] d]; cbn [fst snd] in *; [reflexivity|].
  unfold exec, insert_row. rewrite F, Hf.
  cbn [tbl_columns tbl_rows tbl_seq].
  change (negb (Nat.eqb _ _)) with false. cbv iota.
  change (negb (forallb _ _)) with false. cbv iota.
  destruct (maxInt64 <=? seq); [reflexivity|].
  change (new_row migrated_columns _ (seq + 1)) with (created_row t (seq + 1)).
  change (notnull_ok migrated_columns (created_row t (seq + 1))) with true. cbv iota.
  reflexivity.
Qed.

Lemma List_cases (w : World DB) rows seq :
  find_table "tasks" (file (backend w)) = Some (mkTable migrated_columns rows seq) ->
  forallb wf_row rows = true ->
  List w =
    if fst (next_fault (backend w)) then
      (([], Some driver_error), mkWorld (snd (next_fault (backend w))) (clock w) (ticks w))
    else
      ((map task_of_row (sort_by list_order rows), nil),
       mkWorld (snd (next_fault (backend w))) (clock w) (ticks w)).
Proof.
  intros Hf Hwf. unfold List, bind, on_db, db_Query.
  pose proof (next_fault_file (backend w)) as F.
  destruct (next_fault (backend w)) as [[|] d]; cbn [fst snd] in *; [reflexivity|].
  rewrite F. unfold select. rewrite Hf. cbn [tbl_columns tbl_rows].
  change (forallb _ _ && forallb _ _) with true. cbv iota.
  pose proof (sort_by_forallb list_order wf_row rows Hwf) as S.
  fold list_order.
  rewrite (map_ext_in _ (fun r => r)), map_id.
  2:{ intros r Hr. apply project_all_columns. rewrite forallb_forall in S. now apply S. }
  unfold ret. rewrite scan_tasks_wf by assumption. reflexivity.
Qed.

(** ** Rows and their ids *)

Lemma has_id_row_id id r : wf_row r = true -> has_id id r = (row_id r =? id).
Proof.
  intros H. destruct (wf_row_shape r H) as (i & title & desc & d & p & c & u & cl & -> & _).
  reflexivity.
Qed.

Lemma ID_task_of_row r : wf_row r = true -> ID (task_of_row r) = row_id r.
Proof.
  intros H. destruct (wf_row_shape r H)
    as (i & title & desc & d & p & c & u & cl & -> & _ & _ & _ & Hcl).
  unfold task_of_row. destruct Hcl as [->|(s & -> & _)]; reflexivity.
Qed.

Lemma row_id_updated t r : wf_row r = true -> row_id (updated_row t r) = row_id r.
Proof.
  intros H. destruct (wf_row_shape r H) as (i & title & desc & d & p & c & u & cl & -> & _).
  reflexivity.
Qed.

Lemma tasks_of_set rows seq f :
  tasks_rows (set_table "tasks" (mkTable migrated_columns rows seq) f) = rows /\
  tasks_seq (set_table "tasks" (mkTable migrated_columns rows seq) f) = seq.
Proof. unfold tasks_rows, tasks_seq. now rewrite find_set_same. Qed.

Lemma same_elsewhere_set t f : same_elsewhere f (set_table "tasks" t f).
Proof. intros name Hne. apply find_set_other. congruence. Qed.
End MoreStoreFacts.

(* ================================================================== *)
(** * What a call of a front end changes *)
(* ================================================================== *)

Module MoreSessionFacts.
Import GoTime SQL Todo SQLiteStore Props MoreProps TimeFacts SQLFacts StoreFacts MigrateFacts
  SessionFacts MoreSQLFacts MoreStoreFacts.

(** The functions of a session are steps of it. *)
Lemma step_after_Add title description priority s :
  step s (after_Add title description priority s).
Proof. destruct s as [w held]. apply step_Add. Qed.

Lemma step_after_Toggle t s : In t (snd s) -> step s (after_Toggle t s).
Proof. destruct s as [w held]. apply step_Toggle. Qed.

Lemma step_after_Delete id s : step s (after_Delete id s).
Proof. destruct s as [w held]. apply step_Delete. Qed.

Section Session.
Variable clk : nat -> Time.
Hypothesis clk_valid : forall n, validTime (clk n).

Lemma next_fault_same db : file (snd (next_fault db)) = file db.
Proof. apply next_fault_file. Qed.

(** What a step does to the table, and the ids of the objects it hands
    to the front end. *)
Lemma step_change s s' :
  session_ok clk s -> step s s' ->
  change clk (fst s) (fst s') /\
  Forall (fun t => In t (snd s) \/
                   (exists r, In r (tasks_rows (file (backend (fst s')))) /\ ID t = row_id r) \/
                   (exists u, In u (snd s) /\ ID t = ID u))
         (snd s').
Proof.
  intros (Hr & Hc & Hh) Hstep.
  destruct Hr as (rows & seq & Hf & Hwf).
  destruct (ready_tasks _ _ _ Hf) as [Hrows Hseq].
  destruct Hstep; cbn [fst snd] in *.
  - (* Add *)
    unfold Service.Add, bind, time_Now.
    change (@repo_Create DB SQLiteStore_Repository) with Create.
    set (t := mkTask 0 title description false priority (clock w (ticks w)) (clock w (ticks w)) None).
    set (w1 := mkWorld (backend w) (clock w) (S (ticks w))).
    rewrite (Create_cases t w1 rows seq Hf). cbn [backend clock ticks w1].
    destruct (fst (next_fault (backend w))) eqn:N; unfold Todo.nil, ret; cbn [fst snd].
    { split.
      - apply change_none; cbn [backend ticks]; [apply next_fault_file|lia].
      - apply Forall_forall. intros u Hu. now left. }
    destruct (maxInt64 <=? seq) eqn:Full; unfold Todo.nil, ret; cbn [fst snd].
    { split.
      - apply change_none; cbn [backend ticks]; [apply next_fault_file|lia].
      - apply Forall_forall. intros u Hu. now left. }
    split.
    + apply (change_insert clk w _ title description priority); cbn [backend file ticks].
      * destruct (tasks_of_set (rows ++ [created_row t (seq + 1)]) (seq + 1) (file (backend w)))
          as [-> _].
        rewrite Hrows, Hseq. subst t. now rewrite Hc.
      * destruct (tasks_of_set (rows ++ [created_row t (seq + 1)]) (seq + 1) (file (backend w)))
          as [_ ->]. now rewrite Hseq.
      * reflexivity.
    + constructor.
      * right. left. exists (created_row t (seq + 1)). cbn [backend file].
        destruct (tasks_of_set (rows ++ [created_row t (seq + 1)]) (seq + 1) (file (backend w)))
          as [-> _].
        split; [apply in_or_app; right; now left|reflexivity].
      * apply Forall_forall. intros u Hu. now left.
  - (* All *)
    change (@Service.All DB SQLiteStore_Repository) with List.
    rewrite (List_cases w rows seq Hf Hwf).
    destruct (fst (next_fault (backend w))) eqn:N; cbn [fst snd].
    { split.
      - apply change_none; cbn [backend ticks]; [apply next_fault_file|lia].
      - apply Forall_forall. intros u Hu. now left. }
    split.
    + apply change_none; cbn [backend ticks]; [apply next_fault_file|lia].
    + apply Forall_app. split; [|apply Forall_forall; intros u Hu; now left].
      apply Forall_forall. intros u Hu. apply in_map_iff in Hu as (r & <- & Hin).
      right. left. exists r. cbn [backend]. rewrite next_fault_file.
      assert (Hr : In r rows).
      { eapply Permutation_in; [apply Permutation_sym, sort_by_perm|exact Hin]. }
      rewrite Hrows. split; [exact Hr|].
      apply ID_task_of_row. rewrite forallb_forall in Hwf. now apply Hwf.
  - (* Toggle *)
    rewrite Toggle_unfold.
    set (u := set_UpdatedAt (set_Done t (negb (Done t))) (clock w (ticks w))).
    set (w1 := mkWorld (backend w) (clock w) (S (ticks w))).
    rewrite (Update_cases u w1 rows seq Hf Hwf). cbv zeta. cbn [backend clock ticks w1].
    assert (IDu : ID (stamped (clock w (S (ticks w))) u) = ID t).
    { destruct (stamped_fields (clock w (S (ticks w))) u) as (-> & _). reflexivity. }
    destruct (fst (next_fault (backend w))) eqn:N; cbn [fst snd].
    { split.
      - apply change_none; cbn [backend ticks]; [apply next_fault_file|lia].
      - constructor; [right; right; exists t; now split|].
        apply Forall_forall. intros v Hv. now left. }
    split.
    + apply (change_update clk w _ u); cbn [backend file ticks].
      * subst u. cbn. now rewrite Hc.
      * destruct (tasks_of_set
                    (map (fun r => if has_id (ID u) r
                                   then updated_row (stamped (clock w (S (ticks w))) u) r else r)
                         rows) seq (file (backend w))) as [-> _].
        rewrite Hrows, Hc. reflexivity.
      * destruct (tasks_of_set
                    (map (fun r => if has_id (ID u) r
                                   then updated_row (stamped (clock w (S (ticks w))) u) r else r)
                         rows) seq (file (backend w))) as [_ ->].
        now rewrite Hseq.
      * reflexivity.
    + constructor; [right; right; exists t; now split|].
      apply Forall_forall. intros v Hv. now left.
  - (* Edit *)
    rewrite Edit_unfold.
    set (u := set_UpdatedAt (set_Priority (set_Description (set_Title t title) description)
                                          priority) (clock w (ticks w))).
    set (w1 := mkWorld (backend w) (clock w) (S (ticks w))).
    rewrite (Update_cases u w1 rows seq Hf Hwf). cbv zeta. cbn [backend clock ticks w1].
    assert (IDu : ID (stamped (clock w (S (ticks w))) u) = ID t).
    { destruct (stamped_fields (clock w (S (ticks w))) u) as (-> & _). reflexivity. }
    destruct (fst (next_fault (backend w))) eqn:N; cbn [fst snd].
    { split.
      - apply change_none; cbn [backend ticks]; [apply next_fault_file|lia].
      - constructor; [right; right; exists t; now split|].
        apply Forall_forall. intros v Hv. now left. }
    split.
    + apply (change_update clk w _ u); cbn [backend file ticks].
      * subst u. cbn. now rewrite Hc.
      * destruct (tasks_of_set
                    (map (fun r => if has_id (ID u) r
                                   then updated_row (stamped (clock w (S (ticks w))) u) r else r)
                         rows) seq (file (backend w))) as [-> _].
        rewrite Hrows, Hc. reflexivity.
      * destruct (tasks_of_set
                    (map (fun r => if has_id (ID u) r
                                   then updated_row (stamped (clock w (S (ticks w))) u) r else r)
                         rows) seq (file (backend w))) as [_ ->].
        now rewrite Hseq.
      * reflexivity.
    + constructor; [right; right; exists t; now split|].
      apply Forall_forall. intros v Hv. now left.
  - (* Delete *)
    change (@Service.Delete DB SQLiteStore_Repository id) with (Delete id).
    rewrite (Delete_cases id w rows seq Hf Hwf).
    destruct (fst (next_fault (backend w))) eqn:N; cbn [fst snd].
    { split.
      - apply change_none; cbn [backend ticks]; [apply next_fault_file|lia].
      - apply Forall_forall. intros u Hu. now left. }
    split.
    + apply (change_delete clk w _ id); cbn [backend file ticks].
      * destruct (tasks_of_set (filter (fun r => negb (has_id id r)) rows) seq (file (backend w)))
          as [-> _]. now rewrite Hrows.
      * destruct (tasks_of_set (filter (fun r => negb (has_id id r)) rows) seq (file (backend w)))
          as [_ ->]. now rewrite Hseq.
      * reflexivity.
    + apply Forall_forall. intros u Hu. now left.
Qed.

End Session.
End MoreSessionFacts.

(* ================================================================== *)
(** * What holds throughout a session *)
(* ================================================================== *)

Module InvariantFacts.
Import GoTime SQL Todo SQLiteStore Props MoreProps TimeFacts SQLFacts StoreFacts MigrateFacts
  SessionFacts MoreSQLFacts MoreStoreFacts MoreSessionFacts.

Lemma NoDup_map_filter {A B : Type} (f : A -> B) (p : A -> bool) l :
  NoDup (map f l) -> NoDup (map f (filter p l)).
Proof.
  induction l as [|a l IH]; simpl; intros H; [constructor|].
  inversion H as [|? ? Hn Hd]; subst.
  destruct (p a); simpl; [|auto].
  constructor; [|auto].
  intros Hin. apply Hn. apply in_map_iff in Hin as (x & E & Hx).
  apply filter_In in Hx as [Hx _]. apply in_map_iff. now exists x.
Qed.

Lemma row_id_created t id : row_id (created_row t id) = id.
Proof. reflexivity. Qed.

Lemma map_row_id_updated (q : row -> bool) t rows :
  forallb wf_row rows = true ->
  map row_id (map (fun r => if q r then updated_row t r else r) rows) = map row_id rows.
Proof.
  intros Hwf. rewrite map_map. apply map_ext_in. intros r Hr.
  rewrite forallb_forall in Hwf.
  destruct (q r); [apply row_id_updated; auto|reflexivity].
Qed.

Section Session.
Variable clk : nat -> Time.
Hypothesis clk_valid : forall n, validTime (clk n).

(** Induction on the sessions, with what is known of them all. *)
Lemma reachable_inv (P : session -> Prop) :
  (forall db, file db = file (opened fresh) -> P (mkWorld db clk 0, [])) ->
  (forall s s', session_ok clk s -> session_ok clk s' -> step s s' -> P s -> P s') ->
  forall s, reachable clk s -> P s.
Proof.
  intros Hinit Hstep s Hs.
  induction Hs as [db0 db Hf HN|s s' Hs IH St].
  - apply Hinit. now destruct (New_fresh_success db0 db Hf HN).
  - pose proof (reachable_ready clk clk_valid s Hs) as Ok.
    apply (Hstep s s'); auto. exact (step_session_ok clk clk_valid s s' Ok St).
Qed.

Lemma change_seq w w' : change clk w w' ->
  tasks_seq (file (backend w)) <= tasks_seq (file (backend w')).
Proof. intros [F _|? ? ? _ S _|? _ _ S _|? _ S _]; try rewrite F; lia. Qed.

Lemma change_ticks w w' : change clk w w' -> (ticks w <= ticks w')%nat.
Proof. intros [_ T|? ? ? _ _ T|? _ _ _ T|? _ _ T]; lia. Qed.

Lemma keyed_change w w' :
  ready (file (backend w)) -> keyed (file (backend w)) ->
  change clk w w' -> keyed (file (backend w')).
Proof.
  intros (rows & seq & Hf & Hwf) [Hnd Hle] Hch.
  destruct (ready_tasks _ _ _ Hf) as [Hrows Hseq]. rewrite Hrows, Hseq in *.
  unfold keyed.
  destruct Hch as [F _|title description priority R S _|u _ R S _|id R S _].
  - rewrite F, Hrows, Hseq. now split.
  - rewrite R, S, Hrows, Hseq. split.
    + rewrite map_app. cbn [map]. rewrite row_id_created.
      apply (Permutation_NoDup (l := (seq + 1) :: map row_id rows)).
      * apply Permutation_cons_append.
      * constructor; [|assumption].
        intros Hin. apply in_map_iff in Hin as (r & E & Hr).
        rewrite Forall_forall in Hle. specialize (Hle r Hr). lia.
    + apply Forall_app. split.
      * eapply Forall_impl; [|exact Hle]. cbv beta. intros; lia.
      * constructor; [|constructor]. rewrite row_id_created. lia.
  - rewrite R, S, Hrows, Hseq. split.
    + now rewrite map_row_id_updated.
    + apply Forall_forall. intros r Hr. apply in_map_iff in Hr as (r0 & <- & Hr0).
      rewrite Forall_forall in Hle. specialize (Hle r0 Hr0).
      rewrite forallb_forall in Hwf.
      destruct (has_id (ID u) r0); [rewrite row_id_updated; auto|assumption].
  - rewrite R, S, Hrows, Hseq. split.
    + now apply NoDup_map_filter.
    + apply Forall_forall. intros r Hr. apply filter_In in Hr as [Hr _].
      rewrite Forall_forall in Hle. now apply Hle.
Qed.

(** The ids of every session are in order. *)
Lemma reachable_ids_ok s : reachable clk s -> ids_ok s.
Proof.
  apply reachable_inv.
  - intros db Hf. unfold ids_ok, keyed. cbn [fst snd backend]. rewrite Hf.
    split; [split|]; constructor.
  - intros s0 s' Ok Ok' St [K H].
    destruct (step_change clk s0 s' Ok St) as [Ch Hheld].
    destruct Ok as (Hr & _). 
    pose proof (keyed_change _ _ Hr K Ch) as K'.
    split; [exact K'|].
    pose proof (change_seq _ _ Ch) as Hseq.
    rewrite Forall_forall in *. intros t Ht.
    destruct (Hheld t Ht) as [Hin|[(r & Hr' & ->)|(u & Hu & ->)]].
    + specialize (H t Hin). lia.
    + destruct K' as [_ Hle]. rewrite Forall_forall in Hle. now apply Hle.
    + specialize (H u Hu). lia.
Qed.

(** ** [closed_at] and [done] *)

Lemma closed_iff_done_change w w' :
  ready (file (backend w)) ->
  forallb closed_iff_done (tasks_rows (file (backend w))) = true ->
  change clk w w' ->
  forallb closed_iff_done (tasks_rows (file (backend w'))) = true.
Proof.
  intros (rows & seq & Hf & Hwf) Hcl Hch.
  destruct (ready_tasks _ _ _ Hf) as [Hrows Hseq]. rewrite Hrows in *.
  destruct Hch as [F _|title description priority R S _|u _ R S _|id R S _].
  - now rewrite F, Hrows.
  - rewrite R, Hrows, forallb_app, Hcl. reflexivity.
  - rewrite R, Hrows. rewrite forallb_forall in *. intros r Hr.
    apply in_map_iff in Hr as (r0 & <- & Hr0).
    destruct (has_id (ID u) r0); [|now apply Hcl].
    destruct (wf_row_shape r0 (Hwf r0 Hr0)) as (i & ti & de & d & p & c & up & cl & -> & _).
    unfold updated_row, stamped, closed_iff_done.
    destruct (Done u) eqn:D; [destruct (ClosedAt u) eqn:C|]; cbn; rewrite ?D, ?C; reflexivity.
  - rewrite R, Hrows. rewrite forallb_forall in *. intros r Hr.
    apply filter_In in Hr as [Hr _]. now apply Hcl.
Qed.

Lemma reachable_closed_iff_done s :
  reachable clk s ->
  forallb closed_iff_done (tasks_rows (file (backend (fst s)))) = true.
Proof.
  revert s.
  apply (reachable_inv
           (fun s => forallb closed_iff_done (tasks_rows (file (backend (fst s)))) = true)).
  - intros db Hf. cbn [fst backend]. rewrite Hf. reflexivity.
  - intros s0 s' Ok Ok' St H.
    destruct (step_change clk s0 s' Ok St) as [Ch _].
    destruct Ok as (Hr & _).
    exact (closed_iff_done_change _ _ Hr H Ch).
Qed.

(** ** The timestamps of a row *)

Lemma timed_weaken n m r : (n <= m)%nat -> timed clk n r -> timed clk m r.
Proof. intros Hle (i & j & Hij & Hc & Hu). exists i, j. repeat split; auto; lia. Qed.

Lemma timed_change w w' :
  ready (file (backend w)) ->
  Forall (timed clk (ticks w)) (tasks_rows (file (backend w))) ->
  change clk w w' ->
  Forall (timed clk (ticks w')) (tasks_rows (file (backend w'))).
Proof.
  intros (rows & seq & Hf & Hwf) Ht Hch.
  destruct (ready_tasks _ _ _ Hf) as [Hrows Hseq]. rewrite Hrows in *.
  destruct Hch as [F T|title description priority R Sq T|u U R Sq T|id R Sq T].
  - rewrite F, Hrows. eapply Forall_impl; [|exact Ht].
    intros r. now apply timed_weaken.
  - rewrite R, Hrows, T. apply Forall_app. split.
    + eapply Forall_impl; [|exact Ht]. intros r. apply timed_weaken. lia.
    + constructor; [|constructor].
      exists (ticks w), (ticks w). split; [lia|]. split; reflexivity.
  - rewrite R, Hrows, T. rewrite Forall_forall in *. intros r Hr.
    apply in_map_iff in Hr as (r0 & <- & Hr0).
    specialize (Ht r0 Hr0).
    destruct (has_id (ID u) r0); [|apply (timed_weaken (ticks w)); [lia|assumption]].
    rewrite forallb_forall in Hwf.
    destruct (wf_row_shape r0 (Hwf r0 Hr0)) as (i0 & ti & de & d & p & c & up & cl & -> & _).
    destruct Ht as (i & j & Hij & Hc & Hu).
    exists i, (ticks w). split; [lia|]. split; [exact Hc|].
    destruct (stamped_fields (clk (S (ticks w))) u) as (_ & _ & _ & _ & _ & _ & HU).
    unfold updated_row, column_of. cbn. rewrite HU, U. reflexivity.
  - rewrite R, Hrows, T. rewrite Forall_forall in *. intros r Hr.
    apply filter_In in Hr as [Hr _]. now apply Ht.
Qed.

Lemma reachable_timed s :
  reachable clk s ->
  Forall (timed clk (ticks (fst s))) (tasks_rows (file (backend (fst s)))).
Proof.
  revert s.
  apply (reachable_inv
           (fun s => Forall (timed clk (ticks (fst s))) (tasks_rows (file (backend (fst s)))))).
  - intros db Hf. cbn [fst backend]. rewrite Hf. constructor.
  - intros s0 s' Ok Ok' St H.
    destruct (step_change clk s0 s' Ok St) as [Ch _].
    destruct Ok as (Hr & _).
    exact (timed_change _ _ Hr H Ch).
Qed.

End Session.
End InvariantFacts.

(* ================================================================== *)
(** * Facts about listings *)
(* ================================================================== *)

Module ListingFacts.
Import GoTime SQL Todo SQLiteStore Props MoreProps TimeFacts SQLFacts StoreFacts MigrateFacts
  SessionFacts MoreSQLFacts MoreStoreFacts MoreSessionFacts InvariantFacts.

Lemma no_faults_next db :
  no_faults db -> fst (next_fault db) = false /\ no_faults (snd (next_fault db)).
Proof.
  intros H. destruct (next_fault_ok db H) as (d & -> & _ & Hn). now split.
Qed.

Lemma no_faults_faults db db' : faults db' = faults db -> no_faults db -> no_faults db'.
Proof. unfold no_faults. now intros ->. Qed.

Lemma All_listing (w : World DB) :
  ready (file (backend w)) -> no_faults (backend w) ->
  fst (Service.All w) = (listing (file (backend w)), nil).
Proof.
  intros Hr Hnf. destruct (List_ready w Hr Hnf) as (w' & HL & _).
  change (@Service.All DB SQLiteStore_Repository) with List. now rewrite HL.
Qed.

Lemma sorted_wf rows r :
  forallb wf_row rows = true -> In r (sort_by list_order rows) -> wf_row r = true.
Proof.
  intros Hwf Hr. pose proof (sort_by_forallb list_order wf_row rows Hwf) as S.
  rewrite forallb_forall in S. now apply S.
Qed.

(** Dropping tasks of a listing by their id is dropping the rows. *)
Lemma listing_filter (q : Z -> bool) rows :
  forallb wf_row rows = true ->
  filter (fun t => q (ID t)) (map task_of_row (sort_by list_order rows)) =
  map task_of_row (sort_by list_order (filter (fun r => q (row_id r)) rows)).
Proof.
  intros Hwf. rewrite filter_map_comm.
  rewrite (filter_ext_in _ (fun r => q (row_id r))).
  2:{ intros r Hr. now rewrite ID_task_of_row by (eapply sorted_wf; eauto). }
  rewrite sort_by_filter; [reflexivity|apply ordering_order_compare].
Qed.

Lemma filter_has_id id rows :
  forallb wf_row rows = true ->
  filter (fun r => negb (has_id id r)) rows = filter (fun r => negb (row_id r =? id)) rows.
Proof.
  intros Hwf. apply filter_ext_in. intros r Hr.
  rewrite forallb_forall in Hwf. now rewrite has_id_row_id by auto.
Qed.

Lemma filter_updated (q : Z -> bool) id t rows :
  forallb wf_row rows = true -> q id = false ->
  filter (fun r => q (row_id r))
         (map (fun r => if has_id id r then updated_row t r else r) rows) =
  filter (fun r => q (row_id r)) rows.
Proof.
  intros Hwf Hq. induction rows as [|r rows IH]; [reflexivity|].
  cbn [forallb] in Hwf. apply andb_true_iff in Hwf as [Hr Hrows].
  cbn [map filter]. rewrite (IH Hrows).
  rewrite (has_id_row_id id r Hr).
  destruct (Z.eqb_spec (row_id r) id) as [E|Ne]; [|reflexivity].
  rewrite row_id_updated by assumption. now rewrite E, Hq.
Qed.

Lemma wf_filter (p : row -> bool) rows :
  forallb wf_row rows = true -> forallb wf_row (filter p rows) = true.
Proof.
  rewrite !forallb_forall. intros H r Hr. apply filter_In in Hr as [Hr _]. now apply H.
Qed.

Lemma map_no_id id t rows :
  forallb wf_row rows = true ->
  Forall (fun r => row_id r <> id) rows ->
  map (fun r => if has_id id r then updated_row t r else r) rows = rows.
Proof.
  intros Hwf Hno. rewrite <- (map_id rows) at 2. apply map_ext_in. intros r Hr.
  rewrite forallb_forall in Hwf. rewrite Forall_forall in Hno.
  rewrite has_id_row_id by auto.
  destruct (Z.eqb_spec (row_id r) id) as [E|Ne]; [now apply Hno in E|reflexivity].
Qed.

Lemma filter_no_id id rows :
  forallb wf_row rows = true ->
  Forall (fun r => row_id r <> id) rows ->
  filter (fun r => negb (has_id id r)) rows = rows.
Proof.
  intros Hwf Hno. induction rows as [|r rows IH]; [reflexivity|].
  cbn [forallb] in Hwf. apply andb_true_iff in Hwf as [Hr Hrows].
  inversion Hno as [|? ? Hn Hno']; subst.
  cbn [filter]. rewrite (has_id_row_id id r Hr).
  destruct (Z.eqb_spec (row_id r) id) as [E|Ne]; [contradiction|].
  cbn. now rewrite IH.
Qed.
End ListingFacts.

(* ================================================================== *)
(** * Facts about files of the earlier release *)
(* ================================================================== *)

Module LegacyFacts.
Import GoTime SQL Todo SQLiteStore Props MoreProps TimeFacts SQLFacts StoreFacts MigrateFacts
  SessionFacts MoreSQLFacts MoreStoreFacts ListingFacts.

Lemma legacy_row_shape r :
  legacy_row r = true ->
  exists id title desc d p c u,
    r = [Integer id; Text title; Text desc; Integer d; Integer p; Text c; Text u] /\
    (d = 0 \/ d = 1) /\ wf_text c = true /\ wf_text u = true.
Proof.
  unfold legacy_row.
  destruct r as [|[|id|] [|[| |title] [|[| |desc] [|[|d|] [|[|p|] [|[| |c] [|[| |u] [|]]]]]]]];
    try discriminate.
  intros H. repeat (apply andb_true_iff in H as [H ?]).
  exists id, title, desc, d, p, c, u. repeat split; auto.
  apply orb_true_iff in H as [H|H]; apply Z.eqb_eq in H; auto.
Qed.

Lemma wf_widen r : legacy_row r = true -> wf_row (widen r) = true.
Proof.
  intros H. destruct (legacy_row_shape r H) as (id & ti & de & d & p & c & u & -> & Hd & Hc & Hu).
  unfold widen. cbn [app]. unfold wf_row. rewrite Hc, Hu.
  destruct Hd as [-> | ->]; reflexivity.
Qed.

Lemma task_of_widen r : legacy_row r = true -> task_of_row (widen r) = legacy_task_of_row r.
Proof.
  intros H. destruct (legacy_row_shape r H) as (id & ti & de & d & p & c & u & -> & _).
  reflexivity.
Qed.

Lemma order_widen a b :
  legacy_row a = true -> legacy_row b = true ->
  list_order (widen a) (widen b) = legacy_order a b.
Proof.
  intros Ha Hb.
  destruct (legacy_row_shape a Ha) as (i1 & t1 & e1 & d1 & p1 & c1 & u1 & -> & _).
  destruct (legacy_row_shape b Hb) as (i2 & t2 & e2 & d2 & p2 & c2 & u2 & -> & _).
  reflexivity.
Qed.

Lemma insert_by_map (g : row -> row) cmp cmp' x l :
  (forall b, In b l -> cmp' (g x) (g b) = cmp x b) ->
  insert_by cmp' (g x) (map g l) = map g (insert_by cmp x l).
Proof.
  induction l as [|y l IH]; intros H; [reflexivity|].
  cbn [map insert_by]. rewrite (H y (or_introl eq_refl)).
  destruct (cmp x y); try reflexivity.
  cbn [map]. rewrite IH; [reflexivity|]. intros b Hb. apply H. now right.
Qed.

Lemma sort_by_map (g : row -> row) cmp cmp' l :
  (forall a b, In a l -> In b l -> cmp' (g a) (g b) = cmp a b) ->
  sort_by cmp' (map g l) = map g (sort_by cmp l).
Proof.
  induction l as [|x l IH]; intros H; [reflexivity|].
  change (sort_by cmp' (map g (x :: l)))
    with (insert_by cmp' (g x) (sort_by cmp' (map g l))).
  change (sort_by cmp (x :: l)) with (insert_by cmp x (sort_by cmp l)).
  rewrite IH by (intros a b Ha Hb; apply H; now right).
  apply insert_by_map. intros b Hb. apply H; [now left|right].
  eapply Permutation_in; [apply Permutation_sym, sort_by_perm|exact Hb].
Qed.

(** ** The bootstrap and the migration of a file of the earlier release *)

Lemma bootstrap_legacy f rows seq :
  find_table "tasks" f = Some (mkTable tasks_columns rows seq) ->
  find_table "schema_version" f = None ->
  bootstrap f = Ok (set_table "schema_version" (version_table 0)
                      (set_table "schema_version"
                         (mkTable [mkColumn "version" "INTEGER" true Null false] [] 0) f)).
Proof.
  intros Ht Hv. unfold bootstrap, initialSchema. cbn [run_script exec].
  rewrite Ht. cbv iota. rewrite Hv. cbv iota.
  rewrite find_set_same. cbn [tbl_rows]. unfold insert_row. rewrite find_set_same.
  reflexivity.
Qed.

Lemma find_tasks_versioned f t t' :
  find_table "tasks" (set_table "schema_version" t (set_table "schema_version" t' f))
  = find_table "tasks" f.
Proof. rewrite !find_set_other by discriminate. reflexivity. Qed.

Lemma migrate_legacy f rows seq :
  find_table "tasks" f = Some (mkTable tasks_columns rows seq) ->
  find_table "schema_version" f = None ->
  exists f',
    steps_tx 0 migrations
      (set_table "schema_version" (version_table 0)
         (set_table "schema_version"
            (mkTable [mkColumn "version" "INTEGER" true Null false] [] 0) f)) = Ok f' /\
    find_table "tasks" f' = Some (mkTable migrated_columns (map widen rows) seq) /\
    find_table "schema_version" f' = Some (version_table 1).
Proof.
  intros Ht Hv. eexists. split.
  - unfold migrations. cbn [steps_tx]. unfold step_tx. cbn [exec].
    rewrite find_tasks_versioned, Ht. cbn [tbl_columns tbl_rows tbl_seq col_name].
    change (has_column "closed_at" tasks_columns) with false. cbv iota.
    cbn [col_notnull andb]. cbv iota.
    rewrite find_set_other by discriminate. rewrite find_set_same.
    cbn [tbl_columns tbl_rows tbl_seq version_table].
    reflexivity.
  - split; [|apply find_set_same].
    rewrite find_set_other by discriminate. rewrite find_set_same. reflexivity.
Qed.
End LegacyFacts.

(* ================================================================== *)
(** * Facts about the store of the earlier release *)
(* ================================================================== *)

Module LegacyStoreFacts.
Import GoTime SQL Todo SQLiteStore Props MoreProps TimeFacts SQLFacts StoreFacts MigrateFacts
  SessionFacts MoreSQLFacts MoreStoreFacts ListingFacts LegacyFacts.

Lemma legacy_scan_task r :
  legacy_row r = true -> LegacyStore.scan_task r = Ok (legacy_task_of_row r).
Proof.
  intros H. destruct (legacy_row_shape r H) as (id & ti & de & d & p & c & u & -> & _).
  reflexivity.
Qed.

Lemma legacy_scan_tasks rows : forall acc,
  forallb legacy_row rows = true ->
  LegacyStore.scan_tasks rows acc = ((acc ++ map legacy_task_of_row rows)%list, nil).
Proof.
  induction rows as [|r rows IH]; intros acc H; simpl.
  - now rewrite app_nil_r.
  - simpl in H. apply andb_true_iff in H as [Hr Hrows].
    rewrite (legacy_scan_task r Hr). rewrite IH by assumption.
    now rewrite <- app_assoc.
Qed.

Lemma legacy_project r :
  legacy_row r = true ->
  map (fun c => get_col tasks_columns c r)
      ["id"; "title"; "description"; "done"; "priority"; "created_at"; "updated_at"]
  = r.
Proof.
  intros H. destruct (legacy_row_shape r H) as (id & ti & de & d & p & c & u & -> & _).
  reflexivity.
Qed.

Lemma legacy_matches_id id r :
  legacy_row r = true ->
  matches tasks_columns (Some ("id", Integer id)) r = has_id id r.
Proof.
  intros H. destruct (legacy_row_shape r H) as (i & ti & de & d & p & c & u & -> & _).
  reflexivity.
Qed.

Lemma legacy_wf_filter (p : row -> bool) rows :
  forallb legacy_row rows = true -> forallb legacy_row (filter p rows) = true.
Proof.
  rewrite !forallb_forall. intros H r Hr. apply filter_In in Hr as [Hr _]. now apply H.
Qed.

Lemma legacy_wf_created t id :
  validTime (CreatedAt t) -> validTime (UpdatedAt t) ->
  legacy_row (legacy_created_row t id) = true.
Proof.
  intros V1 V2. unfold legacy_created_row, legacy_row.
  rewrite (wf_text_Format _ V1), (wf_text_Format _ V2).
  destruct (Done t); reflexivity.
Qed.

Lemma legacy_wf_updated t r :
  legacy_row r = true -> validTime (UpdatedAt t) ->
  legacy_row (legacy_updated_row t r) = true.
Proof.
  intros H V. destruct (legacy_row_shape r H) as (i & ti & de & d & p & c & u & -> & _ & Hc & _).
  unfold legacy_updated_row, legacy_row. rewrite Hc, (wf_text_Format _ V).
  destruct (Done t); reflexivity.
Qed.

(** ** What a call of the earlier store comes to *)

Lemma Legacy_List_cases (w : World DB) rows seq :
  find_table "tasks" (file (backend w)) = Some (mkTable tasks_columns rows seq) ->
  forallb legacy_row rows = true ->
  LegacyStore.List w =
    if fst (next_fault (backend w)) then
      (([], Some driver_error), mkWorld (snd (next_fault (backend w))) (clock w) (ticks w))
    else
      ((map legacy_task_of_row (sort_by legacy_order rows), nil),
       mkWorld (snd (next_fault (backend w))) (clock w) (ticks w)).
Proof.
  intros Hf Hwf. unfold LegacyStore.List, bind, on_db, db_Query.
  pose proof (next_fault_file (backend w)) as F.
  destruct (next_fault (backend w)) as [[|] d]; cbn [fst snd] in *; [reflexivity|].
  rewrite F. unfold select. rewrite Hf. cbn [tbl_columns tbl_rows].
  change (forallb _ _ && forallb _ _) with true. cbv iota.
  pose proof (sort_by_forallb legacy_order legacy_row rows Hwf) as S.
  fold legacy_order.
  rewrite (map_ext_in _ (fun r => r)), map_id.
  2:{ intros r Hr. apply legacy_project. rewrite forallb_forall in S. now apply S. }
  unfold ret. rewrite legacy_scan_tasks by assumption. reflexivity.
Qed.

Lemma Legacy_Create_cases (t : Task) (w : World DB) rows seq :
  find_table "tasks" (file (backend w)) = Some (mkTable tasks_columns rows seq) ->
  LegacyStore.Create t w =
    if fst (next_fault (backend w)) then
      ((t, Some driver_error), mkWorld (snd (next_fault (backend w))) (clock w) (ticks w))
    else if maxInt64 <=? seq then
      ((t, Some full_error), mkWorld (snd (next_fault (backend w))) (clock w) (ticks w))
    else
      ((set_ID t (seq + 1), nil),
       mkWorld (mkDB (set_table "tasks"
                        (mkTable tasks_columns
                           (rows ++ [legacy_created_row t (seq + 1)]) (seq + 1))
                        (file (backend w)))
                     (faults (snd (next_fault (backend w)))))
               (clock w) (ticks w)).
Proof.
  intros Hf.
  unfold LegacyStore.Create, bind, on_db, db_Exec.
  pose proof (next_fault_file (backend w)) as F.
  destruct (next_fault (backend w)) as [[|] d]; cbn [fst snd] in *; [reflexivity|].
  unfold exec, insert_row. rewrite F, Hf.
  cbn [tbl_columns tbl_rows tbl_seq].
  change (negb (Nat.eqb _ _)) with false. cbv iota.
  change (negb (forallb _ _)) with false. cbv iota.
  destruct (maxInt64 <=? seq); [reflexivity|].
  change (new_row tasks_columns _ (seq + 1)) with (legacy_created_row t (seq + 1)).
  change (notnull_ok tasks_columns (legacy_created_row t (seq + 1))) with true. cbv iota.
  reflexivity.
Qed.

Lemma Legacy_Update_cases (t : Task) (w : World DB) rows seq :
  find_table "tasks" (file (backend w)) = Some (mkTable tasks_columns rows seq) ->
  forallb legacy_row rows = true ->
  LegacyStore.Update t w =
    if fst (next_fault (backend w)) then
      ((t, Some driver_error), mkWorld (snd (next_fault (backend w))) (clock w) (ticks w))
    else
      ((t, nil),
       mkWorld (mkDB (set_table "tasks"
                        (mkTable tasks_columns
                           (map (fun r => if has_id (ID t) r then legacy_updated_row t r else r)
                                rows)
                           seq)
                        (file (backend w)))
                     (faults (snd (next_fault (backend w)))))
               (clock w) (ticks w)).
Proof.
  intros Hf Hwf.
  set (rows' := map (fun r => if has_id (ID t) r then legacy_updated_row t r else r) rows).
  assert (Hmap : map (fun r => if matches tasks_columns (Some ("id", Integer (ID t))) r
                               then assign_row tasks_columns
                                      [("title", Text (Title t)); ("description", Text (Description t));
                                       ("done", Integer (LegacyStore.boolToInt (Done t)));
                                       ("priority", Integer (Priority t));
                                       ("updated_at", Text (Format (UpdatedAt t)))] r
                               else r) rows
                 = rows').
  { subst rows'. apply map_ext_in. intros r Hr.
    rewrite forallb_forall in Hwf. specialize (Hwf r Hr).
    rewrite legacy_matches_id by assumption.
    destruct (legacy_row_shape r Hwf) as (i & ti & de & d & p & c & u & -> & _).
    reflexivity. }
  assert (Hnn : forallb (notnull_ok tasks_columns) rows' = true).
  { subst rows'. rewrite forallb_forall. intros r Hr. apply in_map_iff in Hr as (r0 & <- & Hr0).
    rewrite forallb_forall in Hwf. specialize (Hwf r0 Hr0).
    destruct (legacy_row_shape r0 Hwf) as (i & ti & de & d & p & c & u & -> & _).
    destruct (has_id (ID t) _); reflexivity. }
  unfold LegacyStore.Update, bind, on_db, db_Exec.
  pose proof (next_fault_file (backend w)) as F.
  destruct (next_fault (backend w)) as [[|] d]; cbn [fst snd] in *; [reflexivity|].
  unfold exec. rewrite F, Hf. cbn [tbl_columns tbl_rows tbl_seq].
  change (negb (forallb _ _ && where_ok _ _)) with false. cbv iota.
  rewrite Hmap, Hnn. reflexivity.
Qed.

Lemma Legacy_Delete_cases (id : Z) (w : World DB) rows seq :
  find_table "tasks" (file (backend w)) = Some (mkTable tasks_columns rows seq) ->
  forallb legacy_row rows = true ->
  LegacyStore.Delete id w =
    if fst (next_fault (backend w)) then
      (Some driver_error, mkWorld (snd (next_fault (backend w))) (clock w) (ticks w))
    else
      (nil,
       mkWorld (mkDB (set_table "tasks"
                        (mkTable tasks_columns
                           (filter (fun r => negb (has_id id r)) rows) seq)
                        (file (backend w)))
                     (faults (snd (next_fault (backend w)))))
               (clock w) (ticks w)).
Proof.
  intros Hf Hwf.
  assert (Hfilter : filter (fun r => negb (matches tasks_columns (Some ("id", Integer id)) r))
                           rows = filter (fun r => negb (has_id id r)) rows).
  { apply filter_ext_in. intros r Hr.
    rewrite forallb_forall in Hwf. now rewrite legacy_matches_id by auto. }
  unfold LegacyStore.Delete, bind, on_db, db_Exec.
  pose proof (next_fault_file (backend w)) as F.
  destruct (next_fault (backend w)) as [[|] d]; cbn [fst snd] in *; [reflexivity|].
  unfold exec. rewrite F, Hf. cbn [tbl_columns tbl_rows tbl_seq].
  change (negb (where_ok tasks_columns (Some ("id", Integer id)))) with false. cbv iota.
  rewrite Hfilter. reflexivity.
Qed.

Lemma legacy_file_set f rows seq rows' seq' :
  find_table "tasks" f = Some (mkTable tasks_columns rows seq) ->
  find_table "schema_version" f = None ->
  forallb legacy_row rows' = true ->
  legacy_file (set_table "tasks" (mkTable tasks_columns rows' seq') f).
Proof.
  intros Ht Hv Hwf. exists rows', seq'. split; [apply find_set_same|]. split; [|exact Hwf].
  rewrite find_set_other by discriminate. exact Hv.
Qed.

(** ** Opening a file of the earlier release *)

Lemma New_legacy (db : DB) rows seq :
  find_table "tasks" (file db) = Some (mkTable tasks_columns rows seq) ->
  find_table "schema_version" (file db) = None ->
  forallb legacy_row rows = true ->
  no_faults db ->
  exists db',
    New db = (Success, db') /\ no_faults db' /\
    find_table "tasks" (file db') = Some (mkTable migrated_columns (map widen rows) seq) /\
    find_table "schema_version" (file db') = Some (version_table 1) /\
    forallb wf_row (map widen rows) = true.
Proof.
  intros Ht Hv Hwf Hnf.
  pose proof (bootstrap_legacy _ _ _ Ht Hv) as Hb.
  destruct (migrate_legacy _ _ _ Ht Hv) as (f' & Hs & Ht' & Hv').
  destruct (db_ExecScript_ok initialSchema db _ Hnf Hb) as (res & db1 & HE & F1 & Hnf1).
  assert (V0 : stored_version (file db1) = Some 0).
  { rewrite F1. apply stored_version_inv.
    eexists _, _, _. split; [apply find_set_same|]. repeat split. }
  destruct (migrate_with_complete migrations db1 0 f' Hnf1 V0 ltac:(lia))
    as (db' & HM & F' & Hnf').
  { rewrite F1. exact Hs. }
  exists db'. unfold New, New_with. rewrite HE, HM. rewrite F'.
  repeat split; auto.
  rewrite forallb_forall in *. intros r Hr. apply in_map_iff in Hr as (r0 & <- & Hr0).
  apply wf_widen. now apply Hwf.
Qed.
End LegacyStoreFacts.

(* ================================================================== *)
(** * Facts about the window *)
(* ================================================================== *)

Module WindowFacts.
Import GoTime SQL Todo SQLiteStore Props MoreProps TimeFacts SQLFacts StoreFacts MigrateFacts
  SessionFacts MoreSQLFacts MoreStoreFacts ListingFacts.

(** The first loop of [refresh] keeps the tasks the filter shows. *)
Lemma keep_loop flt l : forall acc,
  fold_left (Window.keep_step flt) l acc = (acc ++ filter (shown_under flt) l)%list.
Proof.
  induction l as [|t l IH]; intros acc; cbn [fold_left filter].
  - now rewrite app_nil_r.
  - rewrite IH. unfold Window.keep_step, shown_under.
    destruct (String.eqb flt "active"); [|destruct (String.eqb flt "done")];
      destruct (Done t); cbn [negb]; rewrite <- ?app_assoc; reflexivity.
Qed.

(** The second loop counts the tasks that are done. *)
Lemma count_loop l : forall n,
  fold_left Window.count_step l n = n + Z.of_nat (List.length (filter Done l)).
Proof.
  induction l as [|t l IH]; intros n; cbn [fold_left filter].
  - cbn. lia.
  - rewrite IH. unfold Window.count_step. destruct (Done t); cbn [List.length]; lia.
Qed.

Lemma filter_twice {A : Type} (p q : A -> bool) l :
  filter p (filter q l) = filter (fun x => p x && q x) l.
Proof.
  induction l as [|a l IH]; [reflexivity|]. cbn [filter].
  destruct (q a); cbn [filter]; rewrite IH; [|now rewrite andb_false_r].
  rewrite andb_true_r. reflexivity.
Qed.

(** [Update] on a ready database, with the driver working: no error, a
    ready database, and the listing as it was for the other ids. *)
Lemma Update_others (u : Task) (w : World DB) :
  ready (file (backend w)) -> no_faults (backend w) ->
  validTime (UpdatedAt u) -> closed_valid (stamped (clock w (ticks w)) u) ->
  let w' := snd (Update u w) in
  fst (Update u w) = (stamped (clock w (ticks w)) u, nil) /\
  ready (file (backend w')) /\ no_faults (backend w') /\
  filter (fun v => negb (ID v =? ID u)) (listing (file (backend w'))) =
    filter (fun v => negb (ID v =? ID u)) (listing (file (backend w))) /\
  Forall (fun v => ID v = ID u -> Done v = Done u) (listing (file (backend w'))).
Proof.
  intros Hr Hnf Vu Vc. pose proof Hr as (rows & seq & Hf & Hwf).
  destruct (ready_tasks _ _ _ Hf) as [Hrows Hseq].
  destruct (no_faults_next _ Hnf) as [N Hnf1].
  cbv zeta. rewrite (Update_cases u w rows seq Hf Hwf). cbv zeta. rewrite N.
  cbn [fst snd backend file].
  set (u' := stamped (clock w (ticks w)) u) in *.
  set (rows' := map (fun r => if has_id (ID u) r then updated_row u' r else r) rows).
  destruct (stamped_fields (clock w (ticks w)) u) as (_ & _ & _ & HD & _ & _ & HU).
  fold u' in HD, HU.
  assert (Hwf' : forallb wf_row rows' = true).
  { subst rows'. rewrite forallb_forall. intros r Hr'.
    apply in_map_iff in Hr' as (r0 & <- & Hr0).
    rewrite forallb_forall in Hwf. specialize (Hwf r0 Hr0).
    destruct (has_id (ID u) r0); [|assumption].
    apply wf_updated_row; [assumption|now rewrite HU|exact Vc]. }
  split; [reflexivity|].
  split; [exists rows', seq; split; [apply find_set_same|exact Hwf']|].
  split; [exact Hnf1|].
  unfold listing. rewrite (proj1 (tasks_of_set _ _ _)), Hrows.
  split.
  - rewrite !(listing_filter (fun i => negb (i =? ID u))) by assumption.
    subst rows'.
    rewrite (filter_updated (fun i => negb (i =? ID u))) by (auto; now rewrite Z.eqb_refl).
    reflexivity.
  - apply Forall_forall. intros v Hv. apply in_map_iff in Hv as (r & <- & Hin).
    assert (Hr' : In r rows').
    { eapply Permutation_in; [apply Permutation_sym, sort_by_perm|exact Hin]. }
    subst rows'. apply in_map_iff in Hr' as (r0 & E & Hr0).
    rewrite forallb_forall in Hwf. specialize (Hwf r0 Hr0).
    destruct (has_id (ID u) r0) eqn:Hid; subst r.
    + intros _.
      assert (Hid' : has_id (ID u') r0 = true).
      { subst u'. destruct (stamped_fields (clock w (ticks w)) u) as (-> & _). exact Hid. }
      rewrite (Claims.task_of_updated_row u' r0 Hwf Hid');
        [exact HD|now rewrite HU|exact Vc].
    + rewrite ID_task_of_row by assumption. rewrite has_id_row_id in Hid by assumption.
      apply Z.eqb_neq in Hid. contradiction.
Qed.

(** What [refresh] hands back, from what the listing hands back. *)
Lemma refresh_result {R : Type} `{Repository R} (s : Window.appState) (w : World R) :
  fst (Window.refresh s w) =
  match fst (Service.All w) with
  | (_, Some e) => (s, Some e)
  | (all, None) =>
      (Window.mkAppState
         (filter (shown_under (Window.filter s)) all)
         (Window.filter s)
         (Window.Sprintf_d (Z.of_nat (List.length (filter Done all))) ++ " / " ++
          Window.Sprintf_d (Z.of_nat (List.length all)) ++ " completed"),
       None)
  end.
Proof.
  unfold Window.refresh, bind.
  destruct (Service.All w) as [[all [e|]] w']; cbn [fst snd]; unfold ret; [reflexivity|].
  rewrite keep_loop, count_loop. reflexivity.
Qed.
End WindowFacts.

(* ================================================================== *)
(** * Facts about opening *)
(* ================================================================== *)

Module OpenFacts.
Import GoTime SQL Todo SQLiteStore Props MoreProps TimeFacts SQLFacts StoreFacts MigrateFacts
  SessionFacts.

(** Whatever the driver meets, a script leaves the file with a whole
    number of its statements run. *)
Lemma db_ExecScript_prefix script : forall db r db',
  db_ExecScript script db = (r, db') ->
  exists k : nat,
    (k <= List.length script)%nat /\
    run_script (firstn k script) (file db) = Ok (file db') /\
    (forall res, r = Ok res -> k = List.length script).
Proof.
  induction script as [|s rest IH]; intros db r db'.
  - cbn. intros [= <- <-]. exists O. repeat split; auto.
  - destruct rest as [|s' rest'].
    + cbn [db_ExecScript]. intros E.
      destruct (db_Exec_cases _ _ _ _ E) as [[F (e & ->)]|(res & -> & X)].
      * exists O. cbn. rewrite F. repeat split; auto. discriminate.
      * exists 1%nat. cbn [firstn run_script List.length]. rewrite X.
        repeat split; auto.
    + change (db_ExecScript (s :: s' :: rest') db)
        with (match db_Exec s db with
              | (Ok _, db) => db_ExecScript (s' :: rest') db
              | (Err e, db) => (Err e, db)
              end).
      destruct (db_Exec s db) as [[res0|e] db0] eqn:E.
      * intros H. destruct (IH db0 r db' H) as (k & Hk & Hrun & Hall).
        exists (S k). split; [cbn [List.length] in *; lia|].
        cbn [firstn run_script]. rewrite (db_Exec_ok_inv _ _ _ _ E).
        split; [exact Hrun|]. intros res Hres. cbn [List.length] in *.
        now rewrite (Hall res Hres).
      * intros [= <- <-]. pose proof (db_Exec_world _ _ _ _ E) as F.
        exists O. cbn. rewrite F. repeat split; [lia|discriminate].
Qed.

(** From each of the files a first launch can leave, a launch with the
    driver working reaches the ready database. *)
Lemma New_from (db : DB) (f0 : database) (v : Z) :
  no_faults db ->
  bootstrap (file db) = Ok f0 -> stored_version f0 = Some v -> 0 <= v ->
  steps_tx v (skipn (Z.to_nat v) migrations) f0 = Ok (file (opened fresh)) ->
  exists db', New db = (Success, db') /\ file db' = file (opened fresh) /\ no_faults db'.
Proof.
  intros Hnf Hb Hv H0 Hs.
  destruct (db_ExecScript_ok initialSchema db f0 Hnf Hb) as (res & db1 & HE & F1 & Hnf1).
  rewrite <- F1 in Hv, Hs.
  destruct (migrate_with_complete migrations db1 v _ Hnf1 Hv H0 Hs) as (db' & HM & F' & Hnf').
  exists db'. unfold New, New_with. rewrite HE, HM. auto.
Qed.
End OpenFacts.

(* ================================================================== *)
(** * Further properties of the service, the stores and the front ends *)
(* ================================================================== *)

Module Extras.
Import GoTime SQL Todo SQLiteStore Props MoreProps TimeFacts SQLFacts StoreFacts MigrateFacts
  SessionFacts MoreSQLFacts MoreStoreFacts MoreSessionFacts InvariantFacts ListingFacts
  LegacyFacts LegacyStoreFacts WindowFacts OpenFacts.

Ltac split_all := repeat match goal with |- _ /\ _ => split end.

Ltac ready_by_computation :=
  eexists _, _; split; [vm_compute; reflexivity|]; vm_compute; reflexivity.

(** ** Deleting *)

(** X1.  [Service.Delete] on a ready database: if the driver call goes
    through, no error is reported, the rows whose id is the one given are
    gone and the others stay as they are and in their order, and the rowid
    high-water mark is kept; if the driver call fails, its error is reported
    and the file is as it was.  Either way the other tables are untouched,
    the database is still ready and the clock has not been read. *)
Theorem Delete_by_id (id : Z) (w : World DB) :
  ready (file (backend w)) ->
  let '(e, w') := Service.Delete id w in
  (next_ok (backend w) ->
   e = nil /\
   tasks_rows (file (backend w')) =
     filter (fun r => negb (row_id r =? id)) (tasks_rows (file (backend w))) /\
   tasks_seq (file (backend w')) = tasks_seq (file (backend w))) /\
  (~ next_ok (backend w) ->
   e = Some driver_error /\ file (backend w') = file (backend w)) /\
  same_elsewhere (file (backend w)) (file (backend w')) /\
  ready (file (backend w')) /\
  clock w' = clock w /\ ticks w' = ticks w.
Proof.
  intros Hr. pose proof Hr as (rows & seq & Hf & Hwf).
  destruct (ready_tasks _ _ _ Hf) as [Hrows Hseq].
  change (@Service.Delete DB SQLiteStore_Repository id) with (Delete id).
  rewrite (Delete_cases id w rows seq Hf Hwf). unfold next_ok.
  destruct (fst (next_fault (backend w))) eqn:N; cbn [backend file clock ticks].
  - split; [discriminate|]. split; [intros _; split; [reflexivity|apply next_fault_file]|].
    rewrite next_fault_file. split; [intros name _; reflexivity|]. auto.
  - split.
    { intros _. split; [reflexivity|].
      destruct (tasks_of_set (filter (fun r => negb (has_id id r)) rows) seq (file (backend w)))
        as [-> ->].
      rewrite Hrows, Hseq. split; [now apply filter_has_id|reflexivity]. }
    split; [intros H; now elim H|].
    split; [apply same_elsewhere_set|]. split; [|auto].
    exists (filter (fun r => negb (has_id id r)) rows), seq.
    split; [apply find_set_same|now apply wf_filter].
Qed.

Lemma Delete_by_id_witness :
  let '(e, w') := Service.Delete 1 two_tasks in
  (next_ok (backend two_tasks) ->
   e = nil /\
   tasks_rows (file (backend w')) =
     filter (fun r => negb (row_id r =? 1)) (tasks_rows (file (backend two_tasks))) /\
   tasks_seq (file (backend w')) = tasks_seq (file (backend two_tasks))) /\
  (~ next_ok (backend two_tasks) ->
   e = Some driver_error /\ file (backend w') = file (backend two_tasks)) /\
  same_elsewhere (file (backend two_tasks)) (file (backend w')) /\
  ready (file (backend w')) /\
  clock w' = clock two_tasks /\ ticks w' = ticks two_tasks.
Proof.
  apply (Delete_by_id 1 two_tasks). ready_by_computation.
Defined.

(** X2.  Deleting an id that no row has, on a ready database, leaves the
    file exactly as it is, and reports success unless the driver fails. *)
Theorem Delete_missing_id (id : Z) (w : World DB) :
  ready (file (backend w)) ->
  Forall (fun r => row_id r <> id) (tasks_rows (file (backend w))) ->
  file (backend (snd (Service.Delete id w))) = file (backend w) /\
  (next_ok (backend w) -> fst (Service.Delete id w) = nil).
Proof.
  intros (rows & seq & Hf & Hwf) Hno.
  destruct (ready_tasks _ _ _ Hf) as [Hrows Hseq]. rewrite Hrows in Hno.
  change (@Service.Delete DB SQLiteStore_Repository id) with (Delete id).
  rewrite (Delete_cases id w rows seq Hf Hwf). unfold next_ok.
  destruct (fst (next_fault (backend w))) eqn:N; cbn [fst snd backend file].
  - split; [apply next_fault_file|discriminate].
  - split; [|reflexivity].
    rewrite filter_no_id by assumption. now apply set_table_same.
Qed.

Lemma Delete_missing_id_witness :
  file (backend (snd (Service.Delete 7 (planted quick_clock)))) = file (backend (planted quick_clock)) /\
  (next_ok (backend (planted quick_clock)) ->
   fst (Service.Delete 7 (planted quick_clock)) = nil).
Proof.
  apply (Delete_missing_id 7 (planted quick_clock)).
  - ready_by_computation.
  - vm_compute. constructor; [discriminate|constructor].
Defined.

(** X3.  On a ready database, with the driver working, the listing after
    [Service.Delete] is the listing before it without the tasks of that id,
    the others in the order they had. *)
Theorem All_after_Delete (id : Z) (w : World DB) :
  ready (file (backend w)) -> no_faults (backend w) ->
  fst (Service.All (snd (Service.Delete id w))) =
    (filter (fun t => negb (ID t =? id)) (fst (fst (Service.All w))), nil).
Proof.
  intros Hr Hnf. pose proof Hr as (rows & seq & Hf & Hwf).
  destruct (ready_tasks _ _ _ Hf) as [Hrows Hseq].
  destruct (no_faults_next _ Hnf) as [N Hnf1].
  rewrite (All_listing w Hr Hnf). cbn [fst].
  change (@Service.Delete DB SQLiteStore_Repository id) with (Delete id).
  rewrite (Delete_cases id w rows seq Hf Hwf), N. cbn [snd].
  rewrite All_listing; cbn [backend file].
  - unfold listing. rewrite (proj1 (tasks_of_set _ _ _)), Hrows.
    rewrite (listing_filter (fun i => negb (i =? id))) by assumption.
    now rewrite filter_has_id.
  - eexists _, seq. split; [apply find_set_same|now apply wf_filter].
  - exact Hnf1.
Qed.

Lemma All_after_Delete_witness :
  fst (Service.All (snd (Service.Delete 1 two_tasks))) =
    (filter (fun t => negb (ID t =? 1)) (fst (fst (Service.All two_tasks))), nil).
Proof.
  apply (All_after_Delete 1 two_tasks).
  - ready_by_computation.
  - vm_compute. reflexivity.
Defined.

(** ** Updating *)

(** X4.  [Service.Toggle] and [Service.Edit] of a task whose id no row
    has (a task deleted in the meantime, say), on a ready database: the file
    stays exactly as it is and, unless the driver fails, no error is
    reported, although the task object is changed. *)
Theorem Update_missing_id (t : Task) (title description : string)
    (priority : PriorityLevel) (w : World DB) :
  ready (file (backend w)) ->
  Forall (fun r => row_id r <> ID t) (tasks_rows (file (backend w))) ->
  let toggled := Service.Toggle t w in
  let edited := Service.Edit t title description priority w in
  (file (backend (snd toggled)) = file (backend w) /\
   Done (fst (fst toggled)) = negb (Done t) /\
   (next_ok (backend w) -> snd (fst toggled) = nil)) /\
  (file (backend (snd edited)) = file (backend w) /\
   Title (fst (fst edited)) = title /\
   (next_ok (backend w) -> snd (fst edited) = nil)).
Proof.
  intros (rows & seq & Hf & Hwf) Hno.
  destruct (ready_tasks _ _ _ Hf) as [Hrows Hseq]. rewrite Hrows in Hno.
  cbv zeta. rewrite Toggle_unfold, Edit_unfold.
  set (u1 := set_UpdatedAt (set_Done t (negb (Done t))) (clock w (ticks w))).
  set (u2 := set_UpdatedAt (set_Priority (set_Description (set_Title t title) description)
                                         priority) (clock w (ticks w))).
  set (w1 := mkWorld (backend w) (clock w) (S (ticks w))).
  rewrite (Update_cases u1 w1 rows seq Hf Hwf), (Update_cases u2 w1 rows seq Hf Hwf).
  cbv zeta. cbn [backend clock ticks w1]. unfold next_ok.
  destruct (stamped_fields (clock w (S (ticks w))) u1) as (_ & _ & _ & D1 & _).
  destruct (stamped_fields (clock w (S (ticks w))) u2) as (_ & T2 & _).
  destruct (fst (next_fault (backend w))) eqn:N; cbn [fst snd backend file].
  - rewrite next_fault_file, D1, T2. split_all; try reflexivity; discriminate.
  - change (ID u1) with (ID t). change (ID u2) with (ID t).
    rewrite !map_no_id by assumption.
    rewrite (set_table_same _ _ _ Hf), D1, T2. split_all; reflexivity.
Qed.

Lemma Update_missing_id_witness :
  let t := planted_task quick_clock in
  let w := run (Service.Delete 1) (planted quick_clock) in
  let toggled := Service.Toggle t w in
  let edited := Service.Edit t "Water the ferns" "" PriorityHigh w in
  (file (backend (snd toggled)) = file (backend w) /\
   Done (fst (fst toggled)) = negb (Done t) /\
   (next_ok (backend w) -> snd (fst toggled) = nil)) /\
  (file (backend (snd edited)) = file (backend w) /\
   Title (fst (fst edited)) = "Water the ferns" /\
   (next_ok (backend w) -> snd (fst edited) = nil)).
Proof.
  intros t w.
  apply (Update_missing_id t "Water the ferns" "" PriorityHigh w).
  - ready_by_computation.
  - vm_compute. constructor.
Defined.

(** X5.  On a ready database, with the driver working and the clock
    giving valid times, [Service.Toggle] and [Service.Edit] of a task leave
    every task of another id as it is listed, and in its place among the
    others, and the number of tasks listed is the same. *)
Theorem Update_leaves_others (t : Task) (title description : string)
    (priority : PriorityLevel) (w : World DB) :
  ready (file (backend w)) -> no_faults (backend w) ->
  (forall n, validTime (clock w n)) -> closed_valid t ->
  let others := filter (fun u => negb (ID u =? ID t)) in
  let before := fst (fst (Service.All w)) in
  let toggled := fst (fst (Service.All (snd (Service.Toggle t w)))) in
  let edited := fst (fst (Service.All (snd (Service.Edit t title description priority w)))) in
  others toggled = others before /\ List.length toggled = List.length before /\
  others edited = others before /\ List.length edited = List.length before.
Proof.
  intros Hr Hnf Vclk Vt. pose proof Hr as (rows & seq & Hf & Hwf).
  destruct (ready_tasks _ _ _ Hf) as [Hrows Hseq].
  destruct (no_faults_next _ Hnf) as [N Hnf1].
  cbv zeta. rewrite (All_listing w Hr Hnf). cbn [fst].
  assert (Main : forall u, ID u = ID t -> UpdatedAt u = clock w (ticks w) ->
                   closed_valid u ->
                   let after := fst (fst (Service.All
                                  (snd (Update u (mkWorld (backend w) (clock w) (S (ticks w))))))) in
                   filter (fun v => negb (ID v =? ID t)) after =
                     filter (fun v => negb (ID v =? ID t)) (listing (file (backend w))) /\
                   List.length after = List.length (listing (file (backend w)))).
  { intros u IDu Uu Vu. cbv zeta.
    set (w1 := mkWorld (backend w) (clock w) (S (ticks w))).
    rewrite (Update_cases u w1 rows seq Hf Hwf). cbv zeta. cbn [backend clock ticks w1].
    rewrite N. cbn [snd].
    set (u' := stamped (clock w (S (ticks w))) u).
    set (rows' := map (fun r => if has_id (ID u) r then updated_row u' r else r) rows).
    assert (Hwf' : forallb wf_row rows' = true).
    { subst rows'. rewrite forallb_forall. intros r Hr'.
      apply in_map_iff in Hr' as (r0 & <- & Hr0).
      rewrite forallb_forall in Hwf. specialize (Hwf r0 Hr0).
      destruct (has_id (ID u) r0); [|assumption].
      apply wf_updated_row; [assumption| |].
      - subst u'. destruct (stamped_fields (clock w (S (ticks w))) u)
          as (_ & _ & _ & _ & _ & _ & ->). rewrite Uu. apply Vclk.
      - apply stamped_closed_valid; [apply Vclk|assumption]. }
    rewrite All_listing; cbn [backend file fst].
    2:{ exists rows', seq. split; [apply find_set_same|exact Hwf']. }
    2:{ exact Hnf1. }
    unfold listing. rewrite (proj1 (tasks_of_set _ _ _)), Hrows.
    rewrite !(listing_filter (fun i => negb (i =? ID t))) by assumption.
    subst rows'. rewrite IDu.
    rewrite (filter_updated (fun i => negb (i =? ID t))) by (auto; now rewrite Z.eqb_refl).
    split; [reflexivity|].
    rewrite !length_map.
    rewrite <- (Permutation_length (sort_by_perm list_order _)).
    rewrite <- (Permutation_length (sort_by_perm list_order _)).
    now rewrite length_map. }
  rewrite Toggle_unfold, Edit_unfold.
  destruct (Main (set_UpdatedAt (set_Done t (negb (Done t))) (clock w (ticks w))))
    as [A1 L1]; [reflexivity|reflexivity|exact Vt|].
  destruct (Main (set_UpdatedAt (set_Priority (set_Description (set_Title t title) description)
                                              priority) (clock w (ticks w))))
    as [A2 L2]; [reflexivity|reflexivity|exact Vt|].
  auto.
Qed.

Lemma Update_leaves_others_witness :
  let t := planted_task quick_clock in
  let w := two_tasks in
  let others := filter (fun u => negb (ID u =? ID t)) in
  let before := fst (fst (Service.All w)) in
  let toggled := fst (fst (Service.All (snd (Service.Toggle t w)))) in
  let edited := fst (fst (Service.All (snd (Service.Edit t "Water the ferns" "" PriorityHigh w)))) in
  others toggled = others before /\ List.length toggled = List.length before /\
  others edited = others before /\ List.length edited = List.length before.
Proof.
  apply (Update_leaves_others (planted_task quick_clock) "Water the ferns" ""
           PriorityHigh two_tasks).
  - ready_by_computation.
  - vm_compute. reflexivity.
  - intros n. vm_compute. reflexivity.
  - intros c H. discriminate H.
Defined.

(** ** Adding *)

(** X6.  [Service.Add] reads the clock once.  It hands back either a task
    and no error, or no task and an error.  The task has the title, the
    description and the priority given, is not done, has no [closedAt], and
    has the clock reading as both [createdAt] and [updatedAt].  When an
    error is handed back the file is as it was. *)
Theorem Add_all_or_nothing (title description : string) (priority : PriorityLevel)
    (w : World DB) :
  let '((o, e), w') := Service.Add title description priority w in
  clock w' = clock w /\ ticks w' = S (ticks w) /\
  match o, e with
  | Some t, None =>
      Title t = title /\ Description t = description /\ Priority t = priority /\
      Done t = false /\ ClosedAt t = None /\
      CreatedAt t = clock w (ticks w) /\ UpdatedAt t = clock w (ticks w)
  | None, Some _ => file (backend w') = file (backend w)
  | _, _ => False
  end.
Proof.
  unfold Service.Add, bind, time_Now.
  change (@repo_Create DB SQLiteStore_Repository) with Create.
  unfold Create, bind, on_db. cbn [backend clock ticks].
  destruct (db_Exec _ (backend w)) as [r db'] eqn:E.
  destruct (db_Exec_cases _ _ _ _ E) as [[F (e & ->)]|(res & -> & X)];
    unfold ret, Todo.nil; cbn [fst snd backend clock ticks].
  - auto.
  - split_all; reflexivity.
Qed.

(** X7.  On a ready database whose ids are in order, with the driver
    working and the clock giving a valid time, [Service.Add] hands back the
    task under the next rowid; the listing that follows has that task once,
    its timestamps cut to the second, and, the new task apart, is the
    listing there was before. *)
Theorem Add_then_All (title description : string) (priority : PriorityLevel)
    (w : World DB) :
  ready (file (backend w)) -> keyed (file (backend w)) -> no_faults (backend w) ->
  tasks_seq (file (backend w)) < maxInt64 ->
  validTime (clock w (ticks w)) ->
  let now := clock w (ticks w) in
  let id := tasks_seq (file (backend w)) + 1 in
  let t := mkTask id title description false priority now now None in
  let before := fst (fst (Service.All w)) in
  let after := fst (fst (Service.All (snd (Service.Add title description priority w)))) in
  fst (Service.Add title description priority w) = (Some t, nil) /\
  filter (fun u => ID u =? id) after = [listed t] /\
  filter (fun u => negb (ID u =? id)) after = before /\
  Permutation after (listed t :: before).
Proof.
  intros Hr [Hnd Hle] Hnf Hseq Vnow. pose proof Hr as (rows & seq & Hf & Hwf).
  destruct (ready_tasks _ _ _ Hf) as [Hrows Hs]. rewrite Hrows, Hs in *.
  destruct (no_faults_next _ Hnf) as [N Hnf1].
  cbv zeta. rewrite (All_listing w Hr Hnf). cbn [fst].
  unfold Service.Add, bind, time_Now.
  change (@repo_Create DB SQLiteStore_Repository) with Create.
  set (t0 := mkTask 0 title description false priority (clock w (ticks w)) (clock w (ticks w)) None).
  set (w1 := mkWorld (backend w) (clock w) (S (ticks w))).
  rewrite (Create_cases t0 w1 rows seq Hf). cbn [backend clock ticks w1].
  rewrite N. destruct (Z.leb_spec maxInt64 seq); [lia|].
  unfold ret, Todo.nil. cbn [fst snd].
  split; [reflexivity|].
  set (r := created_row t0 (seq + 1)).
  assert (Hwfr : wf_row r = true) by (now apply wf_created_row).
  assert (Hwf' : forallb wf_row (rows ++ [r]) = true).
  { rewrite forallb_app, Hwf. cbn [forallb andb]. now rewrite Hwfr. }
  assert (Hlisted : task_of_row r =
                    listed (mkTask (seq + 1) title description false priority
                              (clock w (ticks w)) (clock w (ticks w)) None)).
  { subst r. now rewrite Claims.task_of_created_row. }
  assert (Hold : forall q : Z -> bool,
            filter (fun x => q (row_id x)) (rows ++ [r]) =
            (filter (fun x => q (row_id x)) rows ++ if q (seq + 1) then [r] else [])%list).
  { intros q. rewrite filter_app. cbn [filter]. subst r. rewrite row_id_created.
    now destruct (q (seq + 1)). }
  assert (Hnone : filter (fun x => row_id x =? seq + 1) rows = []).
  { clear -Hle. induction rows as [|x rows IH]; [reflexivity|].
    inversion Hle as [|? ? Hx Hrest]; subst. cbn [filter].
    destruct (Z.eqb_spec (row_id x) (seq + 1)); [lia|]. now apply IH. }
  assert (Hall : filter (fun x => negb (row_id x =? seq + 1)) rows = rows).
  { rewrite <- filter_has_id by assumption. apply filter_no_id; [assumption|].
    rewrite Forall_forall in *. intros x Hx. specialize (Hle x Hx). lia. }
  rewrite All_listing; cbn [backend file fst].
  2:{ exists (rows ++ [r])%list, (seq + 1). split; [apply find_set_same|exact Hwf']. }
  2:{ exact Hnf1. }
  unfold listing. rewrite (proj1 (tasks_of_set _ _ _)), Hrows.
  split; [|split].
  - rewrite (listing_filter (fun i => i =? seq + 1)) by assumption.
    rewrite (Hold (fun i => i =? seq + 1)), Hnone, Z.eqb_refl. cbn [app].
    cbn [sort_by fold_right insert_by map]. now rewrite Hlisted.
  - rewrite (listing_filter (fun i => negb (i =? seq + 1))) by assumption.
    rewrite (Hold (fun i => negb (i =? seq + 1))), Hall, Z.eqb_refl. cbn [negb].
    now rewrite app_nil_r.
  - rewrite <- Hlisted. change (task_of_row r :: map task_of_row (sort_by list_order rows))
      with (map task_of_row (r :: sort_by list_order rows)).
    apply Permutation_map.
    eapply Permutation_trans; [apply Permutation_sym, sort_by_perm|].
    eapply Permutation_trans; [apply Permutation_sym, Permutation_cons_append|].
    apply perm_skip. apply sort_by_perm.
Qed.

Lemma Add_then_All_witness :
  let w := planted quick_clock in
  let now := clock w (ticks w) in
  let id := tasks_seq (file (backend w)) + 1 in
  let t := mkTask id "Call the bank" "" false PriorityMedium now now None in
  let before := fst (fst (Service.All w)) in
  let after := fst (fst (Service.All (snd (Service.Add "Call the bank" "" PriorityMedium w)))) in
  fst (Service.Add "Call the bank" "" PriorityMedium w) = (Some t, nil) /\
  filter (fun u => ID u =? id) after = [listed t] /\
  filter (fun u => negb (ID u =? id)) after = before /\
  Permutation after (listed t :: before).
Proof.
  apply (Add_then_All "Call the bank" "" PriorityMedium (planted quick_clock)).
  - ready_by_computation.
  - split; vm_compute.
    + constructor; [intros []|constructor].
    + constructor; [discriminate|constructor].
  - vm_compute. reflexivity.
  - vm_compute. reflexivity.
  - vm_compute. reflexivity.
Defined.

(** The session [garden] is one a front end can reach. *)
Ltac garden_is_reachable :=
  apply (reach_step quick_clock garden3 garden); [|exact (step_after_Delete 1 garden3)];
  apply (reach_step quick_clock garden2 garden3);
    [|apply (step_after_Toggle bank_task garden2); vm_compute; left; reflexivity];
  apply (reach_step quick_clock garden1 garden2);
    [|exact (step_after_Add "Call the bank" "" PriorityMedium garden1)];
  apply (reach_step quick_clock garden0 garden1);
    [|exact (step_after_Add "Water the plants" "balcony" PriorityLow garden0)];
  apply (reach_open quick_clock fresh (opened fresh)); [reflexivity|vm_compute; reflexivity].

(** ** What holds throughout a session *)

(** X8.  In a session that started on a fresh file, under a clock that
    gives valid times and whatever calls of the driver failed, the task
    [Service.Add] hands back has the rowid after the high-water mark: an id
    greater than that of every row and of every task object the front end
    was ever handed, deleted ones included. *)
Theorem Add_fresh_id (clk : nat -> Time) (s : session)
    (title description : string) (priority : PriorityLevel) (t : Task) :
  (forall n, validTime (clk n)) -> reachable clk s ->
  fst (fst (Service.Add title description priority (fst s))) = Some t ->
  ID t = tasks_seq (file (backend (fst s))) + 1 /\
  Forall (fun u => ID u < ID t) (snd s) /\
  Forall (fun r => row_id r < ID t) (tasks_rows (file (backend (fst s)))).
Proof.
  intros V Hs.
  destruct (reachable_ready clk V s Hs) as (Hr & _).
  destruct (reachable_ids_ok clk V s Hs) as [[_ Hle] Hheld].
  destruct Hr as (rows & seq & Hf & Hwf).
  destruct (ready_tasks _ _ _ Hf) as [Hrows Hseq]. rewrite Hrows, Hseq in *.
  unfold Service.Add, bind, time_Now.
  change (@repo_Create DB SQLiteStore_Repository) with Create.
  rewrite (Create_cases _ (mkWorld (backend (fst s)) (clock (fst s)) (S (ticks (fst s))))
             rows seq Hf). cbn [backend clock ticks].
  destruct (fst (next_fault (backend (fst s)))); [discriminate|].
  destruct (maxInt64 <=? seq); [discriminate|].
  unfold ret, Todo.nil. cbn [fst snd]. intros [= <-]. cbn [ID set_ID].
  split; [reflexivity|]. split.
  - eapply Forall_impl; [|exact Hheld]. cbv beta. intros; lia.
  - eapply Forall_impl; [|exact Hle]. cbv beta. intros; lia.
Qed.

Lemma Add_fresh_id_witness :
  let t := mkTask 3 "Buy stamps" "" false PriorityHigh (quick_clock 4) (quick_clock 4) None in
  ID t = tasks_seq (file (backend (fst garden))) + 1 /\
  Forall (fun u => ID u < ID t) (snd garden) /\
  Forall (fun r => row_id r < ID t) (tasks_rows (file (backend (fst garden)))).
Proof.
  apply (Add_fresh_id quick_clock garden "Buy stamps" "" PriorityHigh).
  - intros n. reflexivity.
  - garden_is_reachable.
  - vm_compute. reflexivity.
Defined.

(** X9.  In a session that started on a fresh file, under a clock that
    gives valid times and whatever calls of the driver failed, no listing
    shows two tasks with the same id. *)
Theorem All_ids_distinct (clk : nat -> Time) (s : session) :
  (forall n, validTime (clk n)) -> reachable clk s ->
  NoDup (map ID (fst (fst (Service.All (fst s))))).
Proof.
  intros V Hs.
  destruct (reachable_ready clk V s Hs) as (Hr & _).
  destruct (reachable_ids_ok clk V s Hs) as [[Hnd _] _].
  destruct Hr as (rows & seq & Hf & Hwf).
  destruct (ready_tasks _ _ _ Hf) as [Hrows Hseq]. rewrite Hrows in *.
  change (@Service.All DB SQLiteStore_Repository) with List.
  rewrite (List_cases _ rows seq Hf Hwf).
  destruct (fst (next_fault (backend (fst s)))); cbn [fst]; [constructor|].
  rewrite map_map.
  rewrite (map_ext_in _ row_id).
  2:{ intros r Hr. apply ID_task_of_row. eapply sorted_wf; eauto. }
  eapply Permutation_NoDup; [|exact Hnd].
  apply Permutation_map, sort_by_perm.
Qed.

Lemma All_ids_distinct_witness :
  NoDup (map ID (fst (fst (Service.All (fst garden))))).
Proof.
  apply (All_ids_distinct quick_clock garden).
  - intros n. reflexivity.
  - garden_is_reachable.
Defined.

(** X10.  In a session that started on a fresh file, under a clock that
    gives valid times and whatever calls of the driver failed, every task
    listed has a [closedAt] exactly when it is done. *)
Theorem closedAt_iff_done (clk : nat -> Time) (s : session) :
  (forall n, validTime (clk n)) -> reachable clk s ->
  Forall (fun t => Done t = true <-> ClosedAt t <> None)
         (fst (fst (Service.All (fst s)))).
Proof.
  intros V Hs.
  destruct (reachable_ready clk V s Hs) as (Hr & _).
  pose proof (reachable_closed_iff_done clk V s Hs) as Hcl.
  destruct Hr as (rows & seq & Hf & Hwf).
  destruct (ready_tasks _ _ _ Hf) as [Hrows Hseq]. rewrite Hrows in *.
  change (@Service.All DB SQLiteStore_Repository) with List.
  rewrite (List_cases _ rows seq Hf Hwf).
  destruct (fst (next_fault (backend (fst s)))); cbn [fst]; [constructor|].
  apply Forall_forall. intros t Ht. apply in_map_iff in Ht as (r & <- & Hin).
  assert (Hr : In r rows).
  { eapply Permutation_in; [apply Permutation_sym, sort_by_perm|exact Hin]. }
  rewrite forallb_forall in Hwf, Hcl. specialize (Hwf r Hr). specialize (Hcl r Hr).
  destruct (wf_row_shape r Hwf)
    as (i & ti & de & d & p & c & u & cl & -> & _ & _ & _ & Hshape).
  unfold closed_iff_done in Hcl. apply Bool.eqb_prop in Hcl.
  unfold task_of_row.
  destruct Hshape as [->|(x & -> & Hx)];
    cbn [scan_task scan_int scan_string scan_NullString Done ClosedAt] in *.
  - cbn in Hcl. rewrite Hcl. cbn. split; [discriminate|congruence].
  - destruct (wf_text_inv x Hx) as (tx & -> & _). cbn in Hcl. rewrite Hcl. cbn.
    split; [discriminate|reflexivity].
Qed.

Lemma closedAt_iff_done_witness :
  Forall (fun t => Done t = true <-> ClosedAt t <> None)
         (fst (fst (Service.All (fst garden)))).
Proof.
  apply (closedAt_iff_done quick_clock garden).
  - intros n. reflexivity.
  - garden_is_reachable.
Defined.

(** X11.  In a session that started on a fresh file, under a clock that
    gives valid times and never goes back, and whatever calls of the driver
    failed, no task listed has an [updatedAt] before its [createdAt]. *)
Theorem updatedAt_not_before_createdAt (clk : nat -> Time) (s : session) :
  (forall n, validTime (clk n)) -> steady clk -> reachable clk s ->
  Forall (fun t => Before (UpdatedAt t) (CreatedAt t) = false)
         (fst (fst (Service.All (fst s)))).
Proof.
  intros V St Hs.
  destruct (reachable_ready clk V s Hs) as (Hr & _).
  pose proof (reachable_timed clk V s Hs) as Ht.
  destruct Hr as (rows & seq & Hf & Hwf).
  destruct (ready_tasks _ _ _ Hf) as [Hrows Hseq]. rewrite Hrows in *.
  change (@Service.All DB SQLiteStore_Repository) with List.
  rewrite (List_cases _ rows seq Hf Hwf).
  destruct (fst (next_fault (backend (fst s)))); cbn [fst]; [constructor|].
  apply Forall_forall. intros t Hin. apply in_map_iff in Hin as (r & <- & Hin).
  assert (Hr : In r rows).
  { eapply Permutation_in; [apply Permutation_sym, sort_by_perm|exact Hin]. }
  rewrite forallb_forall in Hwf. specialize (Hwf r Hr).
  rewrite Forall_forall in Ht. destruct (Ht r Hr) as (i & j & Hij & Hc & Hu).
  destruct (wf_row_shape r Hwf)
    as (id & ti & de & d & p & c & u & cl & -> & _ & _ & _ & Hshape).
  change (Text c = Text (Format (clk i))) in Hc.
  change (Text u = Text (Format (clk j))) in Hu.
  injection Hc as ->. injection Hu as ->.
  assert (E : CreatedAt (task_of_row [Integer id; Text ti; Text de; Integer d; Integer p;
                Text (Format (clk i)); Text (Format (clk j)); cl]) = truncSecond (clk i) /\
              UpdatedAt (task_of_row [Integer id; Text ti; Text de; Integer d; Integer p;
                Text (Format (clk i)); Text (Format (clk j)); cl]) = truncSecond (clk j)).
  { unfold task_of_row.
    destruct Hshape as [->|(x & -> & Hx)];
      cbn [scan_task scan_int scan_string scan_NullString CreatedAt UpdatedAt];
      rewrite !Parse__Format by apply V; split; reflexivity. }
  destruct E as [-> ->]. unfold Before, truncSecond. cbn [unix nsec].
  pose proof (St i j ltac:(lia)) as Hle.
  destruct (Z.ltb_spec (unix (clk j)) (unix (clk i))); [lia|].
  now rewrite andb_false_r.
Qed.

Lemma updatedAt_not_before_createdAt_witness :
  Forall (fun t => Before (UpdatedAt t) (CreatedAt t) = false)
         (fst (fst (Service.All (fst garden)))).
Proof.
  apply (updatedAt_not_before_createdAt quick_clock garden).
  - intros n. reflexivity.
  - intros i j _. simpl. lia.
  - garden_is_reachable.
Defined.

(** ** The stored version, out of range *)

(** X12.  [migrate] trusts the version it reads.  With a stored version
    at or above the number of steps it runs nothing and, the driver working,
    succeeds.  With a negative stored version it opens a transaction and
    then indexes the list of steps out of range: the driver working, it
    panics.  In both cases the file is left as it was. *)
Theorem migrate_version_out_of_range (ms : list stmt) (db : DB) (v : Z) :
  stored_version (file db) = Some v ->
  v < 0 \/ Z.of_nat (List.length ms) <= v ->
  let '(out, db') := migrate_with ms db in
  file db' = file db /\
  (no_faults db ->
   if v <? 0 then exists msg, out = Panic msg else out = Success).
Proof.
  intros Hv Hrange. unfold migrate_with.
  destruct (read_version db) as [[v'|e] db1] eqn:HR;
    destruct (read_version_spec _ _ _ HR) as [F1 V1].
  2:{ split; [exact F1|]. intros Hnf.
      destruct (read_version_ok db v Hnf Hv) as (d & HR' & _). congruence. }
  pose proof (V1 v' eq_refl) as Hv'. rewrite Hv in Hv'. injection Hv' as <-.
  assert (Hnf1 : no_faults db -> no_faults db1).
  { intros Hnf. destruct (read_version_ok db v Hnf Hv) as (d & HR' & _ & Hd).
    rewrite HR in HR'. now injection HR' as ->. }
  destruct (Z.ltb_spec v 0) as [Hneg|Hpos].
  - destruct (Z.to_nat (Z.of_nat (List.length ms) - v)) as [|n] eqn:En; [lia|].
    cbn [migrate_loop].
    destruct (db_Begin db1) as [[tx|e] db2] eqn:EB;
      destruct (db_Begin_spec _ _ _ EB) as [F2 _].
    + destruct (Z.ltb_spec v 0); [|lia].
      split; [congruence|]. intros _. now eexists.
    + split; [congruence|]. intros Hnf.
      destruct (next_fault_ok db1 (Hnf1 Hnf)) as (d & N & _).
      unfold db_Begin in EB. rewrite N in EB. discriminate.
  - destruct Hrange as [|Hle]; [lia|].
    replace (Z.to_nat (Z.of_nat (List.length ms) - v)) with O by lia.
    cbn [migrate_loop]. split; [exact F1|reflexivity].
Qed.

Lemma migrate_version_out_of_range_witness :
  let '(out, db') := migrate_with migrations rewound in
  file db' = file rewound /\
  (no_faults rewound ->
   if -1 <? 0 then exists msg, out = Panic msg else out = Success).
Proof.
  apply (migrate_version_out_of_range migrations rewound (-1)).
  - vm_compute. reflexivity.
  - left. lia.
Defined.

(** ** Databases of the earlier release *)

(** X13.  Opening, with the driver working, a file the earlier release
    left: [New] succeeds, every row of the tasks table is kept, in its
    place, with an empty [closed_at] added, the rowid high-water mark is
    kept, the stored version is 1, and the database is ready. *)
Theorem New_upgrades_legacy (db : DB) :
  legacy_file (file db) -> no_faults db ->
  exists db',
    New db = (Success, db') /\ no_faults db' /\ ready (file db') /\
    stored_version (file db') = Some 1 /\
    tasks_rows (file db') = map widen (tasks_rows (file db)) /\
    tasks_seq (file db') = tasks_seq (file db).
Proof.
  intros (rows & seq & Ht & Hv & Hwf) Hnf.
  destruct (New_legacy db rows seq Ht Hv Hwf Hnf) as (db' & HN & Hnf' & Ht' & Hv' & Hwf').
  exists db'. split; [exact HN|]. split; [exact Hnf'|]. split; [now exists (map widen rows), seq|].
  split.
  - apply stored_version_inv. eexists _, _, _. split; [exact Hv'|]. repeat split.
  - unfold tasks_rows, tasks_seq. rewrite Ht, Ht'. split; reflexivity.
Qed.

Lemma New_upgrades_legacy_witness :
  exists db',
    New legacy = (Success, db') /\ no_faults db' /\ ready (file db') /\
    stored_version (file db') = Some 1 /\
    tasks_rows (file db') = map widen (tasks_rows (file legacy)) /\
    tasks_seq (file db') = tasks_seq (file legacy).
Proof.
  apply (New_upgrades_legacy legacy).
  - eexists _, _. split; [vm_compute; reflexivity|]. split; vm_compute; reflexivity.
  - vm_compute. reflexivity.
Defined.

(** X14.  The store of the earlier release keeps its file format: the
    file [New] makes of a fresh one has it, and on a file that has it,
    under a clock giving a valid time, the calls of the service leave a file
    that has it, whatever the driver meets; listing changes nothing. *)
Theorem legacy_store_keeps_format (t : Task) (title description : string)
    (priority : PriorityLevel) (id : Z) (w : World DB) :
  legacy_file (file (backend w)) -> validTime (clock w (ticks w)) ->
  let repo := LegacyStore.LegacyStore_Repository in
  legacy_file (file (backend (snd (@Service.Add DB repo title description priority w)))) /\
  legacy_file (file (backend (snd (@Service.Toggle DB repo t w)))) /\
  legacy_file (file (backend (snd (@Service.Edit DB repo t title description priority w)))) /\
  legacy_file (file (backend (snd (@Service.Delete DB repo id w)))) /\
  file (backend (snd (@Service.All DB repo w))) = file (backend w) /\
  (forall db db', file db = [] -> LegacyStore.New db = (Success, db') ->
                  legacy_file (file db')).
Proof.
  intros Hl V. pose proof Hl as (rows & seq & Ht & Hv & Hwf). cbv zeta.
  assert (Hsame : forall d, file d = file (backend w) -> legacy_file (file d)).
  { intros d ->. exact Hl. }
  split_all.
  - unfold Service.Add, bind, time_Now.
    change (@repo_Create DB LegacyStore.LegacyStore_Repository) with LegacyStore.Create.
    rewrite (Legacy_Create_cases _ (mkWorld (backend w) (clock w) (S (ticks w))) rows seq Ht).
    cbn [backend clock ticks].
    destruct (fst (next_fault (backend w))); unfold ret, Todo.nil; cbn [snd backend];
      [apply Hsame, next_fault_file|].
    destruct (maxInt64 <=? seq); cbn [snd backend file]; [apply Hsame, next_fault_file|].
    apply (legacy_file_set _ rows seq); auto.
    rewrite forallb_app, Hwf. cbn [forallb andb].
    now rewrite legacy_wf_created.
  - unfold Service.Toggle, bind, time_Now.
    change (@repo_Update DB LegacyStore.LegacyStore_Repository) with LegacyStore.Update.
    rewrite (Legacy_Update_cases _ (mkWorld (backend w) (clock w) (S (ticks w))) rows seq Ht Hwf).
    cbn [backend clock ticks].
    destruct (fst (next_fault (backend w))); cbn [snd backend file];
      [apply Hsame, next_fault_file|].
    apply (legacy_file_set _ rows seq); auto.
    rewrite forallb_forall in *. intros r Hr. apply in_map_iff in Hr as (r0 & <- & Hr0).
    destruct (has_id _ r0); [|now apply Hwf].
    apply legacy_wf_updated; [now apply Hwf|exact V].
  - unfold Service.Edit, bind, time_Now.
    change (@repo_Update DB LegacyStore.LegacyStore_Repository) with LegacyStore.Update.
    rewrite (Legacy_Update_cases _ (mkWorld (backend w) (clock w) (S (ticks w))) rows seq Ht Hwf).
    cbn [backend clock ticks].
    destruct (fst (next_fault (backend w))); cbn [snd backend file];
      [apply Hsame, next_fault_file|].
    apply (legacy_file_set _ rows seq); auto.
    rewrite forallb_forall in *. intros r Hr. apply in_map_iff in Hr as (r0 & <- & Hr0).
    destruct (has_id _ r0); [|now apply Hwf].
    apply legacy_wf_updated; [now apply Hwf|exact V].
  - change (@Service.Delete DB LegacyStore.LegacyStore_Repository id) with (LegacyStore.Delete id).
    rewrite (Legacy_Delete_cases id w rows seq Ht Hwf).
    destruct (fst (next_fault (backend w))); cbn [snd backend file];
      [apply Hsame, next_fault_file|].
    apply (legacy_file_set _ rows seq); auto. now apply legacy_wf_filter.
  - change (@Service.All DB LegacyStore.LegacyStore_Repository) with LegacyStore.List.
    rewrite (Legacy_List_cases w rows seq Ht Hwf).
    destruct (fst (next_fault (backend w))); cbn [snd backend]; apply next_fault_file.
  - intros db db' Hf. unfold LegacyStore.New.
    destruct (db_Exec LegacyStore.schema db) as [[res|e] d] eqn:E; [|discriminate].
    intros [= <-]. pose proof (db_Exec_ok_inv _ _ _ _ E) as X.
    rewrite Hf in X. cbn in X. injection X as _ <-.
    exists [], 0. repeat split.
Qed.

Lemma legacy_store_keeps_format_witness :
  let t := mkTask 1 "Pay rent" "" true PriorityMedium (quick_clock 0) (quick_clock 0) None in
  let w := mkWorld legacy quick_clock 0 in
  let repo := LegacyStore.LegacyStore_Repository in
  legacy_file (file (backend (snd (@Service.Add DB repo "Call the bank" "" PriorityHigh w)))) /\
  legacy_file (file (backend (snd (@Service.Toggle DB repo t w)))) /\
  legacy_file (file (backend (snd (@Service.Edit DB repo t "Call the bank" "" PriorityHigh w)))) /\
  legacy_file (file (backend (snd (@Service.Delete DB repo 1 w)))) /\
  file (backend (snd (@Service.All DB repo w))) = file (backend w) /\
  (forall db db', file db = [] -> LegacyStore.New db = (Success, db') ->
                  legacy_file (file db')).
Proof.
  apply (legacy_store_keeps_format
           (mkTask 1 "Pay rent" "" true PriorityMedium (quick_clock 0) (quick_clock 0) None)
           "Call the bank" "" PriorityHigh 1 (mkWorld legacy quick_clock 0)).
  - eexists _, _. split; [vm_compute; reflexivity|]. split; vm_compute; reflexivity.
  - reflexivity.
Defined.

(** X15.  A file the earlier release left, opened by [New] with the
    driver working, lists through the present store exactly the tasks, in
    the order, that the earlier store listed, none with a [closedAt]. *)
Theorem upgrade_keeps_listing (w : World DB) :
  legacy_file (file (backend w)) -> no_faults (backend w) ->
  exists db',
    New (backend w) = (Success, db') /\
    fst (Service.All (mkWorld db' (clock w) (ticks w))) =
      fst (@Service.All DB LegacyStore.LegacyStore_Repository w) /\
    snd (fst (Service.All (mkWorld db' (clock w) (ticks w)))) = nil /\
    Forall (fun t => ClosedAt t = None)
           (fst (fst (Service.All (mkWorld db' (clock w) (ticks w))))).
Proof.
  intros (rows & seq & Ht & Hv & Hwf) Hnf.
  destruct (New_legacy _ rows seq Ht Hv Hwf Hnf) as (db' & HN & Hnf' & Ht' & Hv' & Hwf').
  exists db'. split; [exact HN|].
  destruct (no_faults_next _ Hnf) as [N _].
  destruct (no_faults_next _ Hnf') as [N' _].
  change (@Service.All DB LegacyStore.LegacyStore_Repository) with LegacyStore.List.
  rewrite (Legacy_List_cases w rows seq Ht Hwf), N.
  change (@Service.All DB SQLiteStore_Repository) with List.
  rewrite (List_cases (mkWorld db' (clock w) (ticks w)) (map widen rows) seq Ht' Hwf').
  cbn [backend]. rewrite N'. cbn [fst snd].
  assert (E : map task_of_row (sort_by list_order (map widen rows)) =
              map legacy_task_of_row (sort_by legacy_order rows)).
  { rewrite (sort_by_map widen legacy_order list_order).
    2:{ intros a b Ha Hb. rewrite forallb_forall in Hwf. apply order_widen; auto. }
    rewrite map_map. apply map_ext_in. intros r Hr. apply task_of_widen.
    pose proof (sort_by_forallb legacy_order legacy_row rows Hwf) as S.
    rewrite forallb_forall in S. now apply S. }
  rewrite E. split; [reflexivity|]. split; [reflexivity|].
  apply Forall_forall. intros t Hin. apply in_map_iff in Hin as (r & <- & Hr).
  pose proof (sort_by_forallb legacy_order legacy_row rows Hwf) as S.
  rewrite forallb_forall in S.
  destruct (legacy_row_shape r (S r Hr)) as (i & ti & de & d & p & c & u & -> & _).
  reflexivity.
Qed.

Lemma upgrade_keeps_listing_witness :
  let w := mkWorld legacy quick_clock 0 in
  exists db',
    New (backend w) = (Success, db') /\
    fst (Service.All (mkWorld db' (clock w) (ticks w))) =
      fst (@Service.All DB LegacyStore.LegacyStore_Repository w) /\
    snd (fst (Service.All (mkWorld db' (clock w) (ticks w)))) = nil /\
    Forall (fun t => ClosedAt t = None)
           (fst (fst (Service.All (mkWorld db' (clock w) (ticks w))))).
Proof.
  apply (upgrade_keeps_listing (mkWorld legacy quick_clock 0)).
  - eexists _, _. split; [vm_compute; reflexivity|]. split; vm_compute; reflexivity.
  - vm_compute. reflexivity.
Defined.

(** ** The task form *)

(** X16.  The priority of the task form: the name [String] gives a
    priority leads [parsePriority] back to it when it is one of the three
    levels, and to Low otherwise; and the name [parsePriority] is given comes
    back from [String] when it is one of the three options, and as "Low"
    otherwise. *)
Theorem priority_names (p : PriorityLevel) (sel : string) :
  Desktop.parsePriority (Priority_String p) =
    (if (p =? PriorityHigh) || (p =? PriorityMedium) then p else PriorityLow) /\
  Priority_String (Desktop.parsePriority sel) =
    (if String.eqb sel "High" || String.eqb sel "Medium" then sel else "Low").
Proof.
  split.
  - unfold Priority_String, Desktop.parsePriority.
    destruct (Z.eqb_spec p PriorityHigh) as [->|]; [reflexivity|].
    destruct (Z.eqb_spec p PriorityMedium) as [->|]; reflexivity.
  - unfold Priority_String, Desktop.parsePriority.
    destruct (String.eqb_spec sel "High") as [->|]; [reflexivity|].
    destruct (String.eqb_spec sel "Medium") as [->|]; reflexivity.
Qed.

(** ** The window *)

(** X17.  [refresh], for every repository.  When the listing fails the
    window keeps its tasks, its filter and its footer, and the error is
    shown.  When it succeeds nothing is shown; the window holds the tasks
    listed that the filter shows ("active": those not done, "done": those
    done, anything else: all), in the order listed; and the footer counts
    the tasks done among all those listed, whatever the filter. *)
Theorem refresh_view {R : Type} `{Repository R} (s : Window.appState) (w : World R) :
  snd (Window.refresh s w) = snd (Service.All w) /\
  match snd (fst (Service.All w)) with
  | Some e => fst (Window.refresh s w) = (s, Some e)
  | None =>
      let all := fst (fst (Service.All w)) in
      fst (Window.refresh s w) =
        (Window.mkAppState
           (filter (shown_under (Window.filter s)) all)
           (Window.filter s)
           (Window.Sprintf_d (Z.of_nat (List.length (filter Done all))) ++ " / " ++
            Window.Sprintf_d (Z.of_nat (List.length all)) ++ " completed"),
         None)
  end.
Proof.
  unfold Window.refresh, bind.
  destruct (Service.All w) as [[all [e|]] w']; cbn [fst snd ret]; unfold ret.
  - split; reflexivity.
  - split; [reflexivity|]. rewrite keep_loop, count_loop. reflexivity.
Qed.

(** The footer of a window on two tasks, one of them done. *)
Example footer_text :
  Window.statsLabel (fst (fst (Window.refresh active_view one_done))) = "1 / 2 completed" /\
  map Title (Window.tasks (fst (fst (Window.refresh active_view one_done)))) = ["Call the bank"].
Proof. split; vm_compute; reflexivity. Qed.

(** X18.  The check button, on a ready database with the driver working
    and the clock giving valid times.  Under the filter "active" or "done",
    toggling a task the window shows shows no error and takes every task of
    that id out of the window; the other tasks the window shows are those
    the filter shows of the listing there was, in their order. *)
Theorem toggleTask_leaves_view (s : Window.appState) (t : Task) (w : World DB) :
  ready (file (backend w)) -> no_faults (backend w) ->
  (forall n, validTime (clock w n)) -> closed_valid t ->
  Window.filter s = "active" \/ Window.filter s = "done" ->
  shown_under (Window.filter s) t = true ->
  let '((s', t', shown), w') := Window.toggleTask s t w in
  shown = None /\ Done t' = negb (Done t) /\
  Forall (fun u => ID u <> ID t) (Window.tasks s') /\
  Window.tasks s' =
    filter (fun u => shown_under (Window.filter s) u && negb (ID u =? ID t))
           (fst (fst (Service.All w))).
Proof.
  intros Hr Hnf Vclk Vt Hflt Hshown.
  rewrite (All_listing w Hr Hnf). cbn [fst].
  unfold Window.toggleTask, bind. rewrite Toggle_unfold.
  set (u := set_UpdatedAt (set_Done t (negb (Done t))) (clock w (ticks w))).
  set (w1 := mkWorld (backend w) (clock w) (S (ticks w))).
  destruct (Update_others u w1) as (HU & Hr' & Hnf' & Hothers & Hsame);
    [exact Hr|exact Hnf|apply Vclk| |].
  { apply stamped_closed_valid; [apply Vclk|exact Vt]. }
  destruct (Update u w1) as [[t' e] w'] eqn:EU. cbn [fst snd] in *.
  injection HU as -> ->. unfold Todo.nil. cbv iota.
  pose proof (refresh_result s w') as RR.
  rewrite (All_listing w' Hr' Hnf') in RR. unfold Todo.nil in RR. cbv iota in RR.
  destruct (Window.refresh s w') as [[s' shown] w2]. cbn [fst] in RR.
  injection RR as -> ->. unfold ret. cbn [Window.tasks].
  match goal with |- context [Done (stamped ?n u)] =>
    destruct (stamped_fields n u) as (_ & _ & _ & -> & _) end.
  assert (Hout : forall v, In v (listing (file (backend w'))) ->
            shown_under (Window.filter s) v =
            shown_under (Window.filter s) v && negb (ID v =? ID t)).
  { intros v Hv. destruct (Z.eqb_spec (ID v) (ID t)) as [E|Ne]; [|now rewrite andb_true_r].
    rewrite Forall_forall in Hsame. specialize (Hsame v Hv E).
    change (Done u) with (negb (Done t)) in Hsame.
    rewrite andb_false_r. unfold shown_under in *.
    destruct Hflt as [E' | E']; rewrite E' in *;
      cbn [String.eqb Ascii.eqb Bool.eqb] in *; rewrite Hsame;
      destruct (Done t); cbn in *; congruence. }
  assert (Etasks : filter (shown_under (Window.filter s)) (listing (file (backend w'))) =
                   filter (fun v => shown_under (Window.filter s) v && negb (ID v =? ID t))
                          (listing (file (backend w)))).
  { rewrite (filter_ext_in _ _ _ Hout).
    rewrite <- !filter_twice. f_equal. exact Hothers. }
  split; [reflexivity|]. split; [reflexivity|]. split; [|exact Etasks].
  rewrite Etasks. apply Forall_forall. intros v Hv. apply filter_In in Hv as [_ Hv].
  apply andb_true_iff in Hv as [_ Hv]. apply negb_true_iff, Z.eqb_neq in Hv. exact Hv.
Qed.

Lemma toggleTask_leaves_view_witness :
  let s := active_view in
  let t := planted_task quick_clock in
  let w := two_tasks in
  let '((s', t', shown), w') := Window.toggleTask s t w in
  shown = None /\ Done t' = negb (Done t) /\
  Forall (fun u => ID u <> ID t) (Window.tasks s') /\
  Window.tasks s' =
    filter (fun u => shown_under (Window.filter s) u && negb (ID u =? ID t))
           (fst (fst (Service.All w))).
Proof.
  apply (toggleTask_leaves_view active_view (planted_task quick_clock) two_tasks).
  - ready_by_computation.
  - vm_compute. reflexivity.
  - intros n. vm_compute. reflexivity.
  - intros c H. discriminate H.
  - left. reflexivity.
  - reflexivity.
Defined.

(** X19.  The answer to the delete dialog.  Answered no, nothing
    happens: no call is made, the window and the world stay as they are.
    Answered yes, on a ready database with the driver working: no error is
    shown, the rows of that id are gone, and the window shows what its
    filter shows of the listing there was, the tasks of that id left out. *)
Theorem confirmDelete_view (s : Window.appState) (t : Task) (ok : bool) (w : World DB) :
  ready (file (backend w)) -> no_faults (backend w) ->
  let '((s', shown), w') := Window.confirmDelete s t ok w in
  shown = None /\
  if ok then
    Window.tasks s' =
      filter (fun u => shown_under (Window.filter s) u && negb (ID u =? ID t))
             (fst (fst (Service.All w))) /\
    tasks_rows (file (backend w')) =
      filter (fun r => negb (row_id r =? ID t)) (tasks_rows (file (backend w)))
  else s' = s /\ w' = w.
Proof.
  intros Hr Hnf. unfold Window.confirmDelete.
  destruct ok; [|unfold ret; auto].
  pose proof Hr as (rows & seq & Hf & Hwf).
  destruct (ready_tasks _ _ _ Hf) as [Hrows Hseq].
  destruct (no_faults_next _ Hnf) as [N Hnf1].
  rewrite (All_listing w Hr Hnf). cbn [fst].
  unfold bind. change (@Service.Delete DB SQLiteStore_Repository (ID t)) with (Delete (ID t)).
  rewrite (Delete_cases (ID t) w rows seq Hf Hwf), N. unfold Todo.nil. cbv iota.
  set (rows' := filter (fun r => negb (has_id (ID t) r)) rows).
  set (w1 := mkWorld _ (clock w) (ticks w)).
  assert (Hr1 : ready (file (backend w1))).
  { exists rows', seq. split; [apply find_set_same|now apply wf_filter]. }
  pose proof (refresh_result s w1) as RR.
  rewrite (All_listing w1 Hr1 Hnf1) in RR. unfold Todo.nil in RR. cbv iota in RR.
  assert (Hfile : file (backend (snd (Window.refresh s w1))) = file (backend w1)).
  { unfold Window.refresh, bind.
    change (@Service.All DB SQLiteStore_Repository) with List.
    destruct (List_keeps_ready w1 Hr1) as (F & _).
    destruct (List w1) as [[all [e|]] w2]; cbn [snd] in *; unfold ret; exact F. }
  destruct (Window.refresh s w1) as [[s' shown] w2]. cbn [fst snd] in *.
  injection RR as -> ->. cbn [Window.tasks].
  split; [reflexivity|]. split.
  - unfold listing. subst w1. cbn [backend file].
    rewrite (proj1 (tasks_of_set _ _ _)), Hrows.
    rewrite <- filter_twice.
    rewrite (listing_filter (fun i => negb (i =? ID t))) by assumption.
    subst rows'. now rewrite filter_has_id.
  - rewrite Hfile. subst w1. cbn [backend file].
    rewrite (proj1 (tasks_of_set _ _ _)), Hrows. subst rows'. now apply filter_has_id.
Qed.

Lemma confirmDelete_view_witness :
  let s := active_view in
  let t := planted_task quick_clock in
  let w := two_tasks in
  let '((s', shown), w') := Window.confirmDelete s t true w in
  shown = None /\
  Window.tasks s' =
    filter (fun u => shown_under (Window.filter s) u && negb (ID u =? ID t))
           (fst (fst (Service.All w))) /\
  tasks_rows (file (backend w')) =
    filter (fun r => negb (row_id r =? ID t)) (tasks_rows (file (backend w))).
Proof.
  apply (confirmDelete_view active_view (planted_task quick_clock) true two_tasks).
  - ready_by_computation.
  - vm_compute. reflexivity.
Defined.

(** ** The web placeholder *)

(** X20.  The page of the web placeholder, which runs on the store of
    the earlier release: on a file of that release it reports the number of
    rows of the tasks table; when the driver fails on the query it reports
    0 tasks, the error being dropped.  The file is not changed. *)
Theorem handler_page (w : World DB) :
  legacy_file (file (backend w)) ->
  fst (@Web.handler DB LegacyStore.LegacyStore_Repository w) =
    page (if fst (next_fault (backend w)) then 0
          else Z.of_nat (List.length (tasks_rows (file (backend w))))) /\
  file (backend (snd (@Web.handler DB LegacyStore.LegacyStore_Repository w)))
    = file (backend w).
Proof.
  intros (rows & seq & Ht & Hv & Hwf).
  unfold Web.handler, bind, page.
  change (@Service.All DB LegacyStore.LegacyStore_Repository) with LegacyStore.List.
  rewrite (Legacy_List_cases w rows seq Ht Hwf).
  unfold tasks_rows. rewrite Ht. cbn [tbl_rows].
  destruct (fst (next_fault (backend w))); unfold ret; cbn [fst snd backend List.length].
  - split; [reflexivity|apply next_fault_file].
  - rewrite length_map, <- (Permutation_length (sort_by_perm legacy_order rows)).
    split; [reflexivity|apply next_fault_file].
Qed.

Lemma handler_page_witness :
  let w := mkWorld legacy quick_clock 0 in
  fst (@Web.handler DB LegacyStore.LegacyStore_Repository w) =
    page (if fst (next_fault (backend w)) then 0
          else Z.of_nat (List.length (tasks_rows (file (backend w))))) /\
  file (backend (snd (@Web.handler DB LegacyStore.LegacyStore_Repository w)))
    = file (backend w).
Proof.
  apply (handler_page (mkWorld legacy quick_clock 0)).
  eexists _, _. split; [vm_compute; reflexivity|]. split; vm_compute; reflexivity.
Defined.

(** ** Opening again *)

(** X21.  A first launch, on a fresh file, whatever calls of the driver
    fail: [New] succeeds or hands back an error, it does not panic; and it
    leaves a file from which the next launch, with the driver working,
    succeeds and reaches the same ready database as an undisturbed first
    launch. *)
Theorem New_restartable (db0 db1 db2 : DB) (out : outcome) :
  file db0 = [] -> New db0 = (out, db1) ->
  file db2 = file db1 -> no_faults db2 ->
  (forall msg, out <> Panic msg) /\
  (out <> Success -> exists msg, out = Failure msg) /\
  exists db3,
    New db2 = (Success, db3) /\ file db3 = file (opened fresh) /\
    ready (file db3) /\ no_faults db3.
Proof.
  intros Hf HN Hsame Hnf.
  assert (Hready : ready (file (opened fresh))).
  { eexists _, _. split; [vm_compute; reflexivity|]. vm_compute. reflexivity. }
  assert (Hgo : forall f0 v,
            bootstrap (file db1) = Ok f0 -> stored_version f0 = Some v -> 0 <= v ->
            steps_tx v (skipn (Z.to_nat v) migrations) f0 = Ok (file (opened fresh)) ->
            exists db3, New db2 = (Success, db3) /\ file db3 = file (opened fresh) /\
                        ready (file db3) /\ no_faults db3).
  { intros f0 v Hb Hv H0 Hs. rewrite <- Hsame in Hb.
    destruct (New_from db2 f0 v Hnf Hb Hv H0 Hs) as (db3 & H1 & H2 & H3).
    exists db3. rewrite H2. auto. }
  unfold New, New_with in HN.
  destruct (db_ExecScript initialSchema db0) as [[res|e] d1] eqn:ES.
  - (* the initial schema has run *)
    destruct (db_ExecScript_prefix _ _ _ _ ES) as (k & _ & Hrun & Hall).
    rewrite (Hall res eq_refl), Hf in Hrun.
    assert (F1 : file d1 = bootstrapped).
    { assert (E : Ok (file d1) = Ok bootstrapped) by (rewrite <- Hrun; vm_compute; reflexivity).
      now injection E. }
    assert (V1 : stored_version (file d1) = Some 0) by (rewrite F1; vm_compute; reflexivity).
    destruct (migrate_with migrations d1) as [out' d2] eqn:HM.
    assert (Hfile : file d2 = bootstrapped \/ file d2 = file (opened fresh)).
    { unfold migrate_with in HM.
      destruct (read_version d1) as [[v|e] d1'] eqn:HR;
        destruct (read_version_spec _ _ _ HR) as [F2 V2].
      - pose proof (V2 v eq_refl) as Hv. rewrite V1 in Hv. injection Hv as <-.
        destruct (migrate_loop_atomic migrations _ 0 d1' out' d2 ltac:(lia) eq_refl HM)
          as (k' & Hk' & Hsteps & _).
        rewrite F2, F1 in Hsteps. cbn in Hk'.
        destruct k' as [|[|k']]; [left|right|lia].
        + cbn in Hsteps. now injection Hsteps.
        + assert (E : Ok (file d2) = Ok (file (opened fresh)))
            by (rewrite <- Hsteps; vm_compute; reflexivity).
          now injection E.
      - injection HM as _ <-. left. congruence. }
    assert (Hout : (forall msg, out' <> Panic msg) /\
                   (out' <> Success -> exists msg, out' = Failure msg)).
    { unfold migrate_with in HM.
      destruct (read_version d1) as [[v|e] d1'] eqn:HR;
        destruct (read_version_spec _ _ _ HR) as [F2 V2].
      - pose proof (V2 v eq_refl) as Hv. rewrite V1 in Hv. injection Hv as <-.
        destruct (migrate_loop_atomic migrations _ 0 d1' out' d2 ltac:(lia) eq_refl HM)
          as (k' & Hk' & _ & _ & _ & Hp).
        split; [exact Hp|]. intros Hns. destruct out' as [|msg|msg].
        + now elim Hns.
        + now exists msg.
        + now elim (Hp msg).
      - injection HM as <- _. split; [discriminate|]. intros _. now eexists. }
    destruct Hout as [Hp Hfail].
    assert (Eout : db1 = d2 /\ (forall msg, out <> Panic msg) /\
                   (out <> Success -> exists msg, out = Failure msg)).
    { destruct out' as [|msg|msg]; injection HN as <- <-.
      - split; [reflexivity|]. split; [discriminate|]. intros H; now elim H.
      - split; [reflexivity|]. split; [discriminate|]. intros _. now eexists.
      - now elim (Hp msg). }
    destruct Eout as (-> & Hp' & Hfail').
    split; [exact Hp'|]. split; [exact Hfail'|].
    destruct Hfile as [F|F]; rewrite F in Hgo.
    + apply (Hgo bootstrapped 0); [vm_compute; reflexivity|vm_compute; reflexivity|lia|].
      vm_compute. reflexivity.
    + apply (Hgo (file (opened fresh)) 1);
        [vm_compute; reflexivity|vm_compute; reflexivity|lia|].
      vm_compute. reflexivity.
  - (* the initial schema was cut short *)
    injection HN as <- <-.
    split; [discriminate|]. split; [intros _; now eexists|].
    destruct (db_ExecScript_prefix _ _ _ _ ES) as (k & Hk & Hrun & _).
    rewrite Hf in Hrun. cbn [List.length initialSchema] in Hk.
    assert (Hb : bootstrap (file d1) = Ok bootstrapped).
    { destruct k as [|[|[|[|k]]]]; [| | | |lia];
        match type of Hrun with
        | ?lhs = Ok _ =>
            let E := fresh in
            assert (E : exists f, lhs = Ok f /\ bootstrap f = Ok bootstrapped)
              by (eexists; split; [vm_compute; reflexivity|vm_compute; reflexivity]);
            destruct E as (f & E1 & E2); rewrite E1 in Hrun; injection Hrun as <-; exact E2
        end. }
    apply (Hgo bootstrapped 0); [exact Hb|vm_compute; reflexivity|lia|].
    vm_compute. reflexivity.
Qed.

Lemma New_restartable_witness :
  (forall msg, fst (New cut_short) <> Panic msg) /\
  (fst (New cut_short) <> Success -> exists msg, fst (New cut_short) = Failure msg) /\
  exists db3,
    New (mkDB (file (snd (New cut_short))) []) = (Success, db3) /\
    file db3 = file (opened fresh) /\ ready (file db3) /\ no_faults db3.
Proof.
  apply (New_restartable cut_short (snd (New cut_short))
           (mkDB (file (snd (New cut_short))) []) (fst (New cut_short))).
  - reflexivity.
  - destruct (New cut_short). reflexivity.
  - reflexivity.
  - reflexivity.
Defined.

(** The launch cut short reports the failure and leaves the tasks table
    alone in the file. *)
Example cut_short_launch :
  fst (New cut_short) = Failure "init schema: driver: bad connection" /\
  map fst (file (snd (New cut_short))) = ["tasks"].
Proof. split; vm_compute; reflexivity. Qed.

End Extras.
